(** * The URL-pair pipeline of [scripts/parse-pr-urls.js]

    A shallow embedding of [validateUrl], [parsePRBody], [updateBackstopConfig]
    and [main], followed by the properties of the pipeline.

    JavaScript strings are sequences of UTF-16 code units; they are modelled
    as lists of code units ([N]).  The console, the file system and the result
    of a call (a value, [process.exit] or an uncaught exception) are threaded
    through a small state-and-exit monad. *)

From Stdlib Require Import List NArith ZArith Bool String Ascii Lia Floats.
From Stdlib Require Import DecimalString DecimalNat.
Import ListNotations.

Set Warnings "-inexact-float".
Local Open Scope N_scope.

(** ** Strings *)

Module JsString.

Definition jsstring := list N.

(** An ASCII literal of the source, as code units. *)
Fixpoint str (s : string) : jsstring :=
  match s with
  | EmptyString => []
  | String a s' => N_of_ascii a :: str s'
  end.

Definition eqb (a b : jsstring) : bool :=
  if list_eq_dec N.eq_dec a b then true else false.

(** Code units the source names that are not ASCII letters. *)
Definition LF : N := 10.
Definition CR : N := 13.
Definition dquote : N := 34.
Definition bullet : N := 8226.       (* U+2022 *)
Definition check_mark : N := 9989.   (* U+2705 *)
Definition cross_mark : N := 10060.  (* U+274C *)

(** WhiteSpace and LineTerminator of ECMAScript: what [String.prototype.trim]
    strips and what the class [\s] matches. *)
Definition isWhiteSpace (c : N) : bool :=
  ((9 <=? c) && (c <=? 13))
  || (c =? 32) || (c =? 160) || (c =? 5760)
  || ((8192 <=? c) && (c <=? 8202))
  || (c =? 8232) || (c =? 8233) || (c =? 8239) || (c =? 8287)
  || (c =? 12288) || (c =? 65279).

Definition isLineTerminator (c : N) : bool :=
  (c =? 10) || (c =? 13) || (c =? 8232) || (c =? 8233).

(** The rest of [s] after its longest prefix of characters of class [c]. *)
Fixpoint dropWhile (c : N -> bool) (s : jsstring) : jsstring :=
  match s with
  | [] => []
  | x :: s' => if c x then dropWhile c s' else s
  end.

Definition trimStart (s : jsstring) : jsstring := dropWhile isWhiteSpace s.

Definition trimEnd (s : jsstring) : jsstring := rev (trimStart (rev s)).

Definition trim (s : jsstring) : jsstring := trimEnd (trimStart s).

(** [s.split('\n')]: the pieces between line feeds; never the empty list. *)
Fixpoint split_lines (s : jsstring) : list jsstring :=
  match s with
  | [] => [[]]
  | c :: s' =>
      if c =? LF then [] :: split_lines s'
      else match split_lines s' with
           | [] => [[c]]
           | l :: ls => (c :: l) :: ls
           end
  end.

(** A number in a template literal: the decimal digits of a count. *)
Definition decimal (n : nat) : jsstring :=
  str (NilEmpty.string_of_uint (Nat.to_uint n)).

(** A string in a boolean position: only the empty one is falsy. *)
Definition truthy (s : option jsstring) : bool :=
  match s with
  | Some (_ :: _) => true
  | _ => false
  end.

End JsString.
Import JsString.

Arguments str _ : simpl never.
Arguments decimal _ : simpl never.

(** ** Regular expressions

    The two patterns of [parsePRBody] are anchored sequences of character
    classes, greedy stars of a class and one capturing group [(c+)].  [exec]
    is a backtracking matcher in the priority order of the engine: a greedy
    quantifier first takes all it can and gives characters back one by one. *)

Module Regex.

Inductive atom :=
| One (c : N -> bool)
| Star (c : N -> bool)
| Group (c : N -> bool).

(** [greedy c k taken s]: take the longest run of [c] from [s] for which the
    continuation [k] succeeds; [taken] holds what was taken, last one first. *)
Fixpoint greedy {R} (c : N -> bool) (k : jsstring -> jsstring -> option R)
         (taken s : jsstring) : option R :=
  match s with
  | x :: s' =>
      if c x then
        match greedy c k (x :: taken) s' with
        | Some r => Some r
        | None => k taken s
        end
      else k taken s
  | [] => k taken []
  end.

(** [exec p s cap]: match all of [s] against [p]; the result is capture 1. *)
Fixpoint exec (p : list atom) (s : jsstring) (cap : jsstring) : option jsstring :=
  match p with
  | [] => match s with [] => Some cap | _ :: _ => None end
  | One c :: p' =>
      match s with
      | x :: s' => if c x then exec p' s' cap else None
      | [] => None
      end
  | Star c :: p' => greedy c (fun _ rest => exec p' rest cap) [] s
  | Group c :: p' =>
      greedy c (fun taken rest =>
                  match taken with
                  | [] => None
                  | _ :: _ => exec p' rest (rev taken)
                  end) [] s
  end.

(** [line.match(/^...$/)[1]] *)
Definition re_match (p : list atom) (s : jsstring) : option jsstring := exec p s [].

Definition lit (a : ascii) : atom := One (N.eqb (N_of_ascii a)).
Definition either (a b : ascii) : atom :=
  One (fun c => (c =? N_of_ascii a) || (c =? N_of_ascii b)).

(** [[\*\-•\s]] *)
Definition bulletOrSpace (c : N) : bool :=
  (c =? 42) || (c =? 45) || (c =? bullet) || isWhiteSpace c.

(** [.] without the [s] flag *)
Definition dot (c : N) : bool := negb (isLineTerminator c).

Definition word (s : string) : list atom := map lit (list_ascii_of_string s).

(** [/^[\*\-•\s]*[Bb]efore:\s*(.+)$/] *)
Definition beforeRe : list atom :=
  Star bulletOrSpace :: either "B" "b" :: word "efore:" ++ [Star isWhiteSpace; Group dot].

(** [/^[\*\-•\s]*[Aa]fter:\s*(.+)$/] *)
Definition afterRe : list atom :=
  Star bulletOrSpace :: either "A" "a" :: word "fter:" ++ [Star isWhiteSpace; Group dot].

End Regex.
Import Regex.

(** ** Values of the configuration document *)

#[warnings="-register-all"]
Inductive json :=
| JNull
| JBool (b : bool)
| JNum (x : float)
| JStr (s : jsstring)
| JArr (items : list json)
| JObj (fields : list (jsstring * json)).

(** Own properties of an object, in property order. *)
Fixpoint lookup (k : jsstring) (fields : list (jsstring * json)) : option json :=
  match fields with
  | [] => None
  | (k', v) :: rest => if JsString.eqb k k' then Some v else lookup k rest
  end.

(** [obj.k = v]: an existing property keeps its place, a new one goes last. *)
Fixpoint assign (k : jsstring) (v : json) (fields : list (jsstring * json))
  : list (jsstring * json) :=
  match fields with
  | [] => [(k, v)]
  | (k', v') :: rest =>
      if JsString.eqb k k' then (k', v) :: rest else (k', v') :: assign k v rest
  end.

(** A value in a boolean position; [None] is [undefined]. *)
Definition truthy_value (v : option json) : bool :=
  match v with
  | None | Some JNull => false
  | Some (JBool b) => b
  | Some (JNum x) => negb (PrimFloat.eqb x 0%float || PrimFloat.is_nan x)
  | Some (JStr s) => truthy (Some s)
  | Some (JArr _) | Some (JObj _) => true
  end.

(** [JSON.parse(JSON.stringify(j, null, 2))]: what a written document reads
    back as.  JSON has no text for a number that is not finite, which
    [JSON.parse] makes of a literal such as [1e400]: [JSON.stringify] writes
    [null] for it, and [0] for [-0].  Every other value comes back as it
    was. *)
Fixpoint reparsed (j : json) : json :=
  match j with
  | JNum x =>
      if PrimFloat.is_nan x || PrimFloat.is_infinity x then JNull
      else if PrimFloat.eqb x 0%float then JNum 0%float
      else JNum x
  | JArr items => JArr (map reparsed items)
  | JObj fields => JObj (map (fun kv => (fst kv, reparsed (snd kv))) fields)
  | _ => j
  end.

(** ** The process: console, file system, exits and exceptions *)

Inductive channel := stdout | stderr.

Inductive error := TypeError | SyntaxError | SystemError.

(** What a path holds.  [Unreadable]: [fs.readFileSync] throws; [Malformed]:
    [JSON.parse] throws on the text read; [Document j]: the text parses to
    [j].  The text itself is not kept: a file written with
    [JSON.stringify(j, null, 2)] holds [Document (reparsed j)]. *)
Inductive contents := Unreadable | Malformed | Document (j : json).

Record file := { data : contents; writable : bool }.

Record State := {
  console : list (channel * jsstring);
  files : jsstring -> option file
}.

Inductive result (A : Type) :=
| Ret (a : A)
| Exit (code : Z)
| Throw (e : error).
Arguments Ret {A} a.
Arguments Exit {A} code.
Arguments Throw {A} e.

Definition M (A : Type) := State -> result A * State.

Definition ret {A} (a : A) : M A := fun st => (Ret a, st).

Definition bind {A B} (m : M A) (k : A -> M B) : M B :=
  fun st =>
    match m st with
    | (Ret a, st') => k a st'
    | (Exit c, st') => (Exit c, st')
    | (Throw e, st') => (Throw e, st')
    end.

Declare Scope js_scope.
Delimit Scope js_scope with js.
Notation "x <- m ;; k" := (bind m (fun x => k))
  (at level 61, m at next level, right associativity) : js_scope.
Notation "m ;; k" := (bind m (fun _ => k))
  (at level 61, right associativity) : js_scope.
Local Open Scope js_scope.

Definition print (ch : channel) (line : jsstring) : M unit :=
  fun st => (Ret tt, {| console := console st ++ [(ch, line)]; files := files st |}).

Definition console_log : jsstring -> M unit := print stdout.
Definition console_error : jsstring -> M unit := print stderr.

Definition process_exit {A} (code : Z) : M A := fun st => (Exit code, st).
Definition throw {A} (e : error) : M A := fun st => (Throw e, st).

Definition existsSync (path : jsstring) : M bool :=
  fun st => (Ret (match files st path with Some _ => true | None => false end), st).

(** [JSON.parse(fs.readFileSync(path, 'utf8'))] *)
Definition readDocument (path : jsstring) : M json :=
  fun st =>
    match files st path with
    | Some {| data := Document j |} => (Ret j, st)
    | Some {| data := Malformed |} => (Throw SyntaxError, st)
    | Some {| data := Unreadable |} | None => (Throw SystemError, st)
    end.

(** [fs.writeFileSync(path, JSON.stringify(j, null, 2))] *)
Definition writeDocument (path : jsstring) (j : json) : M unit :=
  fun st =>
    let put := fun p => if JsString.eqb p path
                        then Some {| data := Document (reparsed j); writable := true |}
                        else files st p in
    match files st path with
    | Some {| writable := false |} => (Throw SystemError, st)
    | _ => (Ret tt, {| console := console st; files := put |})
    end.

(** ** Extraction of candidate pairs (the line scan of [parsePRBody]) *)

Record pair := { before : jsstring; after : jsstring }.

Record ScanState := {
  currentBefore : option jsstring;
  currentAfter : option jsstring;
  potentialPairs : list pair
}.

Definition scanStart : ScanState :=
  {| currentBefore := None; currentAfter := None; potentialPairs := [] |}.

Definition arrow (b a : jsstring) : jsstring := b ++ str " -> " ++ a.

(** The body of the [for] loop, for one trimmed line. *)
Definition scanLine (s : ScanState) (line : jsstring) : M ScanState :=
  match re_match beforeRe line with
  | Some m =>
      ret {| currentBefore := Some (trim m);
             currentAfter := currentAfter s;
             potentialPairs := potentialPairs s |}
  | None =>
      match re_match afterRe line with
      | Some m =>
          let a := trim m in
          if truthy (currentBefore s) && truthy (Some a) then
            let b := match currentBefore s with Some b => b | None => [] end in
            console_log (str "Found potential URL pair: " ++ arrow b a) ;;
            ret {| currentBefore := None;
                   currentAfter := None;
                   potentialPairs := potentialPairs s ++ [{| before := b; after := a |}] |}
          else
            ret {| currentBefore := currentBefore s;
                   currentAfter := Some a;
                   potentialPairs := potentialPairs s |}
      | None => ret s
      end
  end.

Fixpoint scanLines (s : ScanState) (lines : list jsstring) : M ScanState :=
  match lines with
  | [] => ret s
  | line :: rest => s' <- scanLine s line ;; scanLines s' rest
  end.

(** Lines 62-97: split, trim every line, scan. *)
Definition extract (prBody : jsstring) : M ScanState :=
  scanLines scanStart (map trim (split_lines prBody)).

(** ** The configuration document in memory

    [doc] is what [JSON.parse] returned, with its updates.  When the document
    is an array, [backstopConfig.scenarios] is an extra property of that array
    object, which [JSON.stringify] does not write: [expando] holds it. *)

Record config := { doc : json; expando : option (list json) }.

Definition parsed (j : json) : config := {| doc := j; expando := None |}.

(** The scenario record built for one pair; [index] counts from 0. *)
Definition scenario (p : pair) (index : nat) : json :=
  JObj [ (str "label", JStr (str "Additional test page (" ++ decimal (index + 1) ++ str ")"));
         (str "url", JStr (after p));
         (str "referenceUrl", JStr (before p));
         (str "hideSelectors",
          JArr [ JStr (str ".cookie-banner");
                 JStr (str ".loading-spinner");
                 JStr (str "[data-testid=" ++ [dquote] ++ str "timestamp" ++ [dquote] ++ str "]");
                 JStr (str ".logo-garden") ]);
         (str "removeSelectors",
          JArr [ JStr (str ".advertisement"); JStr (str ".chat-widget") ]);
         (str "misMatchThreshold", JNum 0.1%float) ].

(** [backstopConfig.scenarios]; reading a property of [null] throws. *)
Definition getScenarios (c : config) : M (option json) :=
  match doc c with
  | JNull => throw TypeError
  | JObj fields => ret (lookup (str "scenarios") fields)
  | JArr _ => ret (option_map JArr (expando c))
  | JBool _ | JNum _ | JStr _ => ret None
  end.

(** [backstopConfig.scenarios = []]; on a primitive the assignment is ignored
    (the script is not in strict mode). *)
Definition resetScenarios (c : config) : config :=
  match doc c with
  | JObj fields =>
      {| doc := JObj (assign (str "scenarios") (JArr []) fields); expando := expando c |}
  | JArr _ => {| doc := doc c; expando := Some [] |}
  | _ => c
  end.

(** [backstopConfig.scenarios.push(scenario)]; only an array has [push]. *)
Definition pushScenario (c : config) (sc : json) : M config :=
  match doc c with
  | JObj fields =>
      match lookup (str "scenarios") fields with
      | Some (JArr items) =>
          ret {| doc := JObj (assign (str "scenarios") (JArr (items ++ [sc])) fields);
                 expando := expando c |}
      | _ => throw TypeError
      end
  | JArr _ =>
      match expando c with
      | Some items => ret {| doc := doc c; expando := Some (items ++ [sc]) |}
      | None => throw TypeError
      end
  | _ => throw TypeError
  end.

Definition labelOf (sc : json) : jsstring :=
  match sc with
  | JObj fields => match lookup (str "label") fields with Some (JStr l) => l | _ => [] end
  | _ => []
  end.

(** [urlPairs.forEach((pair, index) => ...)], from [index] on. *)
Fixpoint addScenarios (urlPairs : list pair) (index : nat) (c : config) : M config :=
  match urlPairs with
  | [] => ret c
  | p :: rest =>
      let sc := scenario p index in
      c' <- pushScenario c sc ;;
      console_log (str "Added scenario: " ++ labelOf sc) ;;
      addScenarios rest (S index) c'
  end.

Definition defaultPath : jsstring := str "backstop.json".

Definition updateBackstopConfig (urlPairs : list pair) (backstopPath : option jsstring)
  : M config :=
  let backstopPath := match backstopPath with Some p => p | None => defaultPath end in
  found <- existsSync backstopPath ;;
  (if found then ret tt
   else console_error (str "Backstop config file not found: " ++ backstopPath) ;;
        process_exit 1) ;;
  j <- readDocument backstopPath ;;
  let backstopConfig := parsed j in
  scenarios <- getScenarios backstopConfig ;;
  let backstopConfig :=
    if truthy_value scenarios then backstopConfig else resetScenarios backstopConfig in
  backstopConfig <- addScenarios urlPairs 0 backstopConfig ;;
  writeDocument backstopPath (doc backstopConfig) ;;
  console_log (str "Updated " ++ backstopPath ++ str " with "
               ++ decimal (List.length urlPairs) ++ str " additional scenarios") ;;
  ret backstopConfig.

(** ** The network, and the functions that use it *)

Record URL := {
  protocol : jsstring;
  hostname : jsstring;
  port : jsstring;
  pathname : jsstring;
  search : jsstring
}.

Inductive client := https | http.

Record options := {
  method : jsstring;
  opt_hostname : jsstring;
  opt_port : jsstring;
  path : jsstring;
  timeout : N
}.

(** What a request does first: its response arrives, it emits ['error'], it
    emits ['timeout'], or [client.request] itself throws. *)
Inductive event :=
| Response (statusCode : N)
| ErrorEvent
| TimeoutEvent
| RequestThrows.

(** The command line and the environment of one run; [argv] is
    [process.argv.slice(2)]. *)
Record Process := {
  PR_BODY : option jsstring;
  BACKSTOP_PATH : option jsstring;
  argv : list jsstring
}.

(** [a || b] on optional strings *)
Definition orElse (a b : option jsstring) : option jsstring :=
  if truthy a then a else b.

(** The two inputs [main] reads from the environment and the command line. *)
Definition prBodyOf (proc : Process) : option jsstring :=
  orElse (PR_BODY proc) (nth_error (argv proc) 0).

Definition backstopPathOf (proc : Process) : option jsstring :=
  orElse (orElse (BACKSTOP_PATH proc) (nth_error (argv proc) 1)) (Some defaultPath).

Section Pipeline.

(** [new URL(url)]: [None] when the constructor throws. *)
Variable parseURL : jsstring -> option URL.

(** The network during one run: what a request made through a client with
    given options does first.  The answer depends on the request only; the
    two requests of a pair, which the script has in flight together, are
    answered independently. *)
Variable respond : client -> options -> event.

(** [error.message] *)
Variable message : error -> jsstring.

Definition clientFor (urlObj : URL) : client :=
  if JsString.eqb (protocol urlObj) (str "https:") then https else http.

Definition optionsFor (urlObj : URL) : options :=
  {| method := str "HEAD";
     opt_hostname := hostname urlObj;
     opt_port := port urlObj;
     path := pathname urlObj ++ search urlObj;
     timeout := 10000 |}.

Definition invalidFormat (url : jsstring) : M bool :=
  console_log (str "Invalid URL format: " ++ url) ;; ret false.

Definition validateUrl (url : jsstring) : M bool :=
  match parseURL url with
  | None => invalidFormat url
  | Some urlObj =>
      match respond (clientFor urlObj) (optionsFor urlObj) with
      | Response statusCode => ret (statusCode =? 200)
      | ErrorEvent => ret false
      | TimeoutEvent => ret false
      | RequestThrows => invalidFormat url
      end
  end.

Definition mark (valid : bool) : jsstring :=
  if valid then [check_mark] else [cross_mark].

Definition validLine (p : pair) : jsstring :=
  [check_mark] ++ str " Valid URL pair: " ++ arrow (before p) (after p).

Definition invalidLine (beforeValid afterValid : bool) (p : pair) : jsstring :=
  [cross_mark] ++ str " Invalid URL pair (before: " ++ mark beforeValid
  ++ str ", after: " ++ mark afterValid ++ str "): " ++ arrow (before p) (after p).

(** Lines 103-116: the loop over [potentialPairs]. *)
Fixpoint validatePairs (potential urlPairs : list pair) : M (list pair) :=
  match potential with
  | [] => ret urlPairs
  | p :: rest =>
      console_log (str "Validating: " ++ arrow (before p) (after p)) ;;
      beforeValid <- validateUrl (before p) ;;
      afterValid <- validateUrl (after p) ;;
      (if beforeValid && afterValid then
         console_log (validLine p) ;; validatePairs rest (urlPairs ++ [p])
       else
         console_log (invalidLine beforeValid afterValid p) ;; validatePairs rest urlPairs)
  end.

Definition beforeWarning (b : jsstring) : jsstring :=
  str "Warning: Found " ++ [dquote] ++ str "Before" ++ [dquote]
  ++ str " URL without matching " ++ [dquote] ++ str "After" ++ [dquote] ++ str ": " ++ b.

Definition afterWarning (a : jsstring) : jsstring :=
  str "Warning: Found " ++ [dquote] ++ str "After" ++ [dquote]
  ++ str " URL without matching " ++ [dquote] ++ str "Before" ++ [dquote] ++ str ": " ++ a.

Definition text_of (s : option jsstring) : jsstring :=
  match s with Some t => t | None => [] end.

(** Lines 118-124 *)
Definition warnDangling (s : ScanState) : M unit :=
  (if truthy (currentBefore s) && negb (truthy (currentAfter s))
   then console_log (beforeWarning (text_of (currentBefore s))) else ret tt) ;;
  (if truthy (currentAfter s) && negb (truthy (currentBefore s))
   then console_log (afterWarning (text_of (currentAfter s))) else ret tt).

(** [prBody] is [None] when the caller passes [undefined]. *)
Definition parsePRBody (prBody : option jsstring) : M (list pair) :=
  if negb (truthy prBody) then
    console_log (str "No PR body provided") ;; ret []
  else
    s <- extract (text_of prBody) ;;
    console_log (str "Validating " ++ decimal (List.length (potentialPairs s))
                 ++ str " URL pairs...") ;;
    urlPairs <- validatePairs (potentialPairs s) [] ;;
    warnDangling s ;;
    ret urlPairs.

Definition main (proc : Process) : M unit :=
  let prBody := prBodyOf proc in
  let backstopPath := backstopPathOf proc in
  (if negb (truthy prBody) then
     console_log (str "No PR body provided. Usage: node parse-pr-urls.js "
                  ++ [dquote] ++ str "<pr-body>" ++ [dquote] ++ str " [backstop-path]") ;;
     console_log (str "Or set PR_BODY environment variable") ;;
     process_exit 0
   else ret tt) ;;
  console_log (str "Parsing PR body for URL pairs...") ;;
  urlPairs <- parsePRBody prBody ;;
  (if (List.length urlPairs =? 0)%nat then
     console_log (str "No valid URL pairs found in PR body") ;;
     process_exit 0
   else ret tt) ;;
  console_log (str "Found " ++ decimal (List.length urlPairs) ++ str " valid URL pairs") ;;
  updateBackstopConfig urlPairs backstopPath ;;
  console_log ([check_mark] ++ str " Successfully updated backstop configuration").

(** The script run as a program: [main().catch(...)] and the exit code of the
    process. *)
Definition run (proc : Process) (st : State) : Z * State :=
  match main proc st with
  | (Ret _, st') => (0%Z, st')
  | (Exit code, st') => (code, st')
  | (Throw e, st') =>
      (1%Z, snd (console_error (str "Error: " ++ message e) st'))
  end.

End Pipeline.

(** * Vocabulary of the statements *)

(** The records a run of [forEach] builds, from a first index on. *)
Fixpoint scenariosFrom (urlPairs : list pair) (index : nat) : list json :=
  match urlPairs with
  | [] => []
  | p :: rest => scenario p index :: scenariosFrom rest (S index)
  end.

Definition addedLines (urlPairs : list pair) (index : nat) : list (channel * jsstring) :=
  map (fun sc => (stdout, str "Added scenario: " ++ labelOf sc)) (scenariosFrom urlPairs index).

(** The collection the apply operation appends to: the array under
    [scenarios], or a fresh empty one when that property is absent or falsy. *)
Definition collection (fields : list (jsstring * json)) : option (list json) :=
  match lookup (str "scenarios") fields with
  | Some (JArr items) => Some items
  | v => if truthy_value v then None else Some []
  end.

Definition updatedLine (backstopPath : jsstring) (count : nat) : jsstring :=
  str "Updated " ++ backstopPath ++ str " with " ++ decimal count
  ++ str " additional scenarios".

(** The file system after [j] has been written to [backstopPath]. *)
Definition store (backstopPath : jsstring) (j : json) (st : State) : jsstring -> option file :=
  fun p => if JsString.eqb p backstopPath
           then Some {| data := Document (reparsed j); writable := true |}
           else files st p.

Definition letter (a : ascii) : N := N_of_ascii a.

(** A well-formed marker line and the value it carries. *)
Inductive BeforeLine : jsstring -> jsstring -> Prop :=
| before_line pre c rem :
    forallb bulletOrSpace pre = true ->
    c = letter "B" \/ c = letter "b" ->
    trim rem <> [] ->
    forallb dot (trim rem) = true ->
    BeforeLine (pre ++ c :: str "efore:" ++ rem) (trim rem).

Inductive AfterLine : jsstring -> jsstring -> Prop :=
| after_line pre c rem :
    forallb bulletOrSpace pre = true ->
    c = letter "A" \/ c = letter "a" ->
    trim rem <> [] ->
    forallb dot (trim rem) = true ->
    AfterLine (pre ++ c :: str "fter:" ++ rem) (trim rem).

(** Any other line: one that neither pattern matches. *)
Definition otherLine (line : jsstring) : Prop :=
  re_match beforeRe (trim line) = None /\ re_match afterRe (trim line) = None.

(** The lines of a text whose marker lines are, in this order, a Before line
    and an After line for each of the pairs, with other lines anywhere. *)
Inductive Alternating : list jsstring -> list pair -> Prop :=
| alt_done others :
    Forall otherLine others -> Alternating others []
| alt_pair others1 lineB b others2 lineA a rest pairs :
    Forall otherLine others1 ->
    BeforeLine lineB b ->
    Forall otherLine others2 ->
    AfterLine lineA a ->
    Alternating rest pairs ->
    Alternating (others1 ++ lineB :: others2 ++ lineA :: rest)
                ({| before := b; after := a |} :: pairs).

Definition foundLine (p : pair) : channel * jsstring :=
  (stdout, str "Found potential URL pair: " ++ arrow (before p) (after p)).

(** A URL validates when it parses and the answer to its HEAD request is a
    response with status 200. *)
Definition reachable (parseURL : jsstring -> option URL)
           (respond : client -> options -> event) (url : jsstring) : bool :=
  match parseURL url with
  | Some urlObj =>
      match respond (clientFor urlObj) (optionsFor urlObj) with
      | Response 200 => true
      | _ => false
      end
  | None => false
  end.

Definition printed (st : State) (out : list (channel * jsstring)) : State :=
  {| console := console st ++ out; files := files st |}.

Definition finish (urlPairs : list pair) (backstopPath : jsstring) (c : config) : M config :=
  writeDocument backstopPath (doc c) ;;
  console_log (updatedLine backstopPath (List.length urlPairs)) ;;
  ret c.

Definition complain (line : jsstring) (st : State) : State :=
  {| console := console st ++ [(stderr, line)]; files := files st |}.

(** * Sample inputs *)

Definition demoPairs : list pair :=
  [ {| before := str "https://a.example/x"; after := str "https://b.example/y" |};
    {| before := str "https://a.example/p"; after := str "https://b.example/q" |} ].

Definition demoFields : list (jsstring * json) :=
  [ (str "id", JStr (str "demo"));
    (str "scenarios", JArr [ JObj [ (str "label", JStr (str "Home")) ] ]);
    (str "engine", JStr (str "playwright")) ].

Definition demoState : State :=
  {| console := [];
     files := fun p => if JsString.eqb p defaultPath
                       then Some {| data := Document (JObj demoFields); writable := true |}
                       else None |}.

Definition demoText : jsstring :=
  str "## Visual checks" ++ [LF]
  ++ str "- Before: https://a.example/x" ++ [LF]
  ++ str "- After: https://b.example/y" ++ [CR; LF]
  ++ [LF]
  ++ str "  * before:https://a.example/p  " ++ [LF]
  ++ str "notes" ++ [LF]
  ++ [bullet] ++ str " after:   https://b.example/q".

Definition loneBeforeText : jsstring := str "- Before: https://a.example/x".

Definition loneAfterText : jsstring := str "- After: https://b.example/y".

Definition danglingText : jsstring :=
  str "After: https://b.example/y" ++ [LF] ++ str "Before: https://a.example/x".

(** A document without a collection. *)
Definition bareFields : list (jsstring * json) := [ (str "id", JStr (str "demo")) ].

Definition bareState : State :=
  {| console := [];
     files := fun p => if JsString.eqb p defaultPath
                       then Some {| data := Document (JObj bareFields); writable := true |}
                       else None |}.

Definition demoParseURL (url : jsstring) : option URL :=
  match url with
  | 104 :: _ =>
      Some {| protocol := str "https:"; hostname := str "example"; port := [];
              pathname := url; search := [] |}
  | _ => None
  end.

Definition demoRespond (c : client) (o : options) : event :=
  match c with
  | https => Response 200
  | http => ErrorEvent
  end.

Definition demoMessage (e : error) : jsstring :=
  match e with
  | TypeError => str "TypeError"
  | SyntaxError => str "SyntaxError"
  | SystemError => str "SystemError"
  end.

Definition procNoText : Process :=
  {| PR_BODY := Some []; BACKSTOP_PATH := None; argv := [] |}.

Definition procNoPairs : Process :=
  {| PR_BODY := None; BACKSTOP_PATH := None; argv := [str "Before: ftp://a.example/x"] |}.

Definition procPairs : Process :=
  {| PR_BODY := Some demoText; BACKSTOP_PATH := None; argv := [] |}.

Definition noFileState : State := {| console := []; files := fun _ => None |}.

Definition malformedState : State :=
  {| console := [];
     files := fun p => if JsString.eqb p defaultPath
                       then Some {| data := Malformed; writable := true |}
                       else None |}.

(** * The pipeline beyond the claims: vocabulary *)

(** A value fit to be handed on: not empty, nothing to trim, on one line. *)
Definition cleanValue (v : jsstring) : Prop :=
  v <> [] /\ trim v = v /\ forallb dot v = true.

Definition cleanPair (p : pair) : Prop := cleanValue (before p) /\ cleanValue (after p).

Definition cleanSlot (slot : option jsstring) : Prop :=
  match slot with
  | Some v => cleanValue v
  | None => True
  end.

Definition cleanState (s : ScanState) : Prop :=
  Forall cleanPair (potentialPairs s)
  /\ cleanSlot (currentBefore s) /\ cleanSlot (currentAfter s).

(** Two scan states that differ at most in the pending After value. *)
Definition sameButAfter (s1 s2 : ScanState) : Prop :=
  currentBefore s1 = currentBefore s2 /\ potentialPairs s1 = potentialPairs s2.

Definition strayText : list jsstring :=
  [ str "After: https://b.example/old";
    str "Before: https://a.example/x";
    str "After: https://b.example/y" ].

Definition twiceBeforeText : list jsstring :=
  [ str "Before: https://a.example/old";
    str "(to be replaced)";
    str "Before: https://a.example/x";
    str "After: https://b.example/y" ].

(** The path the apply operation works on. *)
Definition pathOr (backstopPath : option jsstring) : jsstring :=
  match backstopPath with Some p => p | None => defaultPath end.

(** Documents that are no objects. *)
Definition arrayState : State :=
  {| console := [];
     files := fun p => if JsString.eqb p defaultPath
                       then Some {| data := Document (JArr [JStr (str "home")]);
                                    writable := true |}
                       else None |}.

Definition nullState : State :=
  {| console := [];
     files := fun p => if JsString.eqb p defaultPath
                       then Some {| data := Document JNull; writable := true |}
                       else None |}.

Definition numberState : State :=
  {| console := [];
     files := fun p => if JsString.eqb p defaultPath
                       then Some {| data := Document (JNum 1%float); writable := true |}
                       else None |}.

(** * The local runner of [scripts/backstop-local.js] *)

Module BackstopLocal.

(** ** Strings *)

Definition arrow_sign : N := 8594.    (* U+2192 *)
Definition tick : N := 10003.         (* U+2713 *)
Definition ballot : N := 10007.       (* U+2717 *)
Definition info_sign : N := 8505.     (* U+2139 *)
Definition sparkles : N := 10024.     (* U+2728 *)
(** Characters outside the basic plane are two code units. *)
Definition rocket : jsstring := [55357; 56960].        (* U+1F680 *)
Definition masks : jsstring := [55356; 57261].         (* U+1F3AD *)
Definition memo : jsstring := [55357; 56541].          (* U+1F4DD *)
Definition arrows_circle : jsstring := [55357; 56580]. (* U+1F504 *)

(** [s.startsWith(p)] *)
Fixpoint startsWith (p s : jsstring) : bool :=
  match p, s with
  | [], _ => true
  | _ :: _, [] => false
  | x :: p', y :: s' => (x =? y) && startsWith p' s'
  end.

(** [s.includes(p)] *)
Fixpoint includes (p s : jsstring) : bool :=
  startsWith p s ||
  match s with
  | [] => false
  | _ :: s' => includes p s'
  end.

(** The replacement text for one match when the pattern has no group:
    [$$] is a dollar sign, [$&] the match, [$`] what precedes the match and
    [$'] what follows it in the whole string; any other [$] stands for
    itself. *)
Fixpoint expand (replacement matched preceding following : jsstring) : jsstring :=
  match replacement with
  | [] => []
  | c :: r =>
      if c =? 36 then
        match r with
        | 36 :: r' => 36 :: expand r' matched preceding following
        | 38 :: r' => matched ++ expand r' matched preceding following
        | 96 :: r' => preceding ++ expand r' matched preceding following
        | 39 :: r' => following ++ expand r' matched preceding following
        | _ => c :: expand r matched preceding following
        end
      else c :: expand r matched preceding following
  end.

(** [s.replace(/pattern/g, replacement)] for a pattern that is a literal,
    non-empty text: matches are taken from the left and do not overlap.
    [skip] counts the characters of a match still to pass over, [seen] holds
    the part of the string already passed, last character first. *)
Fixpoint replaceFrom (pattern replacement : jsstring) (skip : nat) (seen s : jsstring)
  : jsstring :=
  match s with
  | [] => []
  | c :: s' =>
      match skip with
      | S k => replaceFrom pattern replacement k (c :: seen) s'
      | O =>
          if startsWith pattern s then
            expand replacement pattern (rev seen) (skipn (List.length pattern) s)
            ++ replaceFrom pattern replacement (List.length pattern - 1) (c :: seen) s'
          else c :: replaceFrom pattern replacement 0 (c :: seen) s'
      end
  end.

Definition replaceAll (pattern replacement s : jsstring) : jsstring :=
  replaceFrom pattern replacement 0 [] s.

(** ** Command line *)

Record Config := {
  command : jsstring;
  urlPattern : option jsstring;
  refPattern : option jsstring
}.

Definition helpText : jsstring :=
  [LF]
  ++ str "Usage: node scripts/backstop-local.js [command] [options]" ++ [LF]
  ++ [LF]
  ++ str "Commands:" ++ [LF]
  ++ str "  reference  Generate reference images" ++ [LF]
  ++ str "  test       Run visual regression tests (default)" ++ [LF]
  ++ str "  approve    Approve current test results" ++ [LF]
  ++ str "  report     Open the HTML report" ++ [LF]
  ++ [LF]
  ++ str "Options:" ++ [LF]
  ++ str "  --url <pattern>        Replace 'stage--' with this pattern in URLs" ++ [LF]
  ++ str "  --ref <pattern>        Replace 'main--' with this pattern in referenceUrls" ++ [LF]
  ++ str "  --help                 Show this help message" ++ [LF]
  ++ [LF]
  ++ str "Examples:" ++ [LF]
  ++ str "  # Compare local branch against main" ++ [LF]
  ++ str "  node scripts/backstop-local.js test --url " ++ [dquote] ++ str "my-branch--"
  ++ [dquote] ++ str " --ref " ++ [dquote] ++ str "main--" ++ [dquote] ++ [LF]
  ++ str "  " ++ [LF]
  ++ str "  # Generate references using a specific branch" ++ [LF]
  ++ str "  node scripts/backstop-local.js reference --url " ++ [dquote] ++ str "my-branch--"
  ++ [dquote] ++ str " --ref " ++ [dquote] ++ str "production--" ++ [dquote] ++ [LF]
  ++ str "  " ++ [LF]
  ++ str "  # Use default stage/main comparison" ++ [LF]
  ++ str "  node scripts/backstop-local.js test" ++ [LF].

Definition showHelp : M unit := console_log helpText.

Definition commands : list jsstring :=
  [str "reference"; str "test"; str "approve"; str "report"].

(** [['reference', 'test', 'approve', 'report'].includes(arg)] *)
Definition isCommand (arg : jsstring) : bool :=
  existsb (JsString.eqb arg) commands.

(** The [for] loop of [parseArgs], from the argument in front on.  An option
    with a value takes the next argument with it. *)
Fixpoint parseLoop (config : Config) (args : list jsstring) : M Config :=
  match args with
  | [] => ret config
  | arg :: rest =>
      if JsString.eqb arg (str "--help") then
        showHelp ;; process_exit 0
      else
        let positional :=
          if negb (startsWith (str "--") arg) && isCommand arg
          then {| command := arg; urlPattern := urlPattern config;
                  refPattern := refPattern config |}
          else config in
        match rest with
        | value :: rest' =>
            if JsString.eqb arg (str "--url") then
              parseLoop {| command := command config; urlPattern := Some value;
                           refPattern := refPattern config |} rest'
            else if JsString.eqb arg (str "--ref") then
              parseLoop {| command := command config; urlPattern := urlPattern config;
                           refPattern := Some value |} rest'
            else parseLoop positional rest
        | [] => parseLoop positional rest
        end
  end.

(** [args] is [process.argv.slice(2)]. *)
Definition parseArgs (args : list jsstring) : M Config :=
  parseLoop {| command := str "test"; urlPattern := None; refPattern := None |} args.

(** ** Files, exceptions and values of any type *)

(** [fs.unlinkSync(path)] *)
Definition unlinkSync (path : jsstring) : M unit :=
  fun st =>
    match files st path with
    | None => (Throw SystemError, st)
    | Some _ =>
        (Ret tt,
         {| console := console st;
            files := fun p => if JsString.eqb p path then None else files st p |})
    end.

(** [try { body } catch (error) { handler }]; [process.exit] is not caught. *)
Definition tryCatch {A} (body : M A) (handler : error -> M A) : M A :=
  fun st =>
    match body st with
    | (Throw e, st') => handler e st'
    | other => other
    end.

(** [v.k], for a key that no prototype defines: a property of an object,
    [undefined] on other values, an exception on [null]. *)
Definition getProperty (v : json) (k : jsstring) : M (option json) :=
  match v with
  | JNull => throw TypeError
  | JObj fields => ret (lookup k fields)
  | _ => ret None
  end.

(** [v.k = w] on an object *)
Definition setProperty (v : json) (k : jsstring) (w : json) : json :=
  match v with
  | JObj fields => JObj (assign k w fields)
  | _ => v
  end.

(** [v.includes(text)]: strings and arrays have the method. *)
Definition callIncludes (v : option json) (text : jsstring) : M bool :=
  match v with
  | Some (JStr s) => ret (includes text s)
  | Some (JArr items) =>
      ret (existsb (fun item => match item with
                                | JStr t => JsString.eqb t text
                                | _ => false
                                end) items)
  | _ => throw TypeError
  end.

(** The block the script repeats for each property it rewrites:
    [if (pattern && obj.key [&& obj.key.includes(literal)]) {
       const next = obj.key.replace(/literal/g, pattern);
       if (next !== obj.key) { console.log(...); obj.key = next; modified = true; } }] *)
Definition rewriteProperty (label key literal : jsstring) (guarded : bool)
           (pattern : option jsstring) (obj : json) (modified : bool) : M (json * bool) :=
  if truthy pattern then
    v <- getProperty obj key ;;
    if truthy_value v then
      go <- (if guarded then callIncludes v literal else ret true) ;;
      if go then
        match v with
        | Some (JStr current) =>
            let next := replaceAll literal (text_of pattern) current in
            if JsString.eqb next current then ret (obj, modified)
            else
              console_log (str "  " ++ label ++ str ": " ++ current ++ str " "
                           ++ [arrow_sign] ++ str " " ++ next) ;;
              ret (setProperty obj key (JStr next), true)
        | _ => throw TypeError
        end
      else ret (obj, modified)
    else ret (obj, modified)
  else ret (obj, modified).

(** [items.forEach(step)], with the elements as the steps leave them. *)
Fixpoint forEach (step : json -> bool -> M (json * bool)) (items : list json)
         (modified : bool) : M (list json * bool) :=
  match items with
  | [] => ret ([], modified)
  | item :: rest =>
      r <- step item modified ;;
      r' <- forEach step rest (snd r) ;;
      ret (fst r :: fst r', snd r')
  end.

(** What the close of the child process reports: an exit code, or [null]
    when a signal ended it. *)
Definition showCode (code : option N) : jsstring :=
  match code with
  | Some n => decimal (N.to_nat n)
  | None => str "null"
  end.

(** [process.exit(code)] with a code that may be [null] *)
Definition exitStatus (code : option N) : Z :=
  match code with
  | Some n => Z.of_N n
  | None => 0%Z
  end.

(** How the run of the child process ends. *)
Inductive spawned :=
| Closed (code : option N)
| Failed (e : error).

Section Script.

(** The four paths, which the script builds from its own directory. *)
Variables BACKSTOP_CONFIG_PATH BACKUP_CONFIG_PATH COOKIES_PATH BACKUP_COOKIES_PATH : jsstring.

(** [error.message] *)
Variable message : error -> jsstring.

(** Whether a copy from the first path to the second that fails, in this
    file system, removes its destination.  The call opens the source, then
    the destination, and removes a destination it has opened when it fails
    later: a source that is a directory can be opened and not read, a source
    without read permission cannot be opened.  The file system of the model
    does not tell the two apart. *)
Variable removes : jsstring -> jsstring -> (jsstring -> option file) -> bool.

(** [npx backstop command], run in a shell: how it ends and what it leaves in
    the file system it found. *)
Variable backstop : jsstring -> (jsstring -> option file) -> spawned * (jsstring -> option file).

(** [fs.copyFileSync(src, dest)].  With a source that can be read and a
    destination that is absent or writable the copy succeeds: the destination
    holds the bytes and the mode of the source.  Otherwise the call throws:
    without a source nothing has been touched; in the other failures the
    destination stays or is removed, as [removes] tells. *)
Definition copyFileSync (src dest : jsstring) : M unit :=
  fun st =>
    let failed : result unit * State :=
      (Throw SystemError,
       if removes src dest (files st)
       then {| console := console st;
               files := fun p => if JsString.eqb p dest then None else files st p |}
       else st) in
    match files st src with
    | None => (Throw SystemError, st)
    | Some source =>
        match data source with
        | Unreadable => failed
        | _ =>
            match files st dest with
            | Some {| writable := false |} => failed
            | _ =>
                (Ret tt,
                 {| console := console st;
                    files := fun p => if JsString.eqb p dest
                                      then Some {| data := data source;
                                                   writable := writable source |}
                                      else files st p |})
            end
        end
    end.

Definition backupConfig : M bool :=
  tryCatch
    (copyFileSync BACKSTOP_CONFIG_PATH BACKUP_CONFIG_PATH ;;
     console_log ([tick] ++ str " Backed up backstop.json") ;;
     found <- existsSync COOKIES_PATH ;;
     (if found then
        copyFileSync COOKIES_PATH BACKUP_COOKIES_PATH ;;
        console_log ([tick] ++ str " Backed up cookies.json")
      else ret tt) ;;
     ret true)
    (fun e =>
       console_error ([ballot] ++ str " Failed to backup configuration files: " ++ message e) ;;
       ret false).

Definition restoreConfig : M unit :=
  tryCatch
    (found <- existsSync BACKUP_CONFIG_PATH ;;
     (if found then
        copyFileSync BACKUP_CONFIG_PATH BACKSTOP_CONFIG_PATH ;;
        unlinkSync BACKUP_CONFIG_PATH ;;
        console_log ([tick] ++ str " Restored original backstop.json")
      else ret tt) ;;
     found <- existsSync BACKUP_COOKIES_PATH ;;
     (if found then
        copyFileSync BACKUP_COOKIES_PATH COOKIES_PATH ;;
        unlinkSync BACKUP_COOKIES_PATH ;;
        console_log ([tick] ++ str " Restored original cookies.json")
      else ret tt))
    (fun e =>
       console_error ([ballot] ++ str " Failed to restore configuration files: " ++ message e)).

(** The callback of [cookies.cookies.forEach]. *)
Definition cookieStep (urlPattern refPattern : option jsstring) (cookie : json)
           (modified : bool) : M (json * bool) :=
  r <- rewriteProperty (str "Cookie domain") (str "domain") (str "stage--") true
         urlPattern cookie modified ;;
  rewriteProperty (str "Cookie domain") (str "domain") (str "main--") true
    refPattern (fst r) (snd r).

(** The callback of [cookies.origins.forEach]. *)
Definition originStep (urlPattern refPattern : option jsstring) (origin : json)
           (modified : bool) : M (json * bool) :=
  r <- rewriteProperty (str "localStorage origin") (str "origin") (str "stage--") true
         urlPattern origin modified ;;
  rewriteProperty (str "localStorage origin") (str "origin") (str "main--") true
    refPattern (fst r) (snd r).

(** [if (cookies.key) { cookies.key.forEach(step) }] *)
Definition forEachIfPresent (key : jsstring) (step : json -> bool -> M (json * bool))
           (cookies : json) (modified : bool) : M (json * bool) :=
  v <- getProperty cookies key ;;
  if truthy_value v then
    match v with
    | Some (JArr items) =>
        r <- forEach step items modified ;;
        ret (setProperty cookies key (JArr (fst r)), snd r)
    | _ => throw TypeError
    end
  else ret (cookies, modified).

Definition updateCookies (urlPattern refPattern : option jsstring) : M bool :=
  tryCatch
    (found <- existsSync COOKIES_PATH ;;
     if negb found then
       console_log ([info_sign] ++ str " No cookies.json file found, skipping cookie updates") ;;
       ret true
     else
       cookies <- readDocument COOKIES_PATH ;;
       r <- forEachIfPresent (str "cookies") (cookieStep urlPattern refPattern) cookies false ;;
       r <- forEachIfPresent (str "origins") (originStep urlPattern refPattern)
              (fst r) (snd r) ;;
       (if snd r then
          writeDocument COOKIES_PATH (fst r) ;;
          console_log ([tick] ++ str " Updated cookies.json with new URLs")
        else ret tt) ;;
       ret true)
    (fun e =>
       console_error ([ballot] ++ str " Failed to update cookies.json: " ++ message e) ;;
       ret false).

(** The callback of [config.scenarios.forEach]. *)
Definition scenarioStep (urlPattern refPattern : option jsstring) (scenario : json)
           (modified : bool) : M (json * bool) :=
  r <- rewriteProperty (str "URL") (str "url") (str "stage--") false
         urlPattern scenario modified ;;
  rewriteProperty (str "Ref") (str "referenceUrl") (str "main--") false
    refPattern (fst r) (snd r).

Definition updateConfig (urlPattern refPattern : option jsstring) : M bool :=
  tryCatch
    (config <- readDocument BACKSTOP_CONFIG_PATH ;;
     scenarios <- getProperty config (str "scenarios") ;;
     r <- match scenarios with
          | Some (JArr items) => forEach (scenarioStep urlPattern refPattern) items false
          | _ => throw TypeError
          end ;;
     (if snd r then
        writeDocument BACKSTOP_CONFIG_PATH
          (setProperty config (str "scenarios") (JArr (fst r))) ;;
        console_log ([tick] ++ str " Updated backstop.json with new URLs")
      else
        console_log ([info_sign] ++ str " No backstop.json URL replacements needed")) ;;
     updated <- updateCookies urlPattern refPattern ;;
     if negb updated then ret false else ret true)
    (fun e =>
       console_error ([ballot] ++ str " Failed to update backstop.json: " ++ message e) ;;
       ret false).

(** The child process, as the script sees it. *)
Definition spawnBackstop (command : jsstring) : M spawned :=
  fun st =>
    let (outcome, left) := backstop command (files st) in
    (Ret outcome, {| console := console st; files := left |}).

(** [await runBackstop(command)]: the value the promise resolves to, or the
    exception it rejects with. *)
Definition runBackstop (command : jsstring) : M (option N) :=
  console_log ([LF] ++ rocket ++ str " Running backstop " ++ command ++ str "...") ;;
  outcome <- spawnBackstop command ;;
  match outcome with
  | Closed code =>
      match code with
      | Some 0 =>
          console_log ([tick] ++ str " Backstop " ++ command ++ str " completed successfully") ;;
          ret code
      | _ =>
          console_error ([ballot] ++ str " Backstop " ++ command
                         ++ str " failed with exit code " ++ showCode code) ;;
          ret code
      end
  | Failed e =>
      console_error ([ballot] ++ str " Failed to run backstop " ++ command ++ str ": "
                     ++ message e) ;;
      throw e
  end.

(** [main], without the handlers of signals, which no run without a signal
    calls.  [process.exit] inside [try] ends the process at once: [finally]
    does not run then. *)
Definition main (args : list jsstring) : M unit :=
  config <- parseArgs args ;;
  console_log (masks ++ str " Backstop Local Runner") ;;
  console_log (str "Command: " ++ command config) ;;
  (if truthy (urlPattern config)
   then console_log (str "URL pattern: stage-- " ++ [arrow_sign] ++ str " "
                     ++ text_of (urlPattern config))
   else ret tt) ;;
  (if truthy (refPattern config)
   then console_log (str "Reference pattern: main-- " ++ [arrow_sign] ++ str " "
                     ++ text_of (refPattern config))
   else ret tt) ;;
  let patterns := truthy (urlPattern config) || truthy (refPattern config) in
  exitCode <-
    tryCatch
      ((if patterns then
          saved <- backupConfig ;;
          (if negb saved then process_exit 1 else ret tt) ;;
          console_log ([LF] ++ memo ++ str " Updating configuration...") ;;
          updated <- updateConfig (urlPattern config) (refPattern config) ;;
          (if negb updated then restoreConfig ;; process_exit 1 else ret tt)
        else ret tt) ;;
       runBackstop (command config))
      (fun e =>
         console_error ([ballot] ++ str " Unexpected error: " ++ message e) ;;
         ret (Some 1)) ;;
  (if patterns then
     console_log ([LF] ++ arrows_circle ++ str " Cleaning up...") ;;
     restoreConfig
   else ret tt) ;;
  console_log ([LF] ++ [sparkles] ++ str " Done!") ;;
  process_exit (exitStatus exitCode).

End Script.

End BackstopLocal.

(** * The local runner: vocabulary *)

(** Does [pattern] occur in [s] at one of the first [n] positions? *)
Fixpoint startsBefore (pattern : jsstring) (n : nat) (s : jsstring) : bool :=
  match n with
  | O => false
  | S n' =>
      BackstopLocal.startsWith pattern s ||
      match s with
      | [] => false
      | _ :: s' => startsBefore pattern n' s'
      end
  end.

(** An operation that returns a value satisfying [post] or throws, and in
    both cases prints at most. *)
Definition returnsOrThrows {A} (post : A -> Prop) (m : M A) : Prop :=
  forall st, exists out,
    (exists a, m st = (Ret a, printed st out) /\ post a)
    \/ (exists e, m st = (Throw e, printed st out)).

(** [x'] is [x], or the same object with other values under some of [keys]:
    the same properties in the same order, the same values under every other
    key. *)
Definition updatedAt (keys : list jsstring) (x x' : json) : Prop :=
  x' = x
  \/ exists fields fields',
       x = JObj fields /\ x' = JObj fields'
       /\ map fst fields' = map fst fields
       /\ forall k, ~ In k keys -> lookup k fields' = lookup k fields.

(** A file system after at most one write of a document to [path]. *)
Definition written (path : jsstring) (w : option json) (fs : jsstring -> option file)
  : jsstring -> option file :=
  match w with
  | Some j => fun p => if JsString.eqb p path
                       then Some {| data := Document (reparsed j); writable := true |}
                       else fs p
  | None => fs
  end.

(** Sample paths and a sample project for the local runner. *)
Definition configPath : jsstring := str "/project/backstop.json".
Definition configBackupPath : jsstring := str "/project/backstop.json.backup".
Definition cookiesPath : jsstring := str "/project/backstop_data/engine_scripts/cookies.json".
Definition cookiesBackupPath : jsstring :=
  str "/project/backstop_data/engine_scripts/cookies.json.backup".

Definition stageConfig : json :=
  JObj [ (str "id", JStr (str "demo"));
         (str "scenarios",
          JArr [ JObj [ (str "label", JStr (str "Home"));
                        (str "url", JStr (str "https://stage--site--org.aem.live/"));
                        (str "referenceUrl", JStr (str "https://main--site--org.aem.live/")) ] ]) ].

Definition projectState : State :=
  {| console := [];
     files := fun p => if JsString.eqb p configPath
                       then Some {| data := Document stageConfig; writable := true |}
                       else None |}.

(** A platform on which a failed copy removes its destination. *)
Definition demoRemoves (src dest : jsstring) (fs : jsstring -> option file) : bool := true.

(** A child process that succeeds and writes a report. *)
Definition demoBackstop (command : jsstring) (fs : jsstring -> option file)
  : BackstopLocal.spawned * (jsstring -> option file) :=
  (BackstopLocal.Closed (Some 0),
   fun p => if JsString.eqb p (str "/project/backstop_data/report.json")
            then Some {| data := Document (JObj []); writable := true |}
            else fs p).

(** What restoring needs of a file the script may have rewritten: it is the
    original [f], or a document the script wrote. *)
Definition restorable (f : file) (now : option file) : Prop :=
  now = Some f \/ exists j, now = Some {| data := Document j; writable := true |}.

(** The file system between backup and restore: the backups hold the
    originals, and the two files can be written back. *)
Definition armed (CONFIG BACKUP COOKIES BACKUP_COOKIES : jsstring)
           (original : file) (cookies : option file) (fs : jsstring -> option file) : Prop :=
  fs BACKUP = Some original
  /\ restorable original (fs CONFIG)
  /\ match cookies with
     | Some f => fs BACKUP_COOKIES = Some f /\ restorable f (fs COOKIES)
     | None => fs BACKUP_COOKIES = None /\ fs COOKIES = None
     end.

(** A file that can be copied and written back. *)
Definition usable (f : file) : Prop := data f <> Unreadable /\ writable f = true.

(** An operation that returns or throws on every state: it does not end the
    process. *)
Definition neverExits {A} (m : M A) : Prop :=
  forall st, exists r st', m st = (r, st') /\ forall code, r <> Exit code.

(** An operation that returns on every state. *)
Definition alwaysReturns {A} (m : M A) : Prop :=
  forall st, exists a st', m st = (Ret a, st').

(** The sample project with a cookies file that cannot be read. *)
Definition lockedCookiesState : State :=
  {| console := [];
     files := fun p => if JsString.eqb p cookiesPath
                       then Some {| data := Unreadable; writable := true |}
                       else files projectState p |}.

(** No string under [key] in [item] holds [literal]. *)
Definition lacks (key literal : jsstring) (item : json) : Prop :=
  match item with
  | JObj fields =>
      match lookup key fields with
      | Some (JStr s) => BackstopLocal.includes literal s = false
      | _ => True
      end
  | _ => True
  end.

(** A configuration document in which the runner finds nothing to replace. *)
Definition nothingToReplace (document : json) : Prop :=
  match document with
  | JObj fields =>
      match lookup (str "scenarios") fields with
      | Some (JArr items) =>
          Forall (fun item => lacks (str "url") (str "stage--") item
                              /\ lacks (str "referenceUrl") (str "main--") item) items
      | _ => True
      end
  | _ => True
  end.

(** The sample configuration after a run with [--url my-branch--] and
    [--ref live--]. *)
Definition branchConfig : json :=
  JObj [ (str "id", JStr (str "demo"));
         (str "scenarios",
          JArr [ JObj [ (str "label", JStr (str "Home"));
                        (str "url", JStr (str "https://my-branch--site--org.aem.live/"));
                        (str "referenceUrl", JStr (str "https://live--site--org.aem.live/")) ] ]) ].

Definition branchState : State :=
  {| console := [];
     files := fun p => if JsString.eqb p configPath
                       then Some {| data := Document branchConfig; writable := true |}
                       else None |}.

(** A document with numbers that JSON cannot write back: the text
    [{"id": 1e400, "shift": -0, "scenarios": []}] parses to it. *)
Definition overflowFields : list (jsstring * json) :=
  [ (str "id", JNum PrimFloat.infinity);
    (str "shift", JNum PrimFloat.neg_zero);
    (str "scenarios", JArr []) ].

Definition overflowState : State :=
  {| console := [];
     files := fun p => if JsString.eqb p defaultPath
                       then Some {| data := Document (JObj overflowFields); writable := true |}
                       else None |}.

(** The sample project with a directory where the cookies file should be,
    and a backup of the cookies left by an earlier run. *)
Definition staleBackupState : State :=
  {| console := [];
     files := fun p => if JsString.eqb p cookiesPath
                       then Some {| data := Unreadable; writable := false |}
                       else if JsString.eqb p cookiesBackupPath
                       then Some {| data := Document (JObj []); writable := true |}
                       else files projectState p |}.

(** * Checks of the definitions *)

Example before_plain :
  re_match beforeRe (str "- Before: https://a.example/x") = Some (str "https://a.example/x").
Proof. reflexivity. Qed.

Example before_upper_case :
  re_match beforeRe (str "BEFORE: https://a.example/x") = None.
Proof. reflexivity. Qed.

Example after_bullets :
  re_match afterRe (bullet :: str " * after:y z") = Some (str "y z").
Proof. reflexivity. Qed.

Example split_example :
  split_lines (str "a" ++ [LF] ++ str "b" ++ [LF]) = [str "a"; str "b"; []].
Proof. reflexivity. Qed.

Example trim_example : trim (str "  a b ") = str "a b".
Proof. reflexivity. Qed.

Example decimal_example : decimal 12 = str "12".
Proof. reflexivity. Qed.

Example reparsed_example :
  reparsed (JArr [JNum PrimFloat.infinity; JNum PrimFloat.neg_zero; JNum 0.1%float;
                  JObj [(str "n", JNum PrimFloat.nan)]; JStr (str "a")])
  = JArr [JNull; JNum 0%float; JNum 0.1%float; JObj [(str "n", JNull)]; JStr (str "a")].
Proof. vm_compute. reflexivity. Qed.

Example overflow_example :
  files (snd (updateBackstopConfig [] None overflowState)) defaultPath
  = Some {| data := Document (JObj [ (str "id", JNull);
                                     (str "shift", JNum 0%float);
                                     (str "scenarios", JArr []) ]);
            writable := true |}.
Proof. vm_compute. reflexivity. Qed.

Example replace_example :
  BackstopLocal.replaceAll (str "stage--") (str "my-branch--")
    (str "https://stage--site--org.aem.live/stage--")
  = str "https://my-branch--site--org.aem.live/my-branch--".
Proof. vm_compute. reflexivity. Qed.

Example replace_dollar_example :
  BackstopLocal.replaceAll (str "main--") (str "$&x") (str "https://main--site/")
  = str "https://main--xsite/".
Proof. vm_compute. reflexivity. Qed.

Example parseArgs_example :
  BackstopLocal.parseArgs [str "--ref"; str "live--"; str "approve"; str "deploy"; str "--url"]
    demoState
  = (Ret {| BackstopLocal.command := str "approve";
            BackstopLocal.urlPattern := None;
            BackstopLocal.refPattern := Some (str "live--") |}, demoState).
Proof. vm_compute. reflexivity. Qed.

Example updateConfig_example :
  let (r, st) := BackstopLocal.updateConfig configPath cookiesPath demoMessage
                   (Some (str "my-branch--")) None projectState in
  r = Ret true
  /\ files st configPath
     = Some {| data := Document
                 (JObj [ (str "id", JStr (str "demo"));
                         (str "scenarios",
                          JArr [ JObj [ (str "label", JStr (str "Home"));
                                        (str "url",
                                         JStr (str "https://my-branch--site--org.aem.live/"));
                                        (str "referenceUrl",
                                         JStr (str "https://main--site--org.aem.live/")) ] ]) ]);
               writable := true |}.
Proof. vm_compute. split; reflexivity. Qed.

Example runner_example :
  let (r, st) := BackstopLocal.main configPath configBackupPath cookiesPath cookiesBackupPath
                   demoMessage demoRemoves demoBackstop [str "--url"; str "my-branch--"; str "reference"]
                   projectState in
  r = Exit 0
  /\ files st configPath = files projectState configPath
  /\ files st configBackupPath = None
  /\ List.length (console st) = 13%nat.
Proof. vm_compute. repeat split. Qed.

Example stale_backup_example :
  let (r, st) := BackstopLocal.main configPath configBackupPath cookiesPath cookiesBackupPath
                   demoMessage demoRemoves demoBackstop [str "--url"; str "my-branch--"]
                   staleBackupState in
  r = Exit 1
  /\ files st cookiesBackupPath = None
  /\ files st configBackupPath = files staleBackupState configPath.
Proof. vm_compute. repeat split. Qed.

(** * Properties *)

(** ** Strings and properties of objects *)

Lemma eqb_refl (a : jsstring) : JsString.eqb a a = true.
Proof. unfold JsString.eqb. destruct (list_eq_dec N.eq_dec a a); congruence. Qed.

Lemma eqb_eq (a b : jsstring) : JsString.eqb a b = true <-> a = b.
Proof.
  unfold JsString.eqb. destruct (list_eq_dec N.eq_dec a b); split; congruence.
Qed.

Lemma eqb_neq (a b : jsstring) : JsString.eqb a b = false <-> a <> b.
Proof.
  unfold JsString.eqb. destruct (list_eq_dec N.eq_dec a b); split; congruence.
Qed.

Lemma lookup_assign_same k v fields : lookup k (assign k v fields) = Some v.
Proof.
  induction fields as [|[k' v'] rest IH]; simpl.
  - now rewrite eqb_refl.
  - destruct (JsString.eqb k k') eqn:E; simpl; rewrite E; auto.
Qed.

Lemma lookup_assign_other k k' v fields :
  k' <> k -> lookup k' (assign k v fields) = lookup k' fields.
Proof.
  intros Hne. induction fields as [|[k0 v0] rest IH]; simpl.
  - apply eqb_neq in Hne. now rewrite Hne.
  - destruct (JsString.eqb k k0) eqn:E; simpl.
    + apply eqb_eq in E. subst k0. apply eqb_neq in Hne. now rewrite Hne.
    + destruct (JsString.eqb k' k0); auto.
Qed.

Lemma assign_assign k v1 v2 fields :
  assign k v2 (assign k v1 fields) = assign k v2 fields.
Proof.
  induction fields as [|[k' v'] rest IH]; simpl.
  - now rewrite eqb_refl.
  - destruct (JsString.eqb k k') eqn:E; simpl; rewrite E; congruence.
Qed.

Lemma assign_lookup k v fields : lookup k fields = Some v -> assign k v fields = fields.
Proof.
  induction fields as [|[k' v'] rest IH]; simpl; [discriminate|].
  destruct (JsString.eqb k k') eqn:E; intros H.
  - congruence.
  - now rewrite IH.
Qed.

(** ** Documents as they are written *)

Lemma lookup_reparsed k fields :
  lookup k (map (fun kv => (fst kv, reparsed (snd kv))) fields)
  = option_map reparsed (lookup k fields).
Proof.
  induction fields as [|[k' v] fields IH]; cbn [map lookup fst snd option_map]; auto.
  destruct (JsString.eqb k k'); auto.
Qed.

Lemma lookup_written k fields fields' :
  reparsed (JObj fields) = JObj fields' ->
  lookup k fields' = option_map reparsed (lookup k fields).
Proof. cbn [reparsed]. intros H. injection H as <-. apply lookup_reparsed. Qed.

Lemma reparsed_fields k v fields :
  reparsed (JObj fields) = JObj fields -> lookup k fields = Some v -> reparsed v = v.
Proof.
  cbn [reparsed]. intros H Hl. injection H as H.
  assert (E := lookup_reparsed k fields). rewrite H, Hl in E. cbn [option_map] in E.
  now injection E.
Qed.

(** ** The apply operation *)

Lemma scenariosFrom_length ps i : List.length (scenariosFrom ps i) = List.length ps.
Proof. revert i. induction ps; simpl; auto. Qed.

Lemma scenariosFrom_nth ps : forall i n p,
  nth_error ps n = Some p -> nth_error (scenariosFrom ps i) n = Some (scenario p (i + n)).
Proof.
  induction ps as [|q ps IH]; intros i [|n] p H; simpl in *; try discriminate.
  - injection H as ->. now rewrite Nat.add_0_r.
  - rewrite (IH (S i) n p H). f_equal. f_equal. lia.
Qed.

Lemma scenariosFrom_In ps : forall i sc,
  In sc (scenariosFrom ps i) -> exists p n, In p ps /\ sc = scenario p n.
Proof.
  induction ps as [|q ps IH]; simpl; intros i sc H; [contradiction|].
  destruct H as [<-|H].
  - exists q, i. auto.
  - destruct (IH _ _ H) as (p & n & Hp & ->). exists p, n. auto.
Qed.

(** The loop on an object whose [scenarios] is an array: every record is
    pushed, in order, and announced. *)
Lemma addScenarios_object ps : forall i fields items e st,
  lookup (str "scenarios") fields = Some (JArr items) ->
  addScenarios ps i {| doc := JObj fields; expando := e |} st =
  (Ret {| doc := JObj (assign (str "scenarios") (JArr (items ++ scenariosFrom ps i)) fields);
          expando := e |},
   {| console := console st ++ addedLines ps i; files := files st |}).
Proof.
  induction ps as [|p ps IH]; intros i fields items e st Hl; simpl.
  - unfold ret, addedLines. simpl. rewrite !app_nil_r.
    rewrite (assign_lookup _ _ _ Hl). now destruct st.
  - unfold bind at 1. unfold pushScenario; simpl. rewrite Hl. unfold ret at 1.
    unfold bind at 1. unfold console_log, print at 1.
    rewrite (IH (S i) _ (items ++ [scenario p i]) e _ (lookup_assign_same _ _ _)).
    rewrite assign_assign, <- app_assoc. simpl.
    unfold addedLines. simpl. now rewrite <- app_assoc.
Qed.

(** The guard [if (!backstopConfig.scenarios)] leaves an object whose
    [scenarios] is the collection. *)
Lemma guard_object fields items :
  collection fields = Some items ->
  exists fields0,
    (if truthy_value (lookup (str "scenarios") fields)
     then parsed (JObj fields)
     else resetScenarios (parsed (JObj fields))) = parsed (JObj fields0)
    /\ lookup (str "scenarios") fields0 = Some (JArr items)
    /\ forall v, assign (str "scenarios") v fields0 = assign (str "scenarios") v fields.
Proof.
  unfold collection. intros Hc.
  destruct (truthy_value (lookup (str "scenarios") fields)) eqn:Ht.
  - exists fields. split; [reflexivity|]. split; [|reflexivity].
    destruct (lookup (str "scenarios") fields) as [v|]; [|discriminate].
    destruct v; simpl in Ht, Hc; try rewrite Ht in Hc; try discriminate.
    congruence.
  - exists (assign (str "scenarios") (JArr []) fields).
    assert (items = []) as ->.
    { destruct (lookup (str "scenarios") fields) as [v|]; [|simpl in Hc; congruence].
      destruct v; simpl in Ht, Hc; try rewrite Ht in Hc; try discriminate; congruence. }
    split; [reflexivity|]. split; [apply lookup_assign_same|].
    intros v. apply assign_assign.
Qed.

(** A run of the apply operation on a writable document that is an object
    with a usable collection. *)
Lemma updateBackstopConfig_object ps backstopPath fields items st :
  files st backstopPath = Some {| data := Document (JObj fields); writable := true |} ->
  collection fields = Some items ->
  let fields' := assign (str "scenarios") (JArr (items ++ scenariosFrom ps 0)) fields in
  updateBackstopConfig ps (Some backstopPath) st =
  (Ret (parsed (JObj fields')),
   {| console := console st ++ addedLines ps 0
                 ++ [(stdout, updatedLine backstopPath (List.length ps))];
      files := store backstopPath (JObj fields') st |}).
Proof.
  intros Hf Hc fields'. unfold updateBackstopConfig.
  unfold bind at 1. unfold existsSync. rewrite Hf.
  unfold bind at 1. unfold ret at 1.
  unfold bind at 1. unfold readDocument. rewrite Hf.
  unfold bind at 1.
  change (getScenarios (parsed (JObj fields)))
    with (@ret (option json) (lookup (str "scenarios") fields)).
  unfold ret at 1.
  destruct (guard_object fields items Hc) as (fields0 & -> & Hl & Ha).
  unfold bind at 1. unfold parsed at 1.
  rewrite (addScenarios_object ps 0 fields0 items None st Hl), Ha.
  unfold bind at 1. unfold writeDocument; simpl files. rewrite Hf.
  unfold bind at 1. unfold console_log, print, ret; simpl.
  unfold parsed, updatedLine, store. simpl. rewrite <- app_assoc. reflexivity.
Qed.

(** C2: applying K pairs to a document whose collection holds M scenarios
    leaves a collection of M+K scenarios: the M old ones first, then one
    record per pair in the order of the pairs, the i-th of them labelled
    [Additional test page (i)], with the pair's after value as [url] and its
    before value as [referenceUrl].  The file holds this document as
    serialisation writes it. *)
Theorem apply_appends_labelled_scenarios :
  forall (urlPairs : list pair) (backstopPath : jsstring)
         (fields : list (jsstring * json)) (items : list json) (st : State),
    files st backstopPath = Some {| data := Document (JObj fields); writable := true |} ->
    collection fields = Some items ->
    exists fields' items' st',
      updateBackstopConfig urlPairs (Some backstopPath) st = (Ret (parsed (JObj fields')), st')
      /\ files st' backstopPath
         = Some {| data := Document (reparsed (JObj fields')); writable := true |}
      /\ lookup (str "scenarios") fields' = Some (JArr items')
      /\ List.length items' = (List.length items + List.length urlPairs)%nat
      /\ firstn (List.length items) items' = items
      /\ forall (i : nat) (p : pair),
           nth_error urlPairs i = Some p ->
           exists record,
             nth_error items' (List.length items + i) = Some (JObj record)
             /\ lookup (str "label") record =
                Some (JStr (str "Additional test page (" ++ decimal (i + 1) ++ str ")"))
             /\ lookup (str "url") record = Some (JStr (after p))
             /\ lookup (str "referenceUrl") record = Some (JStr (before p)).
Proof.
  intros ps backstopPath fields items st Hf Hc.
  eexists _, (items ++ scenariosFrom ps 0), _.
  split; [apply (updateBackstopConfig_object ps backstopPath fields items st Hf Hc)|].
  split; [unfold store; cbn [files]; now rewrite eqb_refl|].
  split; [apply lookup_assign_same|].
  split; [now rewrite length_app, scenariosFrom_length|].
  split; [now rewrite firstn_app, Nat.sub_diag, firstn_all, app_nil_r|].
  intros i p Hi. eexists.
  split.
  - rewrite nth_error_app2 by lia.
    replace (List.length items + i - List.length items)%nat with i by lia.
    rewrite (scenariosFrom_nth ps 0 i p Hi). reflexivity.
  - repeat split; reflexivity.
Qed.

Lemma apply_appends_labelled_scenarios_witness :
  exists fields' items' st',
    updateBackstopConfig demoPairs (Some defaultPath) demoState = (Ret (parsed (JObj fields')), st')
    /\ files st' defaultPath
       = Some {| data := Document (reparsed (JObj fields')); writable := true |}
    /\ lookup (str "scenarios") fields' = Some (JArr items')
    /\ List.length items' = (1 + List.length demoPairs)%nat
    /\ firstn 1 items' = [ JObj [ (str "label", JStr (str "Home")) ] ]
    /\ forall (i : nat) (p : pair),
         nth_error demoPairs i = Some p ->
         exists record,
           nth_error items' (1 + i) = Some (JObj record)
           /\ lookup (str "label") record =
              Some (JStr (str "Additional test page (" ++ decimal (i + 1) ++ str ")"))
           /\ lookup (str "url") record = Some (JStr (after p))
           /\ lookup (str "referenceUrl") record = Some (JStr (before p)).
Proof.
  apply (apply_appends_labelled_scenarios demoPairs defaultPath demoFields
           [ JObj [ (str "label", JStr (str "Home")) ] ] demoState); reflexivity.
Defined.

(** C10: every record the apply operation appends carries the same defaults:
    the four [hideSelectors], the two [removeSelectors] and a
    [misMatchThreshold] of 0.1. *)
Theorem appended_scenarios_carry_fixed_defaults :
  forall (urlPairs : list pair) (backstopPath : jsstring)
         (fields : list (jsstring * json)) (items : list json) (st : State),
    files st backstopPath = Some {| data := Document (JObj fields); writable := true |} ->
    collection fields = Some items ->
    exists fields' items' st',
      updateBackstopConfig urlPairs (Some backstopPath) st = (Ret (parsed (JObj fields')), st')
      /\ lookup (str "scenarios") fields' = Some (JArr items')
      /\ List.length (skipn (List.length items) items') = List.length urlPairs
      /\ forall sc : json,
           In sc (skipn (List.length items) items') ->
           exists record,
             sc = JObj record
             /\ lookup (str "hideSelectors") record =
                Some (JArr [ JStr (str ".cookie-banner");
                             JStr (str ".loading-spinner");
                             JStr (str "[data-testid=" ++ [dquote] ++ str "timestamp"
                                   ++ [dquote] ++ str "]");
                             JStr (str ".logo-garden") ])
             /\ lookup (str "removeSelectors") record =
                Some (JArr [ JStr (str ".advertisement"); JStr (str ".chat-widget") ])
             /\ lookup (str "misMatchThreshold") record = Some (JNum 0.1%float).
Proof.
  intros ps backstopPath fields items st Hf Hc.
  eexists _, (items ++ scenariosFrom ps 0), _.
  split; [apply (updateBackstopConfig_object ps backstopPath fields items st Hf Hc)|].
  split; [apply lookup_assign_same|].
  rewrite skipn_app, Nat.sub_diag, skipn_all. simpl.
  split; [apply scenariosFrom_length|].
  intros sc Hin. destruct (scenariosFrom_In _ _ _ Hin) as (p & n & _ & ->).
  eexists. split; [reflexivity|]. repeat split; reflexivity.
Qed.

Lemma appended_scenarios_carry_fixed_defaults_witness :
  exists fields' items' st',
    updateBackstopConfig demoPairs (Some defaultPath) demoState = (Ret (parsed (JObj fields')), st')
    /\ lookup (str "scenarios") fields' = Some (JArr items')
    /\ List.length (skipn 1 items') = 2%nat
    /\ forall sc : json,
         In sc (skipn 1 items') ->
         exists record,
           sc = JObj record
           /\ lookup (str "hideSelectors") record =
              Some (JArr [ JStr (str ".cookie-banner");
                           JStr (str ".loading-spinner");
                           JStr (str "[data-testid=" ++ [dquote] ++ str "timestamp"
                                 ++ [dquote] ++ str "]");
                           JStr (str ".logo-garden") ])
           /\ lookup (str "removeSelectors") record =
              Some (JArr [ JStr (str ".advertisement"); JStr (str ".chat-widget") ])
           /\ lookup (str "misMatchThreshold") record = Some (JNum 0.1%float).
Proof.
  apply (appended_scenarios_carry_fixed_defaults demoPairs defaultPath demoFields
           [ JObj [ (str "label", JStr (str "Home")) ] ] demoState); reflexivity.
Defined.

(** ** Trimming *)

Lemma dropWhile_split c s :
  exists w, s = w ++ dropWhile c s /\ forallb c w = true.
Proof.
  induction s as [|x s (w & Hs & Hw)]; simpl.
  - exists []. auto.
  - destruct (c x) eqn:E.
    + exists (x :: w). simpl. rewrite E, Hw. split; [congruence|reflexivity].
    + exists []. auto.
Qed.

Lemma dropWhile_head c s x r : dropWhile c s = x :: r -> c x = false.
Proof.
  induction s as [|y s IH]; simpl; [discriminate|].
  destruct (c y) eqn:E; auto. intros H. congruence.
Qed.

Lemma dropWhile_app_stop c a x b :
  c x = false -> dropWhile c (a ++ x :: b) = dropWhile c a ++ x :: b.
Proof.
  intros Hx. induction a as [|y a IH]; simpl.
  - now rewrite Hx.
  - destruct (c y); auto.
Qed.

Lemma dropWhile_app_keep c a b :
  dropWhile c a <> [] -> dropWhile c (a ++ b) = dropWhile c a ++ b.
Proof.
  induction a as [|y a IH]; simpl; [congruence|].
  destruct (c y); auto.
Qed.

Lemma dropWhile_all c s : forallb c s = true -> dropWhile c s = [].
Proof.
  induction s as [|x s IH]; simpl; auto.
  destruct (c x); simpl; auto. discriminate.
Qed.

Lemma dropWhile_nil_all c s : dropWhile c s = [] -> forallb c s = true.
Proof.
  induction s as [|x s IH]; simpl; auto.
  destruct (c x); simpl; auto. discriminate.
Qed.

Lemma dropWhile_idem c s : dropWhile c (dropWhile c s) = dropWhile c s.
Proof.
  destruct (dropWhile c s) as [|x r] eqn:E; auto.
  simpl. now rewrite (dropWhile_head _ _ _ _ E).
Qed.

Lemma forallb_rev {A} (f : A -> bool) l : forallb f (rev l) = forallb f l.
Proof.
  induction l as [|x l IH]; simpl; auto.
  rewrite forallb_app, IH. simpl. rewrite andb_true_r. apply andb_comm.
Qed.

Lemma trimEnd_nil_all s : trimEnd s = [] -> forallb isWhiteSpace s = true.
Proof.
  unfold trimEnd, trimStart. intros H.
  rewrite <- forallb_rev. apply dropWhile_nil_all.
  now rewrite <- (rev_involutive (dropWhile _ _)), H.
Qed.

Lemma trimEnd_app_keep a b : trimEnd b <> [] -> trimEnd (a ++ b) = a ++ trimEnd b.
Proof.
  unfold trimEnd, trimStart. intros H.
  rewrite rev_app_distr, dropWhile_app_keep, rev_app_distr, rev_involutive; auto.
  intros E. apply H. now rewrite E.
Qed.

Lemma trimEnd_cons x r : isWhiteSpace x = false -> trimEnd (x :: r) = x :: trimEnd r.
Proof.
  intros Hx. unfold trimEnd, trimStart. simpl rev.
  rewrite (dropWhile_app_stop _ _ _ [] Hx), rev_app_distr. reflexivity.
Qed.

Lemma trimEnd_idem s : trimEnd (trimEnd s) = trimEnd s.
Proof.
  unfold trimEnd, trimStart. now rewrite rev_involutive, dropWhile_idem.
Qed.

(** The two halves of [trim] commute. *)
Lemma trimStart_trimEnd s : trimStart (trimEnd s) = trimEnd (trimStart s).
Proof.
  destruct (dropWhile_split isWhiteSpace s) as (w & Hs & Hw).
  fold (trimStart s) in Hs.
  destruct (trimStart s) as [|x r] eqn:E.
  - rewrite app_nil_r in Hs. subst w.
    assert (trimEnd s = []) as ->; [|reflexivity].
    unfold trimEnd, trimStart. rewrite dropWhile_all; auto. now rewrite forallb_rev.
  - assert (Hx : isWhiteSpace x = false) by exact (dropWhile_head _ _ _ _ E).
    rewrite Hs at 1. rewrite trimEnd_app_keep, trimEnd_cons; auto.
    + unfold trimStart. rewrite (dropWhile_app_stop _ _ _ _ Hx), (dropWhile_all _ _ Hw).
      reflexivity.
    + rewrite trimEnd_cons; auto. discriminate.
Qed.

Lemma trim_idem s : trim (trim s) = trim s.
Proof.
  unfold trim. rewrite <- (trimStart_trimEnd s) at 1.
  unfold trimStart at 1 2. rewrite dropWhile_idem. fold (trimStart (trimEnd s)).
  rewrite trimStart_trimEnd. apply trimEnd_idem.
Qed.

Lemma trim_nonempty_trimEnd s : trim s <> [] -> trimEnd s <> [].
Proof.
  intros H E. apply H. unfold trim. rewrite <- trimStart_trimEnd, E. reflexivity.
Qed.

(** A marker line after trimming: what goes is white space in front of the
    prefix and behind the remainder. *)
Lemma trim_marker_line pre c kw rem :
  isWhiteSpace c = false -> trim rem <> [] ->
  exists w,
    trim (pre ++ c :: kw ++ rem) = trimStart pre ++ c :: kw ++ w ++ trim rem
    /\ forallb isWhiteSpace w = true.
Proof.
  intros Hc Hrem. unfold trim at 1. unfold trimStart at 1.
  rewrite (dropWhile_app_stop _ _ _ _ Hc).
  change (dropWhile isWhiteSpace pre ++ c :: kw ++ rem)
    with (trimStart pre ++ (c :: kw) ++ rem).
  rewrite app_assoc, trimEnd_app_keep by now apply trim_nonempty_trimEnd.
  destruct (dropWhile_split isWhiteSpace (trimEnd rem)) as (w & Hs & Hw).
  fold (trimStart (trimEnd rem)) in Hs. rewrite trimStart_trimEnd in Hs.
  exists w. split; auto. fold (trim rem) in Hs. rewrite Hs at 1.
  now rewrite <- app_assoc.
Qed.

(** ** The two patterns *)

Lemma str_cons a s : str (String a s) = N_of_ascii a :: str s.
Proof. reflexivity. Qed.

(** A greedy star in front of something that cannot start with a character
    of the star's class takes the whole run: nothing is given back. *)
Lemma greedy_exclusive {R} c (k : jsstring -> option R) :
  (forall x r, c x = true -> k (x :: r) = None) ->
  forall s t, greedy c (fun _ rest => k rest) t s = k (dropWhile c s).
Proof.
  intros Hk. induction s as [|x s IH]; intros t; simpl; auto.
  destruct (c x) eqn:E; auto.
  rewrite IH. destruct (k (dropWhile c s)); auto.
Qed.

(** A greedy quantifier stops at the longest run when the continuation
    accepts there. *)
Lemma greedy_longest {R} c (k : jsstring -> jsstring -> option R) a r m :
  forallb c a = true ->
  match r with x :: _ => c x = false | [] => True end ->
  forall t, k (rev a ++ t) r = Some m -> greedy c k t (a ++ r) = Some m.
Proof.
  intros Ha Hr. induction a as [|y a IH]; intros t Hk; simpl in *.
  - destruct r as [|x r]; simpl; auto. now rewrite Hr.
  - apply andb_prop in Ha as [Hy Ha]. rewrite Hy.
    rewrite (IH Ha (y :: t)); auto. now rewrite <- app_assoc in Hk.
Qed.

Lemma exec_word tail p s cap :
  exec (word tail ++ p) (str tail ++ s) cap = exec p s cap.
Proof.
  unfold word. induction tail as [|a tail IH]; auto.
  rewrite str_cons. simpl. now rewrite N.eqb_refl.
Qed.

(** [\s*(.+)$] on white space followed by a remainder that starts with
    something else and holds no line terminator: the group is the remainder. *)
Lemma exec_remainder w x r cap :
  forallb isWhiteSpace w = true ->
  isWhiteSpace x = false ->
  forallb dot (x :: r) = true ->
  exec [Star isWhiteSpace; Group dot] (w ++ x :: r) cap = Some (x :: r).
Proof.
  intros Hw Hx Hdot. simpl exec.
  apply greedy_longest; auto.
  rewrite <- (app_nil_r (x :: r)) at 1.
  apply greedy_longest; auto.
  rewrite app_nil_r. destruct (rev (x :: r)) eqn:E.
  - apply (f_equal (@List.length N)) in E. rewrite length_rev in E. discriminate.
  - now rewrite <- E, rev_involutive.
Qed.

Lemma bulletOrSpace_white c : bulletOrSpace c = false -> isWhiteSpace c = false.
Proof.
  unfold bulletOrSpace. intros H. apply orb_false_iff in H. tauto.
Qed.

Lemma trimStart_class c s : forallb c s = true -> forallb c (trimStart s) = true.
Proof.
  intros H. destruct (dropWhile_split isWhiteSpace s) as (w & Hs & _).
  rewrite Hs, forallb_app in H. now apply andb_prop in H.
Qed.

Lemma trim_head s x r : trim s = x :: r -> isWhiteSpace x = false.
Proof.
  unfold trim. rewrite <- trimStart_trimEnd. apply dropWhile_head.
Qed.

Section Marker.

(** A marker pattern: [/^[\*\-•\s]*[Uu]tail\s*(.+)$/] *)
Variables (U u : ascii) (tail : string).

Let code (a : ascii) := N_of_ascii a.

Hypothesis U_plain : bulletOrSpace (code U) = false.
Hypothesis u_plain : bulletOrSpace (code u) = false.

Let markerRe : list atom :=
  Star bulletOrSpace :: either U u :: word tail ++ [Star isWhiteSpace; Group dot].

Lemma after_bullets_exclusive p x r cap :
  bulletOrSpace x = true -> exec (either U u :: p) (x :: r) cap = None.
Proof.
  intros Hx. simpl.
  destruct (x =? N_of_ascii U) eqn:E1; [apply N.eqb_eq in E1; subst x; unfold code in *; congruence|].
  destruct (x =? N_of_ascii u) eqn:E2; [apply N.eqb_eq in E2; subst x; unfold code in *; congruence|].
  reflexivity.
Qed.

(** A line of bullets and white space, the keyword, and a remainder that is
    not blank and holds no line terminator matches; the group is the
    remainder without the white space around it. *)
Lemma marker_match pre c rem :
  forallb bulletOrSpace pre = true ->
  c = code U \/ c = code u ->
  trim rem <> [] ->
  forallb dot (trim rem) = true ->
  re_match markerRe (trim (pre ++ c :: str tail ++ rem)) = Some (trim rem).
Proof.
  intros Hpre Hc Hrem Hdot.
  assert (Hcb : bulletOrSpace c = false) by (destruct Hc; subst c; assumption).
  destruct (trim_marker_line pre c (str tail) rem (bulletOrSpace_white _ Hcb) Hrem)
    as (w & -> & Hw).
  unfold re_match, markerRe. simpl exec.
  rewrite (greedy_exclusive bulletOrSpace
             (fun rest => exec (either U u :: word tail ++ [Star isWhiteSpace; Group dot]) rest []))
    by (intros; now apply after_bullets_exclusive).
  rewrite (dropWhile_app_stop _ _ _ _ Hcb), (dropWhile_all _ _ (trimStart_class _ _ Hpre)).
  simpl.
  assert ((c =? N_of_ascii U) || (c =? N_of_ascii u) = true) as ->.
  { apply orb_true_iff. destruct Hc; subst c; rewrite N.eqb_refl; auto. }
  rewrite exec_word.
  destruct (trim rem) as [|x r] eqn:E; [congruence|].
  apply exec_remainder; auto. exact (trim_head _ _ _ E).
Qed.

(** A line whose first character after the bullets is not the keyword's
    first letter does not match. *)
Lemma marker_mismatch pre c rest :
  forallb bulletOrSpace pre = true ->
  bulletOrSpace c = false ->
  c <> code U -> c <> code u ->
  re_match markerRe (trim (pre ++ c :: rest)) = None.
Proof.
  intros Hpre Hcb HU Hu.
  assert (Hcw := bulletOrSpace_white _ Hcb).
  unfold trim, trimStart at 1. rewrite (dropWhile_app_stop _ _ _ _ Hcw).
  fold (trimStart pre).
  rewrite trimEnd_app_keep by (rewrite trimEnd_cons; [discriminate|assumption]).
  rewrite trimEnd_cons by assumption.
  unfold re_match, markerRe. simpl exec.
  rewrite (greedy_exclusive bulletOrSpace
             (fun rest => exec (either U u :: word tail ++ [Star isWhiteSpace; Group dot]) rest []))
    by (intros; now apply after_bullets_exclusive).
  rewrite (dropWhile_app_stop _ _ _ _ Hcb), (dropWhile_all _ _ (trimStart_class _ _ Hpre)).
  simpl.
  apply N.eqb_neq in HU, Hu. unfold code in *. now rewrite HU, Hu.
Qed.

End Marker.

Lemma before_match pre c rem :
  forallb bulletOrSpace pre = true ->
  c = letter "B" \/ c = letter "b" ->
  trim rem <> [] ->
  forallb dot (trim rem) = true ->
  re_match beforeRe (trim (pre ++ c :: str "efore:" ++ rem)) = Some (trim rem).
Proof. apply (marker_match "B" "b" "efore:"); reflexivity. Qed.

Lemma after_match pre c rem :
  forallb bulletOrSpace pre = true ->
  c = letter "A" \/ c = letter "a" ->
  trim rem <> [] ->
  forallb dot (trim rem) = true ->
  re_match afterRe (trim (pre ++ c :: str "fter:" ++ rem)) = Some (trim rem).
Proof. apply (marker_match "A" "a" "fter:"); reflexivity. Qed.

Lemma before_mismatch pre c rest :
  forallb bulletOrSpace pre = true ->
  c = letter "A" \/ c = letter "a" ->
  re_match beforeRe (trim (pre ++ c :: rest)) = None.
Proof.
  intros Hpre Hc.
  apply (marker_mismatch "B" "b" "efore:"); auto; destruct Hc; subst c; try reflexivity;
    discriminate.
Qed.

(** C6, as the code has it: the keyword is recognised with its first letter
    in either case and the other letters in lower case.  A line made of
    bullets ([*], [-], U+2022) and white space, then [Before] or [before]
    ([After] or [after]), a colon and a remainder that is not blank and holds
    no line terminator is a marker line, whatever white space surrounds the
    line or the remainder; what is kept is the remainder, trimmed. *)
Theorem marker_lines_recognised :
  forall (pre rem : jsstring) (c : N),
    forallb bulletOrSpace pre = true ->
    trim rem <> [] ->
    forallb dot (trim rem) = true ->
    (c = letter "B" \/ c = letter "b" ->
     re_match beforeRe (trim (pre ++ c :: str "efore:" ++ rem)) = Some (trim rem))
    /\ (c = letter "A" \/ c = letter "a" ->
        re_match beforeRe (trim (pre ++ c :: str "fter:" ++ rem)) = None
        /\ re_match afterRe (trim (pre ++ c :: str "fter:" ++ rem)) = Some (trim rem)).
Proof.
  intros pre rem c Hpre Hrem Hdot. split; intros Hc.
  - now apply before_match.
  - split; [now apply before_mismatch | now apply after_match].
Qed.

Lemma marker_lines_recognised_witness :
  re_match beforeRe (trim (str "  * - " ++ letter "b" :: str "efore:" ++ str "   https://a.example/x  "))
  = Some (str "https://a.example/x")
  /\ re_match afterRe (trim ([bullet; 32] ++ letter "A" :: str "fter:" ++ str "https://b.example/y"))
     = Some (str "https://b.example/y").
Proof.
  split.
  - apply (marker_lines_recognised (str "  * - ") (str "   https://a.example/x  ") (letter "b"));
      [reflexivity | discriminate | reflexivity | right; reflexivity].
  - apply (marker_lines_recognised [bullet; 32] (str "https://b.example/y") (letter "A"));
      [reflexivity | discriminate | reflexivity | left; reflexivity].
Defined.

(** C6 as stated fails: a keyword in capitals is not recognised, the line is
    skipped. *)
Lemma upper_case_keyword_not_recognised :
  re_match beforeRe (trim (str "BEFORE: https://a.example/x")) = None
  /\ re_match afterRe (trim (str "BEFORE: https://a.example/x")) = None
  /\ re_match afterRe (trim (str "- AFTER: https://b.example/y")) = None
  /\ forall s st, scanLine s (trim (str "BEFORE: https://a.example/x")) st = (Ret s, st).
Proof. repeat split. Qed.

(** ** Texts of alternating pairs *)

Lemma scanLines_app s l1 l2 st s1 st1 :
  scanLines s l1 st = (Ret s1, st1) ->
  scanLines s (l1 ++ l2) st = scanLines s1 l2 st1.
Proof.
  revert s st. induction l1 as [|x l1 IH]; intros s st H; simpl in *.
  - unfold ret in H. congruence.
  - unfold bind in *. destruct (scanLine s x st) as [[s'|c|e] st0]; try discriminate.
    now apply IH.
Qed.

Lemma scan_others s others st :
  Forall otherLine others -> scanLines s (map trim others) st = (Ret s, st).
Proof.
  induction 1 as [|l others [Hb Ha] _ IH]; simpl; auto.
  unfold bind, scanLine. now rewrite Hb, Ha.
Qed.

Lemma scan_before s line b st :
  BeforeLine line b ->
  scanLine s (trim line) st =
  (Ret {| currentBefore := Some b; currentAfter := currentAfter s;
          potentialPairs := potentialPairs s |}, st).
Proof.
  intros [pre c rem Hpre Hc Hrem Hdot]. unfold scanLine.
  now rewrite before_match, trim_idem.
Qed.

Lemma truthy_nonempty s : s <> [] -> truthy (Some s) = true.
Proof. destruct s; simpl; congruence. Qed.

Lemma scan_after s line a b st :
  AfterLine line a ->
  currentBefore s = Some b -> b <> [] ->
  scanLine s (trim line) st =
  (Ret {| currentBefore := None; currentAfter := None;
          potentialPairs := potentialPairs s ++ [{| before := b; after := a |}] |},
   {| console := console st ++ [foundLine {| before := b; after := a |}];
      files := files st |}).
Proof.
  intros [pre c rem Hpre Hc Hrem Hdot] Hb Hne. unfold scanLine.
  rewrite before_mismatch, after_match, trim_idem, Hb by assumption.
  now rewrite !truthy_nonempty by assumption.
Qed.

Lemma BeforeLine_nonempty line b : BeforeLine line b -> b <> [].
Proof. now intros []. Qed.

Lemma scan_alternating lines pairs :
  Alternating lines pairs ->
  forall acc st,
    scanLines {| currentBefore := None; currentAfter := None; potentialPairs := acc |}
              (map trim lines) st =
    (Ret {| currentBefore := None; currentAfter := None; potentialPairs := acc ++ pairs |},
     {| console := console st ++ map foundLine pairs; files := files st |}).
Proof.
  induction 1 as [others Ho | others1 lineB b others2 lineA a rest pairs Ho1 HB Ho2 HA _ IH];
    intros acc st.
  - rewrite scan_others by assumption. simpl. rewrite !app_nil_r. now destruct st.
  - rewrite map_app.
    rewrite (scanLines_app _ _ _ _ _ _ (scan_others _ _ st Ho1)).
    simpl map. simpl scanLines. unfold bind at 1. rewrite (scan_before _ _ _ _ HB).
    rewrite map_app.
    rewrite (scanLines_app _ _ _ _ _ _ (scan_others _ _ st Ho2)).
    simpl map. simpl scanLines. unfold bind at 1.
    rewrite (scan_after {| currentBefore := Some b; currentAfter := None;
                           potentialPairs := acc |} _ a b st HA eq_refl
               (BeforeLine_nonempty _ _ HB)).
    simpl potentialPairs. rewrite IH. simpl.
    now rewrite <- !app_assoc.
Qed.

(** C1: for a text that holds N well-formed Before/After line pairs in strict
    alternation, the scan ends with exactly those N candidate pairs, in the
    order of the text; each holds the trimmed remainder of its Before line as
    [before] and of its After line as [after], and nothing is left pending. *)
Theorem extract_alternating_pairs :
  forall (prBody : jsstring) (pairs : list pair) (st : State),
    Alternating (split_lines prBody) pairs ->
    exists s st',
      extract prBody st = (Ret s, st')
      /\ potentialPairs s = pairs
      /\ List.length (potentialPairs s) = List.length pairs
      /\ currentBefore s = None /\ currentAfter s = None.
Proof.
  intros prBody pairs st H. unfold extract, scanStart.
  rewrite (scan_alternating _ _ H [] st).
  eexists _, _. repeat split.
Qed.

Lemma extract_alternating_pairs_witness :
  exists s st',
    extract demoText demoState = (Ret s, st')
    /\ potentialPairs s = demoPairs
    /\ List.length (potentialPairs s) = 2%nat
    /\ currentBefore s = None /\ currentAfter s = None.
Proof.
  apply (extract_alternating_pairs demoText demoPairs demoState).
  apply (alt_pair [str "## Visual checks"]
           (str "- Before: https://a.example/x") (str "https://a.example/x") []
           (str "- After: https://b.example/y" ++ [CR]) (str "https://b.example/y")).
  - repeat constructor.
  - apply (before_line (str "- ") (letter "B") (str " https://a.example/x"));
      [reflexivity | left; reflexivity | discriminate | reflexivity].
  - constructor.
  - apply (after_line (str "- ") (letter "A") (str " https://b.example/y" ++ [CR]));
      [reflexivity | left; reflexivity | discriminate | reflexivity].
  - apply (alt_pair [[]]
             (str "  * before:https://a.example/p  ") (str "https://a.example/p") [str "notes"]
             ([bullet] ++ str " after:   https://b.example/q") (str "https://b.example/q")).
    + repeat constructor.
    + apply (before_line (str "  * ") (letter "b") (str "https://a.example/p  "));
        [reflexivity | right; reflexivity | discriminate | reflexivity].
    + repeat constructor.
    + apply (after_line ([bullet] ++ str " ") (letter "a") (str "   https://b.example/q"));
        [reflexivity | right; reflexivity | discriminate | reflexivity].
    + apply alt_done. constructor.
Defined.

(** ** Validation *)

Lemma printed_nil st : printed st [] = st.
Proof. unfold printed. rewrite app_nil_r. now destruct st. Qed.

Lemma printed_printed st out1 out2 : printed (printed st out1) out2 = printed st (out1 ++ out2).
Proof. unfold printed. simpl. now rewrite app_assoc. Qed.

Lemma status_200 code :
  (code =? 200) = match code with 200 => true | _ => false end.
Proof.
  destruct code as [|q]; [reflexivity|].
  do 8 (try (destruct q as [q|q|]; try reflexivity)).
Qed.

Lemma validateUrl_run parseURL respond url st :
  exists out,
    validateUrl parseURL respond url st = (Ret (reachable parseURL respond url), printed st out).
Proof.
  unfold validateUrl, reachable, invalidFormat.
  destruct (parseURL url) as [urlObj|].
  - destruct (respond _ _) as [code| | |].
    + exists []. now rewrite printed_nil, status_200.
    + exists []. now rewrite printed_nil.
    + exists []. now rewrite printed_nil.
    + eexists. reflexivity.
  - eexists. reflexivity.
Qed.

(** C3: [validateUrl] always returns a boolean, and touches no file.  It
    returns [true] exactly when the string parses as a URL and the HEAD
    request for it, sent with the 10 second timeout through the HTTPS client
    for an [https:] URL and the HTTP client otherwise, is answered with status
    200; a string that does not parse, another status, an error and a timeout
    all give [false]. *)
Theorem validateUrl_true_iff_status_200 :
  forall (parseURL : jsstring -> option URL) (respond : client -> options -> event)
         (url : jsstring) (st : State),
    exists (b : bool) (st' : State),
      validateUrl parseURL respond url st = (Ret b, st')
      /\ files st' = files st
      /\ (b = true <->
          exists urlObj,
            parseURL url = Some urlObj
            /\ respond (if JsString.eqb (protocol urlObj) (str "https:") then https else http)
                       {| method := str "HEAD";
                          opt_hostname := hostname urlObj;
                          opt_port := port urlObj;
                          path := pathname urlObj ++ search urlObj;
                          timeout := 10000 |}
               = Response 200).
Proof.
  intros parseURL respond url st.
  destruct (validateUrl_run parseURL respond url st) as (out & H).
  eexists _, _. split; [exact H|]. split; [reflexivity|].
  unfold reachable, clientFor, optionsFor. split.
  - destruct (parseURL url) as [urlObj|]; [|discriminate].
    intros Hb. exists urlObj. split; auto.
    destruct (respond _ _) as [code| | |]; try discriminate.
    rewrite <- status_200 in Hb. apply N.eqb_eq in Hb. now subst code.
  - intros (urlObj & -> & ->). reflexivity.
Qed.

Lemma bind_ret {A B} (m : M A) (k : A -> M B) st a st' :
  m st = (Ret a, st') -> bind m k st = k a st'.
Proof. unfold bind. now intros ->. Qed.

Lemma bind_throw {A B} (m : M A) (k : A -> M B) st e st' :
  m st = (Throw e, st') -> bind m k st = (Throw e, st').
Proof. unfold bind. now intros ->. Qed.

Lemma bind_exit {A B} (m : M A) (k : A -> M B) st code st' :
  m st = (Exit code, st') -> bind m k st = (Exit code, st').
Proof. unfold bind. now intros ->. Qed.

Lemma console_log_run line st : console_log line st = (Ret tt, printed st [(stdout, line)]).
Proof. reflexivity. Qed.

Lemma validatePairs_run parseURL respond potential :
  forall urlPairs st,
    let ok := fun p => reachable parseURL respond (before p)
                       && reachable parseURL respond (after p) in
    exists out,
      validatePairs parseURL respond potential urlPairs st =
      (Ret (urlPairs ++ filter ok potential), printed st out)
      /\ forall p, In p potential -> ok p = false ->
           In (stdout, invalidLine (reachable parseURL respond (before p))
                                   (reachable parseURL respond (after p)) p) out.
Proof.
  induction potential as [|p rest IH]; intros urlPairs st ok.
  - exists []. rewrite printed_nil. simpl. rewrite app_nil_r. split; [reflexivity|].
    intros p [].
  - cbn [validatePairs].
    rewrite (bind_ret _ _ _ _ _ (console_log_run _ st)).
    edestruct (validateUrl_run parseURL respond (before p)) as (o1 & H1).
    rewrite (bind_ret _ _ _ _ _ H1).
    edestruct (validateUrl_run parseURL respond (after p)) as (o2 & H2).
    rewrite (bind_ret _ _ _ _ _ H2).
    rewrite !printed_printed.
    simpl filter.
    change (reachable parseURL respond (before p) && reachable parseURL respond (after p))
      with (ok p).
    destruct (ok p) eqn:E.
    + rewrite (bind_ret _ _ _ _ _ (console_log_run _ _)), printed_printed.
      edestruct IH as (o3 & H3 & Hin). rewrite H3, printed_printed, <- app_assoc.
      eexists. split; [reflexivity|].
      intros q [<-|Hq] Hok; [congruence|].
      apply in_or_app. right. now apply Hin.
    + rewrite (bind_ret _ _ _ _ _ (console_log_run _ _)), printed_printed.
      edestruct IH as (o3 & H3 & Hin). rewrite H3, printed_printed.
      eexists. split; [reflexivity|].
      intros q [<-|Hq] Hok.
      * apply in_or_app. left. apply in_or_app. right. now left.
      * apply in_or_app. right. now apply Hin.
Qed.

(** C4: the validation loop keeps a pair exactly when both of its URLs
    validate, and keeps the pairs in the order they came in; for every pair
    it drops, it prints a line that marks each side as valid or failed. *)
Theorem validation_keeps_pairs_valid_on_both_sides :
  forall (parseURL : jsstring -> option URL) (respond : client -> options -> event)
         (potential : list pair) (st : State),
    exists st',
      validatePairs parseURL respond potential [] st =
      (Ret (filter (fun p => reachable parseURL respond (before p)
                             && reachable parseURL respond (after p)) potential), st')
      /\ (forall url st0,
            fst (validateUrl parseURL respond url st0) = Ret (reachable parseURL respond url))
      /\ forall p,
           In p potential ->
           reachable parseURL respond (before p) && reachable parseURL respond (after p) = false ->
           In (stdout,
               [cross_mark] ++ str " Invalid URL pair (before: "
               ++ (if reachable parseURL respond (before p) then [check_mark] else [cross_mark])
               ++ str ", after: "
               ++ (if reachable parseURL respond (after p) then [check_mark] else [cross_mark])
               ++ str "): " ++ before p ++ str " -> " ++ after p)
              (console st').
Proof.
  intros parseURL respond potential st.
  destruct (validatePairs_run parseURL respond potential [] st) as (out & H & Hin).
  eexists. split; [exact H|]. split.
  - intros url st0. destruct (validateUrl_run parseURL respond url st0) as (o & ->).
    reflexivity.
  - intros p Hp Hok. simpl. apply in_or_app. right. exact (Hin p Hp Hok).
Qed.

(** ** The whole of [parsePRBody] *)

Lemma scanLine_pure s line :
  exists s' out, forall st, scanLine s line st = (Ret s', printed st out).
Proof.
  unfold scanLine.
  destruct (re_match beforeRe line).
  - eexists _, []. intros st. now rewrite printed_nil.
  - destruct (re_match afterRe line).
    + destruct (truthy (currentBefore s) && truthy (Some (trim j))).
      * eexists _, _. intros st. reflexivity.
      * eexists _, []. intros st. now rewrite printed_nil.
    + eexists _, []. intros st. now rewrite printed_nil.
Qed.

Lemma scanLines_pure lines : forall s,
  exists s' out, forall st, scanLines s lines st = (Ret s', printed st out).
Proof.
  induction lines as [|line lines IH]; intros s.
  - exists s, []. intros st. now rewrite printed_nil.
  - destruct (scanLine_pure s line) as (s1 & o1 & H1).
    destruct (IH s1) as (s2 & o2 & H2).
    exists s2, (o1 ++ o2). intros st. cbn [scanLines].
    now rewrite (bind_ret _ _ _ _ _ (H1 st)), H2, printed_printed.
Qed.

Lemma warnDangling_pure s :
  exists out, forall st, warnDangling s st = (Ret tt, printed st out).
Proof.
  unfold warnDangling.
  destruct (truthy (currentBefore s) && negb (truthy (currentAfter s)));
    destruct (truthy (currentAfter s) && negb (truthy (currentBefore s)));
    eexists; intros st.
  - rewrite (bind_ret _ _ _ _ _ (console_log_run _ _)), console_log_run, printed_printed.
    reflexivity.
  - rewrite (bind_ret _ _ _ _ _ (console_log_run _ _)). reflexivity.
  - unfold bind, ret. rewrite console_log_run. reflexivity.
  - unfold bind, ret. now rewrite <- (printed_nil st) at 1.
Qed.

(** [parsePRBody] always returns; the pairs it returns depend on the text and
    on the network only, and it writes no file. *)
Lemma parsePRBody_pure parseURL respond prBody :
  exists urlPairs,
    forall st, exists out,
      parsePRBody parseURL respond prBody st = (Ret urlPairs, printed st out).
Proof.
  unfold parsePRBody. destruct (truthy prBody).
  - cbn [negb].
    destruct (scanLines_pure (map trim (split_lines (text_of prBody))) scanStart)
      as (s & o1 & H1).
    destruct (warnDangling_pure s) as (o4 & H4).
    eexists. intros st. unfold extract.
    rewrite (bind_ret _ _ _ _ _ (H1 st)).
    rewrite (bind_ret _ _ _ _ _ (console_log_run _ _)).
    edestruct (validatePairs_run parseURL respond (potentialPairs s) []) as (o3 & H3 & _).
    rewrite (bind_ret _ _ _ _ _ H3).
    rewrite (bind_ret _ _ _ _ _ (H4 _)).
    rewrite !printed_printed. eexists. reflexivity.
  - exists []. intros st. cbn [negb].
    rewrite (bind_ret _ _ _ _ _ (console_log_run _ _)). eexists. reflexivity.
Qed.

(** C5, at a text where an After line comes before a Before line: the scan
    ends with both values pending, no pair is produced and nothing throws,
    but no warning is printed for either value. *)
Theorem dangling_values_without_warning :
  forall (parseURL : jsstring -> option URL) (respond : client -> options -> event)
         (st : State),
    extract danglingText st =
    (Ret {| currentBefore := Some (str "https://a.example/x");
            currentAfter := Some (str "https://b.example/y");
            potentialPairs := [] |}, st)
    /\ parsePRBody parseURL respond (Some danglingText) st =
       (Ret [], {| console := console st ++ [(stdout, str "Validating 0 URL pairs...")];
                   files := files st |}).
Proof.
  intros parseURL respond st. split; reflexivity.
Qed.

(** With one value pending at the end of the scan, the warning is printed. *)
Lemma single_dangling_value_warned parseURL respond st :
  parsePRBody parseURL respond (Some loneBeforeText) st =
  (Ret [], printed st [ (stdout, str "Validating 0 URL pairs...");
                        (stdout, beforeWarning (str "https://a.example/x")) ])
  /\ parsePRBody parseURL respond (Some loneAfterText) st =
     (Ret [], printed st [ (stdout, str "Validating 0 URL pairs...");
                           (stdout, afterWarning (str "https://b.example/y")) ]).
Proof.
  split.
  - change (printed st [ (stdout, str "Validating 0 URL pairs...");
                         (stdout, beforeWarning (str "https://a.example/x")) ])
      with (printed st ([ (stdout, str "Validating 0 URL pairs...") ]
                        ++ [ (stdout, beforeWarning (str "https://a.example/x")) ])).
    rewrite <- printed_printed. reflexivity.
  - change (printed st [ (stdout, str "Validating 0 URL pairs...");
                         (stdout, afterWarning (str "https://b.example/y")) ])
      with (printed st ([ (stdout, str "Validating 0 URL pairs...") ]
                        ++ [ (stdout, afterWarning (str "https://b.example/y")) ])).
    rewrite <- printed_printed. reflexivity.
Qed.

(** ** What the apply operation returns and what it leaves alone *)

(** Up to the loop, on a path that holds a document. *)
Lemma updateBackstopConfig_found urlPairs backstopPath j w st :
  files st backstopPath = Some {| data := Document j; writable := w |} ->
  updateBackstopConfig urlPairs (Some backstopPath) st =
  bind (getScenarios (parsed j))
       (fun scenarios =>
          bind (addScenarios urlPairs 0
                  (if truthy_value scenarios then parsed j else resetScenarios (parsed j)))
               (finish urlPairs backstopPath)) st.
Proof.
  intros Hf. unfold updateBackstopConfig.
  assert (He : existsSync backstopPath st = (Ret true, st))
    by (unfold existsSync; now rewrite Hf).
  rewrite (bind_ret _ _ _ _ _ He).
  rewrite (bind_ret (ret tt) _ st tt st eq_refl).
  assert (Hr : readDocument backstopPath st = (Ret j, st))
    by (unfold readDocument; now rewrite Hf).
  rewrite (bind_ret _ _ _ _ _ Hr). reflexivity.
Qed.

Lemma finish_run urlPairs backstopPath j c st :
  files st backstopPath = Some {| data := Document j; writable := true |} ->
  finish urlPairs backstopPath c st =
  (Ret c, {| console := console st ++ [(stdout, updatedLine backstopPath (List.length urlPairs))];
             files := store backstopPath (doc c) st |}).
Proof.
  intros Hf. unfold finish.
  assert (Hw : writeDocument backstopPath (doc c) st
               = (Ret tt, {| console := console st;
                             files := store backstopPath (doc c) st |}))
    by (unfold writeDocument; now rewrite Hf).
  rewrite (bind_ret _ _ _ _ _ Hw).
  rewrite (bind_ret _ _ _ _ _ (console_log_run _ _)). reflexivity.
Qed.

Lemma store_same backstopPath j st :
  store backstopPath j st backstopPath
  = Some {| data := Document (reparsed j); writable := true |}.
Proof. unfold store. now rewrite eqb_refl. Qed.

Lemma store_other backstopPath j st p :
  p <> backstopPath -> store backstopPath j st p = files st p.
Proof. intros Hp. unfold store. apply eqb_neq in Hp. now rewrite Hp. Qed.

Lemma collection_none fields :
  collection fields = None ->
  truthy_value (lookup (str "scenarios") fields) = true
  /\ forall items, lookup (str "scenarios") fields <> Some (JArr items).
Proof.
  unfold collection.
  destruct (lookup (str "scenarios") fields) as [v|]; [|discriminate].
  destruct v; simpl; try discriminate;
    match goal with
    | |- context [if ?b then _ else _] => destruct b; try discriminate
    | _ => idtac
    end; intros _; split; auto; discriminate.
Qed.

(** C9, as the code has it: the apply operation returns the updated
    configuration document, whose collection has grown by the number of
    pairs and which the file holds as serialisation writes it; that number
    is what the last line it prints reports. *)
Theorem apply_returns_updated_document :
  forall (urlPairs : list pair) (backstopPath : jsstring)
         (fields : list (jsstring * json)) (items : list json) (st : State),
    files st backstopPath = Some {| data := Document (JObj fields); writable := true |} ->
    collection fields = Some items ->
    exists fields' items' front st',
      updateBackstopConfig urlPairs (Some backstopPath) st =
      (Ret {| doc := JObj fields'; expando := None |}, st')
      /\ files st' backstopPath
         = Some {| data := Document (reparsed (JObj fields')); writable := true |}
      /\ lookup (str "scenarios") fields' = Some (JArr items')
      /\ List.length items' = (List.length items + List.length urlPairs)%nat
      /\ console st' =
         front ++ [(stdout, str "Updated " ++ backstopPath ++ str " with "
                            ++ decimal (List.length urlPairs)
                            ++ str " additional scenarios")].
Proof.
  intros ps backstopPath fields items st Hf Hc.
  eexists _, (items ++ scenariosFrom ps 0), (console st ++ addedLines ps 0), _.
  split; [apply (updateBackstopConfig_object ps backstopPath fields items st Hf Hc)|].
  split; [apply store_same|].
  split; [apply lookup_assign_same|].
  split; [now rewrite length_app, scenariosFrom_length|].
  simpl. now rewrite app_assoc.
Qed.

Lemma apply_returns_updated_document_witness :
  exists fields' items' front st',
    updateBackstopConfig demoPairs (Some defaultPath) demoState =
    (Ret {| doc := JObj fields'; expando := None |}, st')
    /\ files st' defaultPath
       = Some {| data := Document (reparsed (JObj fields')); writable := true |}
    /\ lookup (str "scenarios") fields' = Some (JArr items')
    /\ List.length items' = 3%nat
    /\ console st' =
       front ++ [(stdout, str "Updated backstop.json with 2 additional scenarios")].
Proof.
  apply (apply_returns_updated_document demoPairs defaultPath demoFields
           [ JObj [ (str "label", JStr (str "Home")) ] ] demoState); reflexivity.
Defined.

(** C9 as stated fails: applying two pairs returns the document, not the
    number 2. *)
Lemma apply_does_not_return_the_count :
  (exists fields st',
     updateBackstopConfig demoPairs (Some defaultPath) demoState =
     (Ret {| doc := JObj fields; expando := None |}, st'))
  /\ fst (updateBackstopConfig demoPairs (Some defaultPath) demoState)
     <> Ret (parsed (JNum 2%float)).
Proof.
  split.
  - eexists _, _.
    apply (updateBackstopConfig_object demoPairs defaultPath demoFields
             [ JObj [ (str "label", JStr (str "Home")) ] ] demoState); reflexivity.
  - intros H. vm_compute in H. discriminate H.
Qed.

(** C7, as the code has it: the apply operation leaves every other file as
    it was, and the document too when it stops on a [scenarios] that is not
    an array.  When it writes the document, every property other than
    [scenarios] comes back as serialisation leaves it, [reparsed] of what it
    was: the same value unless it holds a number that is not finite, written
    as [null], or [-0], written as [0].  With no pair to apply it adds no
    scenario: a document whose [scenarios] is truthy is written back as it
    was, up to serialisation, and one whose [scenarios] is absent or falsy
    gets an empty collection.  On a document that serialisation reproduces,
    the properties other than [scenarios] are exactly what they were, and
    applying no pair to a truthy [scenarios] leaves the file as it was. *)
Theorem apply_changes_only_the_collection :
  forall (urlPairs : list pair) (backstopPath : jsstring)
         (fields : list (jsstring * json)) (st : State),
    files st backstopPath = Some {| data := Document (JObj fields); writable := true |} ->
    (exists r st',
       updateBackstopConfig urlPairs (Some backstopPath) st = (r, st')
       /\ (forall p, p <> backstopPath -> files st' p = files st p)
       /\ (files st' backstopPath = files st backstopPath
           \/ exists fields',
                files st' backstopPath
                = Some {| data := Document (JObj fields'); writable := true |}
                /\ (forall k, k <> str "scenarios" ->
                      lookup k fields' = option_map reparsed (lookup k fields))
                /\ (reparsed (JObj fields) = JObj fields ->
                    forall k, k <> str "scenarios" -> lookup k fields' = lookup k fields)))
    /\ (exists st',
          let fields0 := if truthy_value (lookup (str "scenarios") fields)
                         then fields
                         else assign (str "scenarios") (JArr []) fields in
          updateBackstopConfig [] (Some backstopPath) st = (Ret (parsed (JObj fields0)), st')
          /\ files st' backstopPath =
             Some {| data := Document (reparsed (JObj fields0)); writable := true |}
          /\ (reparsed (JObj fields) = JObj fields ->
              truthy_value (lookup (str "scenarios") fields) = true ->
              files st' backstopPath = files st backstopPath)).
Proof.
  intros ps backstopPath fields st Hf.
  assert (Hw : forall fields1 (now : option file),
             now = Some {| data := Document (reparsed (JObj fields1)); writable := true |} ->
             (forall k, k <> str "scenarios" -> lookup k fields1 = lookup k fields) ->
             exists fields',
               now = Some {| data := Document (JObj fields'); writable := true |}
               /\ (forall k, k <> str "scenarios" ->
                     lookup k fields' = option_map reparsed (lookup k fields))
               /\ (reparsed (JObj fields) = JObj fields ->
                   forall k, k <> str "scenarios" -> lookup k fields' = lookup k fields)).
  { intros fields1 now H1 Hsame.
    assert (Hr : exists fields', reparsed (JObj fields1) = JObj fields')
      by (eexists; reflexivity).
    destruct Hr as (fields' & Hr). rewrite Hr in H1.
    exists fields'. split; [exact H1|].
    assert (Hl : forall k, k <> str "scenarios" ->
                   lookup k fields' = option_map reparsed (lookup k fields))
      by (intros k Hk; now rewrite (lookup_written k _ _ Hr), Hsame).
    split; [exact Hl|].
    intros Hs k Hk. rewrite (Hl k Hk).
    destruct (lookup k fields) as [v|] eqn:El; [|reflexivity].
    cbn [option_map]. now rewrite (reparsed_fields k v fields Hs El). }
  split.
  - destruct (collection fields) as [items|] eqn:Hc.
    + eexists _, _.
      split; [apply (updateBackstopConfig_object ps backstopPath fields items st Hf Hc)|].
      cbn [files]. split; [intros p Hp; now apply store_other|].
      right. apply (Hw _ _ (store_same _ _ _)).
      intros k Hk. now apply lookup_assign_other.
    + destruct (collection_none _ Hc) as [Ht Hna].
      rewrite (updateBackstopConfig_found _ _ _ _ _ Hf).
      assert (Hg : getScenarios (parsed (JObj fields)) st
                   = (Ret (lookup (str "scenarios") fields), st)) by reflexivity.
      rewrite (bind_ret _ _ _ _ _ Hg), Ht.
      destruct ps as [|p ps].
      * eexists _, _. split.
        -- cbn [addScenarios]. rewrite (bind_ret (ret _) _ st _ st eq_refl).
           apply (finish_run _ _ _ _ _ Hf).
        -- cbn [files]. split; [intros q Hq; now apply store_other|].
           right. apply (Hw _ _ (store_same _ _ _)). reflexivity.
      * exists (Throw TypeError), st. split; [|auto].
        cbn [addScenarios]. apply bind_throw, bind_throw.
        unfold pushScenario, parsed. cbn [doc].
        destruct (lookup (str "scenarios") fields) as [v|] eqn:El; [|reflexivity].
        destruct v; try reflexivity. now destruct (Hna items).
  - rewrite (updateBackstopConfig_found _ _ _ _ _ Hf).
    assert (Hg : getScenarios (parsed (JObj fields)) st
                 = (Ret (lookup (str "scenarios") fields), st)) by reflexivity.
    rewrite (bind_ret _ _ _ _ _ Hg).
    cbn [addScenarios]. rewrite (bind_ret (ret _) _ st _ st eq_refl).
    rewrite (finish_run _ _ _ _ _ Hf).
    destruct (truthy_value (lookup (str "scenarios") fields));
      eexists; cbv zeta; (split; [reflexivity | split; [apply store_same|]]).
    + intros Hs _. cbn [files doc parsed]. rewrite store_same, Hs. now rewrite Hf.
    + discriminate.
Qed.

Lemma apply_changes_only_the_collection_witness :
  (exists r st',
     updateBackstopConfig demoPairs (Some defaultPath) bareState = (r, st')
     /\ (forall p, p <> defaultPath -> files st' p = files bareState p)
     /\ (files st' defaultPath = files bareState defaultPath
         \/ exists fields',
              files st' defaultPath
              = Some {| data := Document (JObj fields'); writable := true |}
              /\ (forall k, k <> str "scenarios" ->
                    lookup k fields' = option_map reparsed (lookup k bareFields))
              /\ (reparsed (JObj bareFields) = JObj bareFields ->
                  forall k, k <> str "scenarios" -> lookup k fields' = lookup k bareFields)))
  /\ (exists st',
        updateBackstopConfig [] (Some defaultPath) bareState =
        (Ret (parsed (JObj (bareFields ++ [(str "scenarios", JArr [])]))), st')
        /\ files st' defaultPath =
           Some {| data := Document (JObj (bareFields ++ [(str "scenarios", JArr [])]));
                   writable := true |}
        /\ (reparsed (JObj bareFields) = JObj bareFields ->
            false = true ->
            files st' defaultPath = files bareState defaultPath)).
Proof.
  apply (apply_changes_only_the_collection demoPairs defaultPath bareFields bareState).
  reflexivity.
Defined.

(** C7 as stated fails: applying no pair to a document without a collection
    changes the document, which gains an empty [scenarios]. *)
Lemma empty_apply_changes_the_document :
  exists st',
    snd (updateBackstopConfig [] (Some defaultPath) bareState) = st'
    /\ files bareState defaultPath =
       Some {| data := Document (JObj [ (str "id", JStr (str "demo")) ]); writable := true |}
    /\ files st' defaultPath =
       Some {| data := Document (JObj [ (str "id", JStr (str "demo"));
                                        (str "scenarios", JArr []) ]);
               writable := true |}
    /\ files st' defaultPath <> files bareState defaultPath.
Proof.
  eexists. split; [reflexivity|]. split; [reflexivity|]. split; [reflexivity|].
  intros H. vm_compute in H. discriminate H.
Qed.

(** ** The exit code of the process *)

Lemma updateBackstopConfig_missing urlPairs backstopPath st :
  files st backstopPath = None ->
  updateBackstopConfig urlPairs (Some backstopPath) st =
  (Exit 1, complain (str "Backstop config file not found: " ++ backstopPath) st).
Proof.
  intros Hf. unfold updateBackstopConfig.
  assert (He : existsSync backstopPath st = (Ret false, st))
    by (unfold existsSync; now rewrite Hf).
  rewrite (bind_ret _ _ _ _ _ He). reflexivity.
Qed.

Lemma updateBackstopConfig_unread urlPairs backstopPath f st :
  files st backstopPath = Some f ->
  data f = Unreadable \/ data f = Malformed ->
  exists e, updateBackstopConfig urlPairs (Some backstopPath) st = (Throw e, st).
Proof.
  intros Hf Hd. unfold updateBackstopConfig.
  assert (He : existsSync backstopPath st = (Ret true, st))
    by (unfold existsSync; now rewrite Hf).
  rewrite (bind_ret _ _ _ _ _ He).
  rewrite (bind_ret (ret tt) _ st tt st eq_refl).
  destruct f as [d w]. simpl in Hd.
  destruct Hd as [-> | ->]; eexists; apply bind_throw; unfold readDocument; now rewrite Hf.
Qed.

(** The loop returns or throws; it never exits and never touches a file. *)
Lemma addScenarios_outcome urlPairs : forall index c st,
  exists out,
    (exists c', addScenarios urlPairs index c st = (Ret c', printed st out))
    \/ addScenarios urlPairs index c st = (Throw TypeError, printed st out).
Proof.
  induction urlPairs as [|p ps IH]; intros index c st.
  - exists []. left. exists c. now rewrite printed_nil.
  - cbn [addScenarios]. cbv zeta.
    assert (Hp : (exists c', pushScenario c (scenario p index) st = (Ret c', st))
                 \/ pushScenario c (scenario p index) st = (Throw TypeError, st)).
    { unfold pushScenario. destruct (doc c); try (right; reflexivity).
      - destruct (expando c); [left; eexists; reflexivity | right; reflexivity].
      - destruct (lookup (str "scenarios") fields) as [v|]; [|right; reflexivity].
        destruct v; try (right; reflexivity). left; eexists; reflexivity. }
    destruct Hp as [(c' & Hp) | Hp].
    + rewrite (bind_ret _ _ _ _ _ Hp), (bind_ret _ _ _ _ _ (console_log_run _ _)).
      edestruct (IH (S index) c') as (out & Hout).
      eexists.
      destruct Hout as [(c2 & H) | H]; [left; exists c2 | right];
        rewrite H, printed_printed; reflexivity.
    + exists []. right. rewrite printed_nil. now apply bind_throw.
Qed.

Lemma updateBackstopConfig_readonly urlPairs backstopPath j st :
  files st backstopPath = Some {| data := Document j; writable := false |} ->
  exists e st', updateBackstopConfig urlPairs (Some backstopPath) st = (Throw e, st').
Proof.
  intros Hf. rewrite (updateBackstopConfig_found _ _ _ _ _ Hf).
  destruct j; try (eexists _, _; reflexivity);
    match goal with
    | |- context [getScenarios ?c] =>
        assert (Hg : exists v, getScenarios c st = (Ret v, st)) by (eexists; reflexivity);
        destruct Hg as (v & Hg); rewrite (bind_ret _ _ _ _ _ Hg)
    end;
    match goal with
    | |- context [addScenarios urlPairs 0 ?c] =>
        destruct (addScenarios_outcome urlPairs 0 c st) as (out & [(c' & H) | H])
    end;
    try (eexists _, _; apply bind_throw; exact H);
    rewrite (bind_ret _ _ _ _ _ H); eexists _, _; unfold finish; apply bind_throw;
    unfold writeDocument, printed; cbn [files]; now rewrite Hf.
Qed.

Lemma backstopPathOf_some proc : backstopPathOf proc = Some (text_of (backstopPathOf proc)).
Proof.
  unfold backstopPathOf, orElse.
  destruct (BACKSTOP_PATH proc) as [[|x b]|]; try reflexivity;
    destruct (nth_error (argv proc) 1) as [[|y a]|]; reflexivity.
Qed.

Section Exit.

Variable parseURL : jsstring -> option URL.
Variable respond : client -> options -> event.
Variable message : error -> jsstring.

Lemma main_no_text proc st :
  truthy (prBodyOf proc) = false ->
  exists out, main parseURL respond proc st = (Exit 0, printed st out).
Proof.
  intros H. unfold main. cbv zeta. rewrite H. cbn [negb].
  eexists. apply bind_exit.
  rewrite (bind_ret _ _ _ _ _ (console_log_run _ _)).
  rewrite (bind_ret _ _ _ _ _ (console_log_run _ _)).
  rewrite printed_printed. reflexivity.
Qed.

Lemma main_with_text proc urlPairs st :
  truthy (prBodyOf proc) = true ->
  fst (parsePRBody parseURL respond (prBodyOf proc) st) = Ret urlPairs ->
  exists out,
    main parseURL respond proc st =
    match urlPairs with
    | [] => (Exit 0, printed st out)
    | _ :: _ =>
        bind (updateBackstopConfig urlPairs (backstopPathOf proc))
             (fun _ => console_log ([check_mark]
                                    ++ str " Successfully updated backstop configuration"))
             (printed st out)
    end.
Proof.
  intros Ht Hp. unfold main. cbv zeta. rewrite Ht. cbn [negb].
  rewrite (bind_ret (ret tt) _ st tt st eq_refl).
  rewrite (bind_ret _ _ _ _ _ (console_log_run _ _)).
  destruct (parsePRBody_pure parseURL respond (prBodyOf proc)) as (ps & Hpure).
  destruct (Hpure st) as (o0 & H0). rewrite H0 in Hp. simpl in Hp.
  injection Hp as ->.
  edestruct Hpure as (o1 & H1). rewrite (bind_ret _ _ _ _ _ H1), printed_printed.
  destruct urlPairs as [|p ps]; cbn [List.length Nat.eqb].
  - eexists. apply bind_exit.
    rewrite (bind_ret _ _ _ _ _ (console_log_run _ _)), printed_printed. reflexivity.
  - rewrite (bind_ret (ret tt) _ _ tt _ eq_refl).
    rewrite (bind_ret _ _ _ _ _ (console_log_run _ _)), printed_printed.
    eexists. reflexivity.
Qed.

(** C8: the process exits with code 0 when no text is supplied, when no pair
    survives validation, and when the pairs are applied; in the first two
    cases no file is touched.  When there are pairs to apply, it exits with
    code 1 if the configuration document is missing, cannot be read, is not
    valid JSON or cannot be written. *)
Theorem exit_codes :
  forall (proc : Process) (st : State),
    (truthy (prBodyOf proc) = false ->
     fst (run parseURL respond message proc st) = 0%Z
     /\ files (snd (run parseURL respond message proc st)) = files st)
    /\ (truthy (prBodyOf proc) = true ->
        forall urlPairs,
          fst (parsePRBody parseURL respond (prBodyOf proc) st) = Ret urlPairs ->
          (urlPairs = [] ->
           fst (run parseURL respond message proc st) = 0%Z
           /\ files (snd (run parseURL respond message proc st)) = files st)
          /\ (urlPairs <> [] ->
              (files st (text_of (backstopPathOf proc)) = None ->
               fst (run parseURL respond message proc st) = 1%Z)
              /\ (forall f,
                    files st (text_of (backstopPathOf proc)) = Some f ->
                    data f = Unreadable \/ data f = Malformed \/ writable f = false ->
                    fst (run parseURL respond message proc st) = 1%Z)
              /\ (forall fields items,
                    files st (text_of (backstopPathOf proc))
                    = Some {| data := Document (JObj fields); writable := true |} ->
                    collection fields = Some items ->
                    fst (run parseURL respond message proc st) = 0%Z))).
Proof.
  intros proc st. split.
  - intros H. destruct (main_no_text proc st H) as (out & Hm).
    unfold run. rewrite Hm. auto.
  - intros Ht urlPairs Hp.
    destruct (main_with_text proc urlPairs st Ht Hp) as (out & Hm).
    split.
    + intros ->. unfold run. rewrite Hm. auto.
    + intros Hne. destruct urlPairs as [|p ps]; [congruence|].
      rewrite backstopPathOf_some in Hm.
      set (backstopPath := text_of (backstopPathOf proc)) in *.
      split; [|split].
      * intros Hf. unfold run. rewrite Hm.
        erewrite bind_exit; [reflexivity|].
        now apply updateBackstopConfig_missing.
      * intros f Hf Hd.
        assert (Hthrow : exists e st', updateBackstopConfig (p :: ps) (Some backstopPath)
                                         (printed st out) = (Throw e, st')).
        { destruct Hd as [Hd | [Hd | Hd]].
          - destruct (updateBackstopConfig_unread (p :: ps) backstopPath f (printed st out) Hf
                        (or_introl Hd)) as (e & He). eauto.
          - destruct (updateBackstopConfig_unread (p :: ps) backstopPath f (printed st out) Hf
                        (or_intror Hd)) as (e & He). eauto.
          - destruct f as [[| |j] w]; simpl in Hd; subst w.
            + destruct (updateBackstopConfig_unread (p :: ps) backstopPath _ (printed st out) Hf
                          (or_introl eq_refl)) as (e & He). eauto.
            + destruct (updateBackstopConfig_unread (p :: ps) backstopPath _ (printed st out) Hf
                          (or_intror eq_refl)) as (e & He). eauto.
            + apply (updateBackstopConfig_readonly (p :: ps) backstopPath j (printed st out) Hf). }
        destruct Hthrow as (e & st' & He).
        unfold run. rewrite Hm. erewrite bind_throw by exact He. reflexivity.
      * intros fields items Hf Hc. unfold run. rewrite Hm.
        erewrite bind_ret
          by exact (updateBackstopConfig_object (p :: ps) backstopPath fields items
                      (printed st out) Hf Hc).
        reflexivity.
Qed.

End Exit.

Lemma exit_codes_witness :
  fst (run demoParseURL demoRespond demoMessage procNoText demoState) = 0%Z
  /\ fst (run demoParseURL demoRespond demoMessage procNoPairs demoState) = 0%Z
  /\ fst (run demoParseURL demoRespond demoMessage procPairs noFileState) = 1%Z
  /\ fst (run demoParseURL demoRespond demoMessage procPairs malformedState) = 1%Z
  /\ fst (run demoParseURL demoRespond demoMessage procPairs demoState) = 0%Z.
Proof.
  split; [|split; [|split; [|split]]].
  - apply (proj1 (exit_codes demoParseURL demoRespond demoMessage procNoText demoState)).
    reflexivity.
  - apply (proj2 (exit_codes demoParseURL demoRespond demoMessage procNoPairs demoState)
             eq_refl [] eq_refl).
    reflexivity.
  - apply (proj2 (exit_codes demoParseURL demoRespond demoMessage procPairs noFileState)
             eq_refl demoPairs eq_refl).
    + discriminate.
    + reflexivity.
  - apply (proj2 (exit_codes demoParseURL demoRespond demoMessage procPairs malformedState)
             eq_refl demoPairs eq_refl) with (f := {| data := Malformed; writable := true |}).
    + discriminate.
    + reflexivity.
    + right. left. reflexivity.
  - apply (proj2 (exit_codes demoParseURL demoRespond demoMessage procPairs demoState)
             eq_refl demoPairs eq_refl)
      with (fields := demoFields) (items := [ JObj [ (str "label", JStr (str "Home")) ] ]).
    + discriminate.
    + reflexivity.
    + reflexivity.
Defined.

(** * More of the pipeline *)

(** ** What the patterns accept *)

Lemma greedy_inv {R} c (k : jsstring -> jsstring -> option R) s : forall t m,
  greedy c k t s = Some m ->
  exists a b, s = a ++ b /\ forallb c a = true /\ k (rev a ++ t) b = Some m.
Proof.
  induction s as [|x s IH]; intros t m H; simpl in H.
  - exists [], []. auto.
  - destruct (c x) eqn:E.
    + destruct (greedy c k (x :: t) s) as [r|] eqn:G.
      * injection H as ->. destruct (IH _ _ G) as (a & b & -> & Ha & Hk).
        exists (x :: a), b. simpl. rewrite E, Ha, <- app_assoc. auto.
      * exists [], (x :: s). auto.
    + exists [], (x :: s). auto.
Qed.

Lemma exec_word_inv tail p s cap m :
  exec (word tail ++ p) s cap = Some m ->
  exists s', s = str tail ++ s' /\ exec p s' cap = Some m.
Proof.
  unfold word. revert s. induction tail as [|a tail IH]; intros s H.
  - exists s. auto.
  - simpl in H. destruct s as [|x s]; [discriminate|].
    destruct (N.eqb_spec (N_of_ascii a) x) as [<-|]; [|discriminate].
    destruct (IH _ H) as (s' & -> & Hs). exists s'. now rewrite str_cons.
Qed.

Lemma exec_remainder_inv s cap m :
  exec [Star isWhiteSpace; Group dot] s cap = Some m ->
  exists w, s = w ++ m /\ forallb isWhiteSpace w = true
            /\ m <> [] /\ forallb dot m = true.
Proof.
  simpl exec. intros H.
  destruct (greedy_inv _ _ _ _ _ H) as (w & b & -> & Hw & Hb).
  destruct (greedy_inv _ _ _ _ _ Hb) as (a & b' & -> & Ha & Hk).
  rewrite app_nil_r in Hk.
  assert (Ht : rev a <> [] /\ b' = [] /\ m = rev (rev a)).
  { destruct (rev a) as [|y r]; [discriminate|].
    destruct b' as [|z b']; [|discriminate].
    injection Hk as <-. repeat split; auto. discriminate. }
  destruct Ht as (Ht & -> & ->). rewrite rev_involutive, app_nil_r.
  exists w. repeat split; auto.
  intros ->. now apply Ht.
Qed.

Section Accepted.

Variables (U u : ascii) (tail : string).

Lemma marker_match_inv line m :
  re_match (Star bulletOrSpace :: either U u :: word tail ++ [Star isWhiteSpace; Group dot])
           line = Some m ->
  exists pre c w,
    line = pre ++ c :: str tail ++ w ++ m
    /\ forallb bulletOrSpace pre = true
    /\ (c = N_of_ascii U \/ c = N_of_ascii u)
    /\ forallb isWhiteSpace w = true
    /\ m <> [] /\ forallb dot m = true.
Proof.
  unfold re_match. simpl exec. intros H.
  destruct (greedy_inv _ _ _ _ _ H) as (pre & b & -> & Hpre & Hb).
  simpl in Hb. destruct b as [|c b]; [discriminate|].
  destruct ((c =? N_of_ascii U) || (c =? N_of_ascii u)) eqn:Ec; [|discriminate].
  destruct (exec_word_inv _ _ _ _ _ Hb) as (s' & -> & Hs).
  destruct (exec_remainder_inv _ _ _ Hs) as (w & -> & Hw & Hm & Hdot).
  exists pre, c, w. repeat split; auto.
  apply orb_true_iff in Ec. destruct Ec as [Ec|Ec]; apply N.eqb_eq in Ec; auto.
Qed.

End Accepted.

(** X1: the two patterns accept nothing but marker lines.  A line that
    the Before pattern matches is made of bullets and white space, [B] or
    [b], [efore:], white space, and the captured value, which is not empty and
    holds no line terminator; likewise for the After pattern with [A] or [a]
    and [fter:]. *)
Theorem patterns_accept_only_marker_lines :
  forall (line m : jsstring),
    (re_match beforeRe line = Some m ->
     exists pre c w,
       line = pre ++ c :: str "efore:" ++ w ++ m
       /\ forallb bulletOrSpace pre = true
       /\ (c = letter "B" \/ c = letter "b")
       /\ forallb isWhiteSpace w = true
       /\ m <> [] /\ forallb dot m = true)
    /\ (re_match afterRe line = Some m ->
        exists pre c w,
          line = pre ++ c :: str "fter:" ++ w ++ m
          /\ forallb bulletOrSpace pre = true
          /\ (c = letter "A" \/ c = letter "a")
          /\ forallb isWhiteSpace w = true
          /\ m <> [] /\ forallb dot m = true).
Proof.
  intros line m. split; intros H.
  - exact (marker_match_inv "B" "b" "efore:" line m H).
  - exact (marker_match_inv "A" "a" "fter:" line m H).
Qed.

Lemma patterns_accept_only_marker_lines_witness :
  (exists pre c w,
     str "* Before:  https://a.example/x" = pre ++ c :: str "efore:" ++ w ++ str "https://a.example/x"
     /\ forallb bulletOrSpace pre = true
     /\ (c = letter "B" \/ c = letter "b")
     /\ forallb isWhiteSpace w = true
     /\ str "https://a.example/x" <> [] /\ forallb dot (str "https://a.example/x") = true)
  /\ (exists pre c w,
        str "after:y" = pre ++ c :: str "fter:" ++ w ++ str "y"
        /\ forallb bulletOrSpace pre = true
        /\ (c = letter "A" \/ c = letter "a")
        /\ forallb isWhiteSpace w = true
        /\ str "y" <> [] /\ forallb dot (str "y") = true).
Proof.
  split.
  - apply (patterns_accept_only_marker_lines (str "* Before:  https://a.example/x")
             (str "https://a.example/x")). reflexivity.
  - apply (patterns_accept_only_marker_lines (str "after:y") (str "y")). reflexivity.
Defined.

(** ** The values the scan keeps *)

Lemma dropWhile_app_all c a b : forallb c a = true -> dropWhile c (a ++ b) = dropWhile c b.
Proof.
  induction a as [|x a IH]; simpl; auto.
  destruct (c x); simpl; auto. discriminate.
Qed.

Lemma dropWhile_length c s : (List.length (dropWhile c s) <= List.length s)%nat.
Proof.
  induction s as [|x s IH]; simpl; auto.
  destruct (c x); simpl; lia.
Qed.

Lemma trimEnd_app_white a w : forallb isWhiteSpace w = true -> trimEnd (a ++ w) = trimEnd a.
Proof.
  intros Hw. unfold trimEnd, trimStart.
  now rewrite rev_app_distr, dropWhile_app_all by now rewrite forallb_rev.
Qed.

Lemma trimEnd_length s : (List.length (trimEnd s) <= List.length s)%nat.
Proof.
  unfold trimEnd, trimStart. rewrite length_rev, <- (length_rev s). apply dropWhile_length.
Qed.

Lemma trimEnd_trim s : trimEnd (trim s) = trim s.
Proof. unfold trim. apply trimEnd_idem. Qed.

(** The end of a string that does not end in white space does not either. *)
Lemma trimEnd_suffix a m : trimEnd (a ++ m) = a ++ m -> m <> [] -> trimEnd m = m.
Proof.
  intros H Hm. destruct (trimEnd m) as [|y r] eqn:E.
  - exfalso. rewrite (trimEnd_app_white _ _ (trimEnd_nil_all _ E)) in H.
    assert (Hl := trimEnd_length a). rewrite H, length_app in Hl.
    destruct m; [congruence|simpl in Hl; lia].
  - rewrite trimEnd_app_keep in H by (rewrite E; discriminate).
    rewrite E in H. now apply app_inv_head in H.
Qed.

Lemma capture_clean a m :
  trimEnd (a ++ m) = a ++ m -> m <> [] -> forallb dot m = true -> cleanValue (trim m).
Proof.
  intros H Hm Hdot. assert (He := trimEnd_suffix _ _ H Hm).
  assert (Ht : trim m = trimStart m) by (unfold trim; now rewrite <- trimStart_trimEnd, He).
  split; [|split].
  - rewrite Ht. intros E. apply dropWhile_nil_all in E.
    apply Hm. rewrite <- He. unfold trimEnd, trimStart.
    rewrite dropWhile_all; [reflexivity|now rewrite forallb_rev].
  - apply trim_idem.
  - rewrite Ht. now apply trimStart_class.
Qed.

Lemma match_clean re_first_upper re_first_lower tail l m :
  re_match (Star bulletOrSpace :: either re_first_upper re_first_lower
            :: word tail ++ [Star isWhiteSpace; Group dot]) (trim l) = Some m ->
  cleanValue (trim m).
Proof.
  intros H.
  destruct (marker_match_inv _ _ _ _ _ H) as (pre & c & w & Hl & _ & _ & _ & Hm & Hdot).
  assert (He := trimEnd_trim l). rewrite Hl in He.
  apply (capture_clean (pre ++ c :: str tail ++ w) m); auto.
  now rewrite <- !app_assoc; simpl; rewrite <- !app_assoc.
Qed.

Lemma scanLine_clean s l st :
  cleanState s ->
  exists s' st', scanLine s (trim l) st = (Ret s', st') /\ cleanState s'.
Proof.
  intros (Hp & Hb & Ha). unfold scanLine.
  destruct (re_match beforeRe (trim l)) as [m|] eqn:Eb.
  - eexists _, _. split; [reflexivity|]. split; [|split]; auto.
    exact (match_clean "B" "b" "efore:" l m Eb).
  - destruct (re_match afterRe (trim l)) as [m|] eqn:Ea.
    + assert (Hm := match_clean "A" "a" "fter:" l m Ea).
      destruct (truthy (currentBefore s) && truthy (Some (trim m))) eqn:Et.
      * eexists _, _.
        rewrite (bind_ret _ _ _ _ _ (console_log_run _ _)).
        split; [reflexivity|]. split; [|split]; simpl; auto.
        apply Forall_app. split; auto. constructor; [|constructor].
        split; simpl; auto.
        destruct (currentBefore s); [exact Hb|discriminate].
      * eexists _, _. split; [reflexivity|]. split; [|split]; auto.
    + eexists _, _. split; [reflexivity|]. split; [|split]; auto.
Qed.

Lemma scanLines_clean lines : forall s st,
  cleanState s ->
  exists s' st', scanLines s (map trim lines) st = (Ret s', st') /\ cleanState s'.
Proof.
  induction lines as [|l lines IH]; intros s st Hs.
  - eexists _, _. split; [reflexivity|assumption].
  - destruct (scanLine_clean s l st Hs) as (s1 & st1 & H1 & Hs1).
    destruct (IH s1 st1 Hs1) as (s2 & st2 & H2 & Hs2).
    exists s2, st2. split; auto.
    simpl. now rewrite (bind_ret _ _ _ _ _ H1).
Qed.

(** ** [parsePRBody] as a whole *)

Lemma parsePRBody_run parseURL respond prBody st s st1 :
  truthy prBody = true ->
  extract (text_of prBody) st = (Ret s, st1) ->
  exists out,
    parsePRBody parseURL respond prBody st =
    (Ret (filter (fun p => reachable parseURL respond (before p)
                           && reachable parseURL respond (after p)) (potentialPairs s)),
     printed st out).
Proof.
  intros Ht He. unfold parsePRBody. rewrite Ht. cbn [negb].
  destruct (scanLines_pure (map trim (split_lines (text_of prBody))) scanStart)
    as (s0 & o1 & H1).
  unfold extract in He. rewrite H1 in He. injection He as -> _.
  destruct (warnDangling_pure s) as (o4 & H4).
  unfold extract. rewrite (bind_ret _ _ _ _ _ (H1 st)).
  rewrite (bind_ret _ _ _ _ _ (console_log_run _ _)).
  edestruct (validatePairs_run parseURL respond (potentialPairs s) []) as (o3 & H3 & _).
  rewrite (bind_ret _ _ _ _ _ H3).
  rewrite (bind_ret _ _ _ _ _ (H4 _)).
  rewrite !printed_printed. eexists. reflexivity.
Qed.

Lemma parsePRBody_of_scan parseURL respond prBody st s st1 :
  extract (text_of prBody) st = (Ret s, st1) ->
  exists st',
    parsePRBody parseURL respond prBody st =
    (Ret (if truthy prBody
          then filter (fun p => reachable parseURL respond (before p)
                                && reachable parseURL respond (after p))
                      (potentialPairs s)
          else []), st')
    /\ files st' = files st.
Proof.
  intros He. destruct (truthy prBody) eqn:Ht.
  - destruct (parsePRBody_run parseURL respond prBody st s _ Ht He) as (out & H).
    exists (printed st out). split; [exact H|reflexivity].
  - exists (printed st [(stdout, str "No PR body provided")]). split; [|reflexivity].
    unfold parsePRBody. rewrite Ht. cbn [negb].
    rewrite (bind_ret _ _ _ _ _ (console_log_run _ _)). reflexivity.
Qed.

(** X2: [parsePRBody] composes the scan and the validation: for every text
    and every network it returns, without exiting or throwing and without
    touching a file, exactly the candidate pairs of the scan whose two URLs
    validate, in the order of the scan; for an absent or empty text it returns
    no pair. *)
Theorem parsePRBody_returns_valid_candidates :
  forall (parseURL : jsstring -> option URL) (respond : client -> options -> event)
         (prBody : option jsstring) (st : State),
    exists s st1 st',
      extract (text_of prBody) st = (Ret s, st1)
      /\ parsePRBody parseURL respond prBody st =
         (Ret (if truthy prBody
               then filter (fun p => reachable parseURL respond (before p)
                                     && reachable parseURL respond (after p))
                           (potentialPairs s)
               else []), st')
      /\ files st' = files st.
Proof.
  intros parseURL respond prBody st.
  destruct (scanLines_pure (map trim (split_lines (text_of prBody))) scanStart)
    as (s & o1 & H1).
  destruct (parsePRBody_of_scan parseURL respond prBody st s _ (H1 st)) as (st' & H & Hf).
  exists s, (printed st o1), st'. split; [apply H1|]. split; assumption.
Qed.

(** X3: whatever the text, every value the scan keeps (in a candidate pair
    or pending in a slot) is clean: not empty, without white space at either
    end and without a line terminator; so is every pair [parsePRBody]
    returns. *)
Theorem kept_values_are_clean :
  forall (parseURL : jsstring -> option URL) (respond : client -> options -> event)
         (prBody : option jsstring) (st : State),
    (exists s st1,
       extract (text_of prBody) st = (Ret s, st1)
       /\ Forall cleanPair (potentialPairs s)
       /\ cleanSlot (currentBefore s) /\ cleanSlot (currentAfter s))
    /\ (exists urlPairs st',
          parsePRBody parseURL respond prBody st = (Ret urlPairs, st')
          /\ Forall cleanPair urlPairs).
Proof.
  intros parseURL respond prBody st.
  destruct (scanLines_clean (split_lines (text_of prBody)) scanStart st)
    as (s & st1 & H1 & Hp & Hb & Ha).
  { repeat split; constructor. }
  split.
  - exists s, st1. auto.
  - destruct (parsePRBody_of_scan parseURL respond prBody st s st1 H1) as (st' & H & _).
    eexists _, st'. split; [exact H|].
    destruct (truthy prBody); [|constructor].
    apply Forall_forall. intros p Hin. apply filter_In in Hin as [Hin _].
    revert p Hin. now apply Forall_forall.
Qed.

(** ** Values that are overwritten or never used *)

Lemma scan_before_again s l1 b1 mid l2 b2 st :
  BeforeLine l1 b1 -> Forall otherLine mid -> BeforeLine l2 b2 ->
  scanLines s (map trim (l1 :: mid ++ [l2])) st =
  (Ret {| currentBefore := Some b2; currentAfter := currentAfter s;
          potentialPairs := potentialPairs s |}, st).
Proof.
  intros H1 Hmid H2. cbn [map scanLines].
  rewrite (bind_ret _ _ _ _ _ (scan_before s l1 b1 st H1)).
  rewrite map_app, (scanLines_app _ _ _ _ _ _ (scan_others _ _ st Hmid)).
  cbn [map scanLines]. rewrite (bind_ret _ _ _ _ _ (scan_before _ l2 b2 st H2)).
  reflexivity.
Qed.

(** X4: a Before line that is followed, after lines that are no markers,
    by another Before line has no effect at all: the scan of the text goes on
    as if the first of the two lines were not there.  The earlier value is
    overwritten without a message. *)
Theorem later_before_line_overwrites :
  forall (s : ScanState) (l1 b1 : jsstring) (mid : list jsstring) (l2 b2 : jsstring)
         (rest : list jsstring) (st : State),
    BeforeLine l1 b1 ->
    Forall otherLine mid ->
    BeforeLine l2 b2 ->
    scanLines s (map trim (l1 :: mid ++ l2 :: rest)) st =
    scanLines s (map trim (mid ++ l2 :: rest)) st.
Proof.
  intros s l1 b1 mid l2 b2 rest st H1 Hmid H2.
  change (l1 :: mid ++ l2 :: rest) with ((l1 :: mid) ++ [l2] ++ rest).
  change (mid ++ l2 :: rest) with (mid ++ [l2] ++ rest).
  rewrite !app_assoc, !(map_app trim _ rest).
  rewrite (scanLines_app _ _ _ _ _ _ (scan_before_again s l1 b1 mid l2 b2 st H1 Hmid H2)).
  assert (Hr : scanLines s (map trim (mid ++ [l2])) st =
               (Ret {| currentBefore := Some b2; currentAfter := currentAfter s;
                       potentialPairs := potentialPairs s |}, st)).
  { rewrite map_app, (scanLines_app _ _ _ _ _ _ (scan_others _ _ st Hmid)).
    cbn [map scanLines]. now rewrite (bind_ret _ _ _ _ _ (scan_before _ l2 b2 st H2)). }
  now rewrite (scanLines_app _ _ _ _ _ _ Hr).
Qed.

Lemma later_before_line_overwrites_witness :
  scanLines scanStart (map trim twiceBeforeText) demoState =
  scanLines scanStart (map trim (skipn 1 twiceBeforeText)) demoState.
Proof.
  apply (later_before_line_overwrites scanStart
           (str "Before: https://a.example/old") (str "https://a.example/old")
           [str "(to be replaced)"]
           (str "Before: https://a.example/x") (str "https://a.example/x")
           [str "After: https://b.example/y"] demoState).
  - apply (before_line [] (letter "B") (str " https://a.example/old"));
      [reflexivity | left; reflexivity | discriminate | reflexivity].
  - repeat constructor.
  - apply (before_line [] (letter "B") (str " https://a.example/x"));
      [reflexivity | left; reflexivity | discriminate | reflexivity].
Defined.

Lemma scanLine_sameButAfter s1 s2 line st :
  sameButAfter s1 s2 ->
  exists s1' s2' st',
    scanLine s1 line st = (Ret s1', st')
    /\ scanLine s2 line st = (Ret s2', st')
    /\ sameButAfter s1' s2'.
Proof.
  intros [Hb Hp]. unfold scanLine. rewrite Hb, Hp.
  destruct (re_match beforeRe line) as [m|].
  - eexists _, _, _. split; [reflexivity|]. split; [reflexivity|]. split; reflexivity.
  - destruct (re_match afterRe line) as [m|].
    + destruct (truthy (currentBefore s2) && truthy (Some (trim m))).
      * eexists _, _, _. split; [reflexivity|]. split; [reflexivity|]. split; reflexivity.
      * eexists _, _, _. split; [reflexivity|]. split; [reflexivity|]. split; simpl; auto.
    + eexists _, _, _. split; [reflexivity|]. split; [reflexivity|]. split; auto.
Qed.

Lemma scanLines_sameButAfter lines : forall s1 s2 st,
  sameButAfter s1 s2 ->
  exists s1' s2' st',
    scanLines s1 lines st = (Ret s1', st')
    /\ scanLines s2 lines st = (Ret s2', st')
    /\ sameButAfter s1' s2'.
Proof.
  induction lines as [|l lines IH]; intros s1 s2 st H.
  - exists s1, s2, st. auto.
  - destruct (scanLine_sameButAfter s1 s2 l st H) as (a1 & a2 & st1 & H1 & H2 & Ha).
    destruct (IH a1 a2 st1 Ha) as (b1 & b2 & st2 & G1 & G2 & Hb).
    exists b1, b2, st2. cbn [scanLines].
    now rewrite (bind_ret _ _ _ _ _ H1), (bind_ret _ _ _ _ _ H2).
Qed.

(** X5: an After line met while no Before value is pending is never
    used: whatever follows, the scan produces the same candidate pairs, the
    same messages and the same pending Before value as without that line. *)
Theorem stray_after_line_is_never_used :
  forall (s : ScanState) (la a : jsstring) (rest : list jsstring) (st : State),
    AfterLine la a ->
    truthy (currentBefore s) = false ->
    exists s1 s2 st',
      scanLines s (map trim (la :: rest)) st = (Ret s1, st')
      /\ scanLines s (map trim rest) st = (Ret s2, st')
      /\ potentialPairs s1 = potentialPairs s2
      /\ currentBefore s1 = currentBefore s2.
Proof.
  intros s la a rest st HA Hb.
  assert (H1 : scanLine s (trim la) st =
               (Ret {| currentBefore := currentBefore s; currentAfter := Some a;
                       potentialPairs := potentialPairs s |}, st)).
  { destruct HA as [pre c rem Hpre Hc Hrem Hdot]. unfold scanLine.
    rewrite before_mismatch, after_match, trim_idem, Hb by assumption. reflexivity. }
  destruct (scanLines_sameButAfter (map trim rest)
              {| currentBefore := currentBefore s; currentAfter := Some a;
                 potentialPairs := potentialPairs s |} s st)
    as (s1 & s2 & st' & G1 & G2 & Hb' & Hp'); [split; reflexivity|].
  exists s1, s2, st'. cbn [map scanLines]. rewrite (bind_ret _ _ _ _ _ H1). auto.
Qed.

Lemma stray_after_line_is_never_used_witness :
  exists s1 s2 st',
    scanLines scanStart (map trim strayText) demoState = (Ret s1, st')
    /\ scanLines scanStart (map trim (skipn 1 strayText)) demoState = (Ret s2, st')
    /\ potentialPairs s1 = potentialPairs s2
    /\ currentBefore s1 = currentBefore s2.
Proof.
  apply (stray_after_line_is_never_used scanStart
           (str "After: https://b.example/old") (str "https://b.example/old")
           (skipn 1 strayText) demoState).
  - apply (after_line [] (letter "A") (str " https://b.example/old"));
      [reflexivity | left; reflexivity | discriminate | reflexivity].
  - reflexivity.
Defined.

(** ** The apply operation, run again and run on other documents *)

Lemma collection_assign items fields :
  collection (assign (str "scenarios") (JArr items) fields) = Some items.
Proof. unfold collection. now rewrite lookup_assign_same. Qed.

Lemma reparsed_scenario p i : reparsed (scenario p i) = scenario p i.
Proof. reflexivity. Qed.

Lemma reparsed_scenariosFrom ps : forall i,
  map reparsed (scenariosFrom ps i) = scenariosFrom ps i.
Proof.
  induction ps as [|p ps IH]; intros i; cbn [scenariosFrom map]; [reflexivity|].
  now rewrite reparsed_scenario, IH.
Qed.

(** X6: the apply operation is not idempotent.  Applied to the document
    a first run has written, it appends again: the collection then holds the
    old scenarios as the first run wrote them, the records of the first run
    and the records of the second run, and the second run numbers its records
    from 1 again. *)
Theorem apply_twice_appends_twice :
  forall (urlPairs1 urlPairs2 : list pair) (backstopPath : jsstring)
         (fields : list (jsstring * json)) (items : list json) (st : State),
    files st backstopPath = Some {| data := Document (JObj fields); writable := true |} ->
    collection fields = Some items ->
    exists c1 st1 c2 st2 fields2 new1 new2,
      updateBackstopConfig urlPairs1 (Some backstopPath) st = (Ret c1, st1)
      /\ updateBackstopConfig urlPairs2 (Some backstopPath) st1 = (Ret c2, st2)
      /\ files st2 backstopPath
         = Some {| data := Document (reparsed (JObj fields2)); writable := true |}
      /\ lookup (str "scenarios") fields2 = Some (JArr (map reparsed items ++ new1 ++ new2))
      /\ List.length new1 = List.length urlPairs1
      /\ List.length new2 = List.length urlPairs2
      /\ (forall i p, nth_error urlPairs1 i = Some p -> nth_error new1 i = Some (scenario p i))
      /\ (forall i p, nth_error urlPairs2 i = Some p -> nth_error new2 i = Some (scenario p i)).
Proof.
  intros ps1 ps2 backstopPath fields items st Hf Hc.
  assert (H1 := updateBackstopConfig_object ps1 backstopPath fields items st Hf Hc).
  cbv zeta in H1.
  set (fields1 := assign (str "scenarios") (JArr (items ++ scenariosFrom ps1 0)) fields) in *.
  set (st1 := {| console := console st ++ addedLines ps1 0
                            ++ [(stdout, updatedLine backstopPath (List.length ps1))];
                 files := store backstopPath (JObj fields1) st |}) in *.
  assert (Hr : exists written, reparsed (JObj fields1) = JObj written)
    by (eexists; reflexivity).
  destruct Hr as (written & Hr).
  assert (Hf1 : files st1 backstopPath
                = Some {| data := Document (JObj written); writable := true |})
    by (unfold st1; cbn [files]; now rewrite store_same, Hr).
  assert (Hc1 : collection written = Some (map reparsed items ++ scenariosFrom ps1 0)).
  { unfold collection. rewrite (lookup_written _ _ _ Hr). unfold fields1.
    rewrite lookup_assign_same. cbn [option_map reparsed].
    now rewrite map_app, reparsed_scenariosFrom. }
  assert (H2 := updateBackstopConfig_object ps2 backstopPath written _ st1 Hf1 Hc1).
  cbv zeta in H2.
  eexists _, _, _, _, _, (scenariosFrom ps1 0), (scenariosFrom ps2 0).
  split; [exact H1|]. split; [exact H2|].
  split; [apply store_same|].
  split; [now rewrite lookup_assign_same, <- app_assoc|].
  split; [apply scenariosFrom_length|]. split; [apply scenariosFrom_length|].
  split; intros i p Hi; apply (scenariosFrom_nth _ 0 i p Hi).
Qed.

Lemma apply_twice_appends_twice_witness :
  exists c1 st1 c2 st2 fields2 new1 new2,
    updateBackstopConfig demoPairs (Some defaultPath) demoState = (Ret c1, st1)
    /\ updateBackstopConfig demoPairs (Some defaultPath) st1 = (Ret c2, st2)
    /\ files st2 defaultPath
       = Some {| data := Document (reparsed (JObj fields2)); writable := true |}
    /\ lookup (str "scenarios") fields2
       = Some (JArr ([ JObj [ (str "label", JStr (str "Home")) ] ] ++ new1 ++ new2))
    /\ List.length new1 = 2%nat
    /\ List.length new2 = 2%nat
    /\ (forall i p, nth_error demoPairs i = Some p -> nth_error new1 i = Some (scenario p i))
    /\ (forall i p, nth_error demoPairs i = Some p -> nth_error new2 i = Some (scenario p i)).
Proof.
  apply (apply_twice_appends_twice demoPairs demoPairs defaultPath demoFields
           [ JObj [ (str "label", JStr (str "Home")) ] ] demoState); reflexivity.
Defined.

Lemma str_inj a : forall b, str a = str b -> a = b.
Proof.
  induction a as [|x a IH]; intros [|y b] H; try discriminate; auto.
  rewrite !str_cons in H. injection H as Hx Hs.
  f_equal; auto.
  now rewrite <- (ascii_N_embedding x), <- (ascii_N_embedding y), Hx.
Qed.

Lemma decimal_inj n m : decimal n = decimal m -> n = m.
Proof.
  unfold decimal. intros H. apply str_inj in H.
  assert (Hu : Nat.to_uint n = Nat.to_uint m).
  { assert (Some (Nat.to_uint n) = Some (Nat.to_uint m)) as Hs
      by now rewrite <- !NilEmpty.usu, H.
    now injection Hs. }
  now rewrite <- (DecimalNat.Unsigned.of_to n), <- (DecimalNat.Unsigned.of_to m), Hu.
Qed.

Lemma label_inj p q i j : labelOf (scenario p i) = labelOf (scenario q j) -> i = j.
Proof.
  change (labelOf (scenario p i))
    with (str "Additional test page (" ++ decimal (i + 1) ++ str ")").
  change (labelOf (scenario q j))
    with (str "Additional test page (" ++ decimal (j + 1) ++ str ")").
  intros H. apply app_inv_head, app_inv_tail, decimal_inj in H. lia.
Qed.

Lemma scenariosFrom_labels ps : forall i l,
  In l (map labelOf (scenariosFrom ps i)) ->
  exists p j, (i <= j)%nat /\ l = labelOf (scenario p j).
Proof.
  induction ps as [|q ps IH]; intros i l H; simpl in H; [contradiction|].
  destruct H as [<-|H].
  - exists q, i. auto.
  - destruct (IH _ _ H) as (p & j & Hj & ->). exists p, j. split; [lia|reflexivity].
Qed.

Lemma scenariosFrom_NoDup ps : forall i, NoDup (map labelOf (scenariosFrom ps i)).
Proof.
  induction ps as [|q ps IH]; intros i; cbn [scenariosFrom map].
  - constructor.
  - constructor; [|apply IH].
    intros H. destruct (scenariosFrom_labels _ _ _ H) as (p & j & Hj & E).
    apply label_inj in E. lia.
Qed.

(** X7: the records one run of the apply operation appends carry
    pairwise distinct labels. *)
Theorem labels_of_one_run_are_distinct :
  forall (urlPairs : list pair) (backstopPath : jsstring)
         (fields : list (jsstring * json)) (items : list json) (st : State),
    files st backstopPath = Some {| data := Document (JObj fields); writable := true |} ->
    collection fields = Some items ->
    exists fields' items' st',
      updateBackstopConfig urlPairs (Some backstopPath) st = (Ret (parsed (JObj fields')), st')
      /\ lookup (str "scenarios") fields' = Some (JArr items')
      /\ NoDup (map labelOf (skipn (List.length items) items')).
Proof.
  intros ps backstopPath fields items st Hf Hc.
  eexists _, (items ++ scenariosFrom ps 0), _.
  split; [apply (updateBackstopConfig_object ps backstopPath fields items st Hf Hc)|].
  split; [apply lookup_assign_same|].
  rewrite skipn_app, Nat.sub_diag, skipn_all. simpl. apply scenariosFrom_NoDup.
Qed.

Lemma labels_of_one_run_are_distinct_witness :
  exists fields' items' st',
    updateBackstopConfig demoPairs (Some defaultPath) demoState = (Ret (parsed (JObj fields')), st')
    /\ lookup (str "scenarios") fields' = Some (JArr items')
    /\ NoDup (map labelOf (skipn 1 items')).
Proof.
  apply (labels_of_one_run_are_distinct demoPairs defaultPath demoFields
           [ JObj [ (str "label", JStr (str "Home")) ] ] demoState); reflexivity.
Defined.

(** ** Runs of the apply operation that fail *)

Lemma finish_readonly urlPairs backstopPath j c st :
  files st backstopPath = Some {| data := Document j; writable := false |} ->
  finish urlPairs backstopPath c st = (Throw SystemError, st).
Proof.
  intros Hf. unfold finish. apply bind_throw. unfold writeDocument. now rewrite Hf.
Qed.

(** Every way a run of the apply operation can end, with what it leaves in
    the file system. *)
Lemma updateBackstopConfig_outcome urlPairs backstopPath st :
  exists r st',
    updateBackstopConfig urlPairs (Some backstopPath) st = (r, st')
    /\ ((exists c, r = Ret c /\ files st' = store backstopPath (doc c) st)
        \/ (r = Exit 1 /\ files st' = files st)
        \/ (exists e, r = Throw e /\ files st' = files st)).
Proof.
  destruct (files st backstopPath) as [[d w]|] eqn:Hf.
  - destruct d as [| |j].
    + destruct (updateBackstopConfig_unread urlPairs backstopPath _ st Hf (or_introl eq_refl))
        as (e & He).
      eexists _, _. split; [exact He|]. right. right. eauto.
    + destruct (updateBackstopConfig_unread urlPairs backstopPath _ st Hf (or_intror eq_refl))
        as (e & He).
      eexists _, _. split; [exact He|]. right. right. eauto.
    + rewrite (updateBackstopConfig_found _ _ _ _ _ Hf).
      assert (Hg : (exists v, getScenarios (parsed j) st = (Ret v, st))
                   \/ getScenarios (parsed j) st = (Throw TypeError, st)).
      { destruct j; try (left; eexists; reflexivity). right. reflexivity. }
      destruct Hg as [(v & Hg) | Hg].
      * rewrite (bind_ret _ _ _ _ _ Hg).
        match goal with
        | |- context [addScenarios urlPairs 0 ?c] =>
            destruct (addScenarios_outcome urlPairs 0 c st) as (out & [(c' & H) | H])
        end.
        -- rewrite (bind_ret _ _ _ _ _ H). destruct w.
           ++ assert (Hf' : files (printed st out) backstopPath
                            = Some {| data := Document j; writable := true |}) by exact Hf.
              rewrite (finish_run _ _ _ _ _ Hf').
              eexists _, _. split; [reflexivity|]. left. eauto.
           ++ assert (Hf' : files (printed st out) backstopPath
                            = Some {| data := Document j; writable := false |}) by exact Hf.
              rewrite (finish_readonly _ _ _ _ _ Hf').
              eexists _, _. split; [reflexivity|]. right. right. eauto.
        -- rewrite (bind_throw _ _ _ _ _ H).
           eexists _, _. split; [reflexivity|]. right. right. eauto.
      * rewrite (bind_throw _ _ _ _ _ Hg).
        eexists _, _. split; [reflexivity|]. right. right. eauto.
  - rewrite (updateBackstopConfig_missing _ _ _ Hf).
    eexists _, _. split; [reflexivity|]. right. left. auto.
Qed.

(** X8: the apply operation writes one file or none.  A run that
    returns has changed no file but the configuration document at its path;
    a run that exits or throws (document missing, unreadable, malformed or not
    writable, [scenarios] not an array) has changed no file at all. *)
Theorem failed_apply_writes_nothing :
  forall (urlPairs : list pair) (backstopPath : option jsstring) (st : State),
    match updateBackstopConfig urlPairs backstopPath st with
    | (Ret _, st') => forall p, p <> pathOr backstopPath -> files st' p = files st p
    | (Exit _, st') => files st' = files st
    | (Throw _, st') => files st' = files st
    end.
Proof.
  intros ps backstopPath st.
  change (updateBackstopConfig ps backstopPath st)
    with (updateBackstopConfig ps (Some (pathOr backstopPath)) st).
  destruct (updateBackstopConfig_outcome ps (pathOr backstopPath) st)
    as (r & st' & -> & [(c & -> & Hf) | [(-> & Hf) | (e & -> & Hf)]]); auto.
  intros p Hp. rewrite Hf. now apply store_other.
Qed.

(** The loop on a document that is an array: the records go to the extra
    property. *)
Lemma addScenarios_array ps : forall i xs extra st,
  addScenarios ps i {| doc := JArr xs; expando := Some extra |} st =
  (Ret {| doc := JArr xs; expando := Some (extra ++ scenariosFrom ps i) |},
   printed st (addedLines ps i)).
Proof.
  induction ps as [|p ps IH]; intros i xs extra st.
  - cbn [addScenarios scenariosFrom]. unfold addedLines. cbn [scenariosFrom map].
    now rewrite app_nil_r, printed_nil.
  - cbn [addScenarios]. cbv zeta.
    assert (Hp : pushScenario {| doc := JArr xs; expando := Some extra |} (scenario p i) st
                 = (Ret {| doc := JArr xs; expando := Some (extra ++ [scenario p i]) |}, st))
      by reflexivity.
    rewrite (bind_ret _ _ _ _ _ Hp).
    rewrite (bind_ret _ _ _ _ _ (console_log_run _ _)), IH, printed_printed.
    cbn [scenariosFrom]. now rewrite <- app_assoc.
Qed.

(** X9: documents that are no objects.  On [null] the apply operation
    throws before anything is written.  On a number, a string or a boolean it
    throws as soon as there is a pair to add.  On an array it completes and
    reports the scenarios as added, but they are not part of what it writes:
    the file holds the array it held before, as serialisation leaves it
    (a number that is not finite comes back as [null], [-0] as [0]), which is
    the same array when serialisation reproduces it. *)
Theorem apply_to_a_document_that_is_no_object :
  forall (urlPairs : list pair) (backstopPath : jsstring) (j : json) (st : State),
    files st backstopPath = Some {| data := Document j; writable := true |} ->
    (j = JNull ->
     updateBackstopConfig urlPairs (Some backstopPath) st = (Throw TypeError, st))
    /\ ((exists b, j = JBool b) \/ (exists x, j = JNum x) \/ (exists t, j = JStr t) ->
        urlPairs <> [] ->
        updateBackstopConfig urlPairs (Some backstopPath) st = (Throw TypeError, st))
    /\ (forall xs, j = JArr xs ->
        exists added st',
          updateBackstopConfig urlPairs (Some backstopPath) st =
          (Ret {| doc := JArr xs; expando := Some added |}, st')
          /\ List.length added = List.length urlPairs
          /\ files st' backstopPath
             = Some {| data := Document (JArr (map reparsed xs)); writable := true |}
          /\ (reparsed (JArr xs) = JArr xs -> files st' backstopPath = files st backstopPath)
          /\ exists front,
               console st' =
               front ++ [(stdout, str "Updated " ++ backstopPath ++ str " with "
                                  ++ decimal (List.length urlPairs)
                                  ++ str " additional scenarios")]).
Proof.
  intros ps backstopPath j st Hf.
  rewrite (updateBackstopConfig_found _ _ _ _ _ Hf).
  split; [|split].
  - intros ->. reflexivity.
  - intros Hj Hne. destruct ps as [|p ps]; [congruence|].
    destruct Hj as [(b & ->) | [(x & ->) | (t & ->)]]; reflexivity.
  - intros xs ->.
    rewrite (bind_ret _ _ _ _ _ (eq_refl : getScenarios (parsed (JArr xs)) st = (Ret None, st))).
    cbn [truthy_value]. unfold resetScenarios, parsed. cbn [doc].
    rewrite (bind_ret _ _ _ _ _ (addScenarios_array ps 0 xs [] st)).
    assert (Hf' : files (printed st (addedLines ps 0)) backstopPath
                  = Some {| data := Document (JArr xs); writable := true |}) by exact Hf.
    rewrite (finish_run _ _ _ _ _ Hf').
    eexists _, _. split; [reflexivity|].
    split; [apply scenariosFrom_length|].
    split; [apply store_same|].
    split; [|eexists; reflexivity].
    intros Hs. cbn [files doc]. now rewrite store_same, Hs, Hf.
Qed.

Lemma apply_to_a_document_that_is_no_object_witness :
  updateBackstopConfig demoPairs (Some defaultPath) nullState = (Throw TypeError, nullState)
  /\ updateBackstopConfig demoPairs (Some defaultPath) numberState
     = (Throw TypeError, numberState)
  /\ exists added st',
       updateBackstopConfig demoPairs (Some defaultPath) arrayState =
       (Ret {| doc := JArr [JStr (str "home")]; expando := Some added |}, st')
       /\ List.length added = 2%nat
       /\ files st' defaultPath
          = Some {| data := Document (JArr [JStr (str "home")]); writable := true |}
       /\ (JArr [JStr (str "home")] = JArr [JStr (str "home")] ->
           files st' defaultPath = files arrayState defaultPath)
       /\ exists front,
            console st' =
            front ++ [(stdout, str "Updated backstop.json with 2 additional scenarios")].
Proof.
  split; [|split].
  - apply (proj1 (apply_to_a_document_that_is_no_object demoPairs defaultPath JNull nullState
                    eq_refl)).
    reflexivity.
  - apply (proj1 (proj2 (apply_to_a_document_that_is_no_object demoPairs defaultPath
                           (JNum 1%float) numberState eq_refl))).
    + right. left. eexists. reflexivity.
    + discriminate.
  - apply (proj2 (proj2 (apply_to_a_document_that_is_no_object demoPairs defaultPath
                           (JArr [JStr (str "home")]) arrayState eq_refl))).
    reflexivity.
Defined.

(** ** The program from end to end *)

(** X10: the program composes extraction, validation and the apply
    operation.  When the text is not empty, at least one candidate pair of the
    scan validates on both sides, and the configuration document is a
    writable object with a usable collection, the run exits with code 0 and
    writes the document with the old scenarios followed by one record for
    each valid pair, in the order of the text; no other file is changed. *)
Theorem run_appends_the_valid_pairs :
  forall (parseURL : jsstring -> option URL) (respond : client -> options -> event)
         (message : error -> jsstring) (proc : Process) (st : State)
         (s : ScanState) (st1 : State)
         (fields : list (jsstring * json)) (items : list json),
    truthy (prBodyOf proc) = true ->
    extract (text_of (prBodyOf proc)) st = (Ret s, st1) ->
    filter (fun p => reachable parseURL respond (before p)
                     && reachable parseURL respond (after p)) (potentialPairs s) <> [] ->
    files st (text_of (backstopPathOf proc))
    = Some {| data := Document (JObj fields); writable := true |} ->
    collection fields = Some items ->
    exists st' added,
      run parseURL respond message proc st = (0%Z, st')
      /\ files st' (text_of (backstopPathOf proc))
         = Some {| data := Document
                             (reparsed
                                (JObj (assign (str "scenarios") (JArr (items ++ added)) fields)));
                   writable := true |}
      /\ (forall p, p <> text_of (backstopPathOf proc) -> files st' p = files st p)
      /\ List.length added
         = List.length (filter (fun p => reachable parseURL respond (before p)
                                         && reachable parseURL respond (after p))
                               (potentialPairs s))
      /\ forall i p,
           nth_error (filter (fun p => reachable parseURL respond (before p)
                                       && reachable parseURL respond (after p))
                             (potentialPairs s)) i = Some p ->
           nth_error added i = Some (scenario p i).
Proof.
  intros parseURL respond message proc st s st1 fields items Ht He Hne Hf Hc.
  set (valid := filter _ (potentialPairs s)) in *.
  destruct (parsePRBody_of_scan parseURL respond (prBodyOf proc) st s st1 He)
    as (st2 & Hp & _).
  rewrite Ht in Hp. fold valid in Hp.
  assert (Hp' : fst (parsePRBody parseURL respond (prBodyOf proc) st) = Ret valid)
    by now rewrite Hp.
  destruct (main_with_text parseURL respond proc valid st Ht Hp') as (out & Hm).
  destruct valid as [|p ps] eqn:Ev; [congruence|]. rewrite <- Ev in *.
  rewrite backstopPathOf_some in Hm.
  assert (Hf' : files (printed st out) (text_of (backstopPathOf proc))
                = Some {| data := Document (JObj fields); writable := true |}) by exact Hf.
  assert (Hu := updateBackstopConfig_object valid _ fields items (printed st out) Hf' Hc).
  cbv zeta in Hu.
  rewrite Ev in Hm. rewrite <- Ev in Hm.
  rewrite (bind_ret _ _ _ _ _ Hu), console_log_run in Hm.
  eexists _, (scenariosFrom valid 0). split.
  - unfold run. rewrite Hm. reflexivity.
  - unfold printed at 1 2. cbn [files]. split; [apply store_same|].
    split; [intros q Hq; unfold printed at 1; cbn [files]; now rewrite store_other|].
    split; [apply scenariosFrom_length|].
    intros i q Hi. apply (scenariosFrom_nth _ 0 i q Hi).
Qed.

Lemma run_appends_the_valid_pairs_witness :
  exists st' added,
    run demoParseURL demoRespond demoMessage procPairs demoState = (0%Z, st')
    /\ files st' defaultPath
       = Some {| data := Document
                           (reparsed
                              (JObj (assign (str "scenarios")
                                       (JArr ([ JObj [ (str "label", JStr (str "Home")) ] ]
                                              ++ added))
                                       demoFields)));
                 writable := true |}
    /\ (forall p, p <> defaultPath -> files st' p = files demoState p)
    /\ List.length added = 2%nat
    /\ forall i p, nth_error demoPairs i = Some p -> nth_error added i = Some (scenario p i).
Proof.
  apply (run_appends_the_valid_pairs demoParseURL demoRespond demoMessage procPairs demoState
           {| currentBefore := None; currentAfter := None; potentialPairs := demoPairs |}
           {| console := map foundLine demoPairs; files := files demoState |}
           demoFields [ JObj [ (str "label", JStr (str "Home")) ] ]);
    first [ reflexivity | discriminate ].
Defined.

(** X11: the process ends with exit code 0 or 1, whatever the text, the
    network and the file system. *)
Theorem exit_code_is_zero_or_one :
  forall (parseURL : jsstring -> option URL) (respond : client -> options -> event)
         (message : error -> jsstring) (proc : Process) (st : State),
    fst (run parseURL respond message proc st) = 0%Z
    \/ fst (run parseURL respond message proc st) = 1%Z.
Proof.
  intros parseURL respond message proc st.
  destruct (truthy (prBodyOf proc)) eqn:Ht.
  - destruct (parsePRBody_pure parseURL respond (prBodyOf proc)) as (ps & Hpure).
    destruct (Hpure st) as (o & Hp).
    assert (Hp' : fst (parsePRBody parseURL respond (prBodyOf proc) st) = Ret ps)
      by now rewrite Hp.
    destruct (main_with_text parseURL respond proc ps st Ht Hp') as (out & Hm).
    unfold run. rewrite Hm. destruct ps as [|p ps]; [now left|].
    rewrite backstopPathOf_some.
    destruct (updateBackstopConfig_outcome (p :: ps) (text_of (backstopPathOf proc))
                (printed st out))
      as (r & st' & Hu & [(c & -> & _) | [(-> & _) | (e & -> & _)]]).
    + rewrite (bind_ret _ _ _ _ _ Hu). now left.
    + rewrite (bind_exit _ _ _ _ _ Hu). now right.
    + rewrite (bind_throw _ _ _ _ _ Hu). now right.
  - destruct (main_no_text parseURL respond proc st Ht) as (out & Hm).
    unfold run. rewrite Hm. now left.
Qed.

(** * The local runner *)

(** ** The command line *)

Lemma isCommand_In arg : BackstopLocal.isCommand arg = true -> In arg BackstopLocal.commands.
Proof.
  unfold BackstopLocal.isCommand. intros H. apply existsb_exists in H as (c & Hc & He).
  apply eqb_eq in He. now subst.
Qed.

Lemma parseLoop_outcome n : forall args config st,
  (List.length args <= n)%nat ->
  In (BackstopLocal.command config) BackstopLocal.commands ->
  match BackstopLocal.parseLoop config args st with
  | (Ret c, st') => st' = st /\ In (BackstopLocal.command c) BackstopLocal.commands
  | (Exit code, st') =>
      code = 0%Z /\ st' = printed st [(stdout, BackstopLocal.helpText)]
      /\ In (str "--help") args
  | (Throw _, _) => False
  end.
Proof.
  induction n as [|n IH]; intros args config st Hn Hc.
  - destruct args; [simpl; auto | simpl in Hn; lia].
  - destruct args as [|arg rest]; [simpl; auto|].
    cbn [BackstopLocal.parseLoop].
    destruct (JsString.eqb arg (str "--help")) eqn:Eh.
    + apply eqb_eq in Eh. subst arg. cbn. auto.
    + assert (Hpos : In (BackstopLocal.command
                (if negb (BackstopLocal.startsWith (str "--") arg) && BackstopLocal.isCommand arg
                 then {| BackstopLocal.command := arg;
                         BackstopLocal.urlPattern := BackstopLocal.urlPattern config;
                         BackstopLocal.refPattern := BackstopLocal.refPattern config |}
                 else config)) BackstopLocal.commands).
      { destruct (negb (BackstopLocal.startsWith (str "--") arg)); simpl; auto.
        destruct (BackstopLocal.isCommand arg) eqn:Ei; auto. now apply isCommand_In. }
      assert (Hstep : forall cfg tail,
                In (BackstopLocal.command cfg) BackstopLocal.commands ->
                (List.length tail <= n)%nat ->
                (forall x, In x tail -> In x (arg :: rest)) ->
                match BackstopLocal.parseLoop cfg tail st with
                | (Ret c, st') => st' = st /\ In (BackstopLocal.command c) BackstopLocal.commands
                | (Exit code, st') =>
                    code = 0%Z /\ st' = printed st [(stdout, BackstopLocal.helpText)]
                    /\ In (str "--help") (arg :: rest)
                | (Throw _, _) => False
                end).
      { intros cfg tail Hcfg Hlen Hsub. specialize (IH tail cfg st Hlen Hcfg).
        destruct (BackstopLocal.parseLoop cfg tail st) as [[c|code|e] st']; auto.
        destruct IH as (? & ? & Hin). auto. }
      simpl in Hn.
      destruct rest as [|value rest'].
      * apply Hstep; [exact Hpos | simpl; lia | intros x Hx; simpl in *; tauto].
      * simpl in Hn.
        destruct (JsString.eqb arg (str "--url")).
        -- apply Hstep; [exact Hc | lia | intros x Hx; simpl; auto].
        -- destruct (JsString.eqb arg (str "--ref")).
           ++ apply Hstep; [exact Hc | lia | intros x Hx; simpl; auto].
           ++ apply Hstep; [exact Hpos | simpl; lia | intros x Hx; simpl in *; tauto].
Qed.

Lemma parseLoop_returns n : forall args config st,
  (List.length args <= n)%nat ->
  ~ In (str "--help") args ->
  exists c, BackstopLocal.parseLoop config args st = (Ret c, st).
Proof.
  induction n as [|n IH]; intros args config st Hn Hh.
  - destruct args; [eexists; reflexivity | simpl in Hn; lia].
  - destruct args as [|arg rest]; [eexists; reflexivity|].
    cbn [BackstopLocal.parseLoop].
    destruct (JsString.eqb arg (str "--help")) eqn:Eh.
    + apply eqb_eq in Eh. subst arg. exfalso. apply Hh. now left.
    + simpl in Hn.
      destruct rest as [|value rest'].
      * apply IH; simpl; auto. lia.
      * destruct (JsString.eqb arg (str "--url")).
        -- apply IH; [simpl in Hn; lia|]. intros H. apply Hh. simpl. auto.
        -- destruct (JsString.eqb arg (str "--ref")).
           ++ apply IH; [simpl in Hn; lia|]. intros H. apply Hh. simpl. auto.
           ++ apply IH; [simpl in Hn; simpl; lia|]. intros H. apply Hh. simpl. auto.
Qed.

(** X12: [parseArgs] on any command line.  It either returns, having
    printed nothing, a configuration whose command is one of [reference],
    [test], [approve] and [report], or prints the help text and exits with
    code 0, which needs an argument [--help]; it never throws.  Without an
    argument [--help] it returns. *)
Theorem parseArgs_outcome :
  forall (args : list jsstring) (st : State),
    match BackstopLocal.parseArgs args st with
    | (Ret config, st') =>
        st' = st
        /\ In (BackstopLocal.command config)
              [str "reference"; str "test"; str "approve"; str "report"]
    | (Exit code, st') =>
        code = 0%Z
        /\ console st' = console st ++ [(stdout, BackstopLocal.helpText)]
        /\ files st' = files st
        /\ In (str "--help") args
    | (Throw _, _) => False
    end
    /\ (~ In (str "--help") args ->
        exists config, BackstopLocal.parseArgs args st = (Ret config, st)).
Proof.
  intros args st. split.
  - unfold BackstopLocal.parseArgs.
    assert (H := parseLoop_outcome (List.length args) args
                   {| BackstopLocal.command := str "test";
                      BackstopLocal.urlPattern := None;
                      BackstopLocal.refPattern := None |} st (le_n _)).
    destruct (BackstopLocal.parseLoop _ args st) as [[c|code|e] st'].
    + apply H. simpl. auto.
    + destruct H as (-> & -> & Hin); [simpl; auto|]. auto.
    + apply H. simpl. auto.
  - intros Hh. apply (parseLoop_returns (List.length args)); auto.
Qed.

Lemma parseArgs_outcome_witness :
  exists config,
    BackstopLocal.parseArgs [str "--url"; str "my-branch--"; str "reference"; str "deploy"]
      demoState = (Ret config, demoState).
Proof.
  apply (parseArgs_outcome [str "--url"; str "my-branch--"; str "reference"; str "deploy"]
           demoState).
  intros H. simpl in H. repeat destruct H as [H|H]; try discriminate H. exact H.
Defined.

(** ** Replacing a text *)

Lemma expand_plain replacement matched preceding following :
  forallb (fun c => negb (c =? 36)) replacement = true ->
  BackstopLocal.expand replacement matched preceding following = replacement.
Proof.
  induction replacement as [|c r IH]; simpl; auto.
  intros H. apply andb_prop in H as [Hc Hr].
  apply negb_true_iff in Hc. rewrite Hc. now rewrite IH.
Qed.

Lemma startsWith_app pattern t : BackstopLocal.startsWith pattern (pattern ++ t) = true.
Proof.
  induction pattern as [|c p IH]; simpl; auto. now rewrite N.eqb_refl.
Qed.

Lemma replaceFrom_skip pattern replacement u : forall seen t,
  BackstopLocal.replaceFrom pattern replacement (List.length u) seen (u ++ t) =
  BackstopLocal.replaceFrom pattern replacement 0 (rev u ++ seen) t.
Proof.
  induction u as [|c u IH]; intros seen t; simpl; auto.
  rewrite IH. now rewrite <- app_assoc.
Qed.

Lemma replaceFrom_none pattern replacement t : forall seen,
  BackstopLocal.includes pattern t = false ->
  BackstopLocal.replaceFrom pattern replacement 0 seen t = t.
Proof.
  induction t as [|c t IH]; intros seen H; simpl in *; auto.
  apply orb_false_iff in H as [Hs Hi]. rewrite Hs. now rewrite IH.
Qed.

Lemma replaceFrom_before pattern replacement a : forall seen t,
  startsBefore pattern (List.length a) (a ++ t) = false ->
  BackstopLocal.replaceFrom pattern replacement 0 seen (a ++ t) =
  a ++ BackstopLocal.replaceFrom pattern replacement 0 (rev a ++ seen) t.
Proof.
  induction a as [|c a IH]; intros seen t H; simpl in *; auto.
  apply orb_false_iff in H as [Hs Hb]. rewrite Hs, IH by assumption.
  now rewrite <- app_assoc.
Qed.

(** X13: [s.replace(/pattern/g, replacement)] as the script uses it.  A
    string in which the pattern does not occur comes back unchanged.  When the
    replacement holds no dollar sign it is put in verbatim: a string with one
    occurrence of the pattern, [a ++ pattern ++ b], becomes
    [a ++ replacement ++ b]. *)
Theorem replaceAll_single_occurrence :
  forall (pattern replacement a b : jsstring),
    (forall s, BackstopLocal.includes pattern s = false ->
               BackstopLocal.replaceAll pattern replacement s = s)
    /\ (pattern <> [] ->
        forallb (fun c => negb (c =? 36)) replacement = true ->
        startsBefore pattern (List.length a) (a ++ pattern ++ b) = false ->
        BackstopLocal.includes pattern b = false ->
        BackstopLocal.replaceAll pattern replacement (a ++ pattern ++ b)
        = a ++ replacement ++ b).
Proof.
  intros pattern replacement a b. split.
  - intros s H. now apply replaceFrom_none.
  - intros Hp Hplain Ha Hb. unfold BackstopLocal.replaceAll.
    rewrite (replaceFrom_before _ _ _ _ _ Ha). f_equal.
    destruct pattern as [|c p]; [congruence|].
    change ((c :: p) ++ b) with (c :: p ++ b).
    cbn [BackstopLocal.replaceFrom].
    change (c :: p ++ b) with ((c :: p) ++ b). rewrite startsWith_app.
    rewrite (expand_plain _ _ _ _ Hplain). f_equal.
    replace (List.length (c :: p) - 1)%nat with (List.length p) by (simpl; lia).
    rewrite replaceFrom_skip. now apply replaceFrom_none.
Qed.

Lemma replaceAll_single_occurrence_witness :
  BackstopLocal.replaceAll (str "stage--") (str "my-branch--")
    (str "https://stage--site--org.aem.live/page")
  = str "https://my-branch--site--org.aem.live/page".
Proof.
  apply (replaceAll_single_occurrence (str "stage--") (str "my-branch--")
           (str "https://") (str "site--org.aem.live/page"));
    first [ reflexivity | discriminate ].
Defined.

(** ** Operations that print at most *)

Lemma rot_ret {A} (post : A -> Prop) a : post a -> returnsOrThrows post (ret a).
Proof. intros H st. exists []. left. exists a. now rewrite printed_nil. Qed.

Lemma rot_throw {A} (post : A -> Prop) e : returnsOrThrows post (throw e).
Proof. intros st. exists []. right. exists e. now rewrite printed_nil. Qed.

Lemma rot_print (post : unit -> Prop) ch line : post tt -> returnsOrThrows post (print ch line).
Proof. intros H st. exists [(ch, line)]. left. exists tt. auto. Qed.

Lemma rot_bind {A B} (p : A -> Prop) (q : B -> Prop) (m : M A) (k : A -> M B) :
  returnsOrThrows p m ->
  (forall a, p a -> returnsOrThrows q (k a)) ->
  returnsOrThrows q (bind m k).
Proof.
  intros Hm Hk st. destruct (Hm st) as (o1 & [(a & H1 & Ha) | (e & H1)]).
  - destruct (Hk a Ha (printed st o1)) as (o2 & [(b & H2 & Hb) | (e & H2)]);
      exists (o1 ++ o2); rewrite (bind_ret _ _ _ _ _ H1), H2, printed_printed; eauto.
  - exists o1. right. exists e. now apply bind_throw.
Qed.

Lemma rot_weaken {A} (p q : A -> Prop) (m : M A) :
  (forall a, p a -> q a) -> returnsOrThrows p m -> returnsOrThrows q m.
Proof.
  intros Hpq Hm st. destruct (Hm st) as (o & [(a & H & Ha) | (e & H)]); exists o; eauto.
Qed.

Lemma assign_keys k v fields :
  lookup k fields <> None -> map fst (assign k v fields) = map fst fields.
Proof.
  induction fields as [|[k' v'] rest IH]; simpl; [congruence|].
  destruct (JsString.eqb k k') eqn:E; simpl; auto.
  intros H. now rewrite IH.
Qed.

Lemma updatedAt_refl keys x : updatedAt keys x x.
Proof. now left. Qed.

Lemma updatedAt_trans keys x y z :
  updatedAt keys x y -> updatedAt keys y z -> updatedAt keys x z.
Proof.
  intros [->|(f & f' & -> & -> & Hk & Hl)] H; auto.
  destruct H as [->|(g & g' & Hg & -> & Hk' & Hl')].
  - right. exists f, f'. auto.
  - injection Hg as <-. right. exists f, g'. repeat split; auto.
    + congruence.
    + intros k Hn. now rewrite Hl', Hl.
Qed.

Lemma updatedAt_set key keys fields v w :
  In key keys -> lookup key fields = Some v ->
  updatedAt keys (JObj fields) (BackstopLocal.setProperty (JObj fields) key w).
Proof.
  intros Hin Hl. right. exists fields, (assign key w fields). repeat split.
  - apply assign_keys. congruence.
  - intros k Hk. apply lookup_assign_other. intros ->. contradiction.
Qed.

Lemma rot_getProperty v k :
  returnsOrThrows (fun r => match r with
                            | Some w => exists fields, v = JObj fields /\ lookup k fields = Some w
                            | None => True
                            end) (BackstopLocal.getProperty v k).
Proof.
  destruct v; try (apply rot_ret; exact I); try apply rot_throw.
  apply rot_ret. destruct (lookup k fields) eqn:E; eauto.
Qed.

Lemma rot_callIncludes v text :
  returnsOrThrows (fun _ => True) (BackstopLocal.callIncludes v text).
Proof.
  destruct v as [[]|]; try apply rot_throw; now apply rot_ret.
Qed.

Lemma rot_rewriteProperty label key literal guarded pattern obj modified keys :
  In key keys ->
  returnsOrThrows (fun r => updatedAt keys obj (fst r))
    (BackstopLocal.rewriteProperty label key literal guarded pattern obj modified).
Proof.
  intros Hin. unfold BackstopLocal.rewriteProperty.
  destruct (truthy pattern); [|apply rot_ret, updatedAt_refl].
  eapply rot_bind; [apply rot_getProperty|]. intros v Hv. cbv beta in Hv.
  destruct (truthy_value v); [|apply rot_ret, updatedAt_refl].
  eapply rot_bind with (p := fun _ => True).
  { destruct guarded; [apply rot_callIncludes | now apply rot_ret]. }
  intros go _. destruct go; [|apply rot_ret, updatedAt_refl].
  destruct v as [[]|]; try apply rot_throw.
  destruct Hv as (fields & -> & Hl).
  cbv zeta.
  destruct (JsString.eqb _ s); [apply rot_ret, updatedAt_refl|].
  eapply rot_bind with (p := fun _ => True); [now apply rot_print|].
  intros _ _. apply rot_ret. simpl fst. now apply (updatedAt_set key keys fields (JStr s)).
Qed.

Lemma rot_forEach step keys :
  (forall item modified,
     returnsOrThrows (fun r => updatedAt keys item (fst r)) (step item modified)) ->
  forall items modified,
    returnsOrThrows (fun r => Forall2 (updatedAt keys) items (fst r))
      (BackstopLocal.forEach step items modified).
Proof.
  intros Hstep. induction items as [|item rest IH]; intros modified.
  - apply rot_ret. constructor.
  - cbn [BackstopLocal.forEach].
    eapply rot_bind; [apply Hstep|]. intros r Hr.
    eapply rot_bind; [apply IH|]. intros r' Hr'.
    apply rot_ret. now constructor.
Qed.

Lemma rot_two_rewrites l1 k1 t1 g1 p1 l2 k2 t2 g2 p2 keys item modified :
  In k1 keys -> In k2 keys ->
  returnsOrThrows (fun r => updatedAt keys item (fst r))
    (bind (BackstopLocal.rewriteProperty l1 k1 t1 g1 p1 item modified)
          (fun r => BackstopLocal.rewriteProperty l2 k2 t2 g2 p2 (fst r) (snd r))).
Proof.
  intros H1 H2. eapply rot_bind; [now apply (rot_rewriteProperty _ _ _ _ _ _ _ keys)|].
  intros r Hr. eapply rot_weaken; [|now apply (rot_rewriteProperty _ _ _ _ _ _ _ keys)].
  intros r' Hr'. exact (updatedAt_trans _ _ _ _ Hr Hr').
Qed.

(** ** Updating the two configuration files *)

Lemma tryCatch_ret {A} (body : M A) handler st a st' :
  body st = (Ret a, st') -> BackstopLocal.tryCatch body handler st = (Ret a, st').
Proof. unfold BackstopLocal.tryCatch. now intros ->. Qed.

Lemma tryCatch_throw {A} (body : M A) handler st e st' :
  body st = (Throw e, st') -> BackstopLocal.tryCatch body handler st = handler e st'.
Proof. unfold BackstopLocal.tryCatch. now intros ->. Qed.

Lemma tryCatch_exit {A} (body : M A) handler st code st' :
  body st = (Exit code, st') -> BackstopLocal.tryCatch body handler st = (Exit code, st').
Proof. unfold BackstopLocal.tryCatch. now intros ->. Qed.

Lemma rot_forEachIfPresent key step cookies modified :
  (forall item m, returnsOrThrows (fun _ => True) (step item m)) ->
  returnsOrThrows (fun _ => True) (BackstopLocal.forEachIfPresent key step cookies modified).
Proof.
  intros Hstep. unfold BackstopLocal.forEachIfPresent.
  eapply rot_bind with (p := fun _ => True).
  { eapply rot_weaken; [|apply rot_getProperty]. auto. }
  intros v _. destruct (truthy_value v); [|now apply rot_ret].
  destruct v as [[]|]; try apply rot_throw.
  eapply rot_bind with (p := fun _ => True); [|intros; now apply rot_ret].
  clear -Hstep. revert modified. induction items as [|item rest IH]; intros modified.
  - now apply rot_ret.
  - cbn [BackstopLocal.forEach].
    eapply rot_bind; [apply Hstep|]. intros r _.
    eapply rot_bind; [apply IH|]. intros r' _. now apply rot_ret.
Qed.

Lemma rot_any_step l1 k1 t1 g1 p1 l2 k2 t2 g2 p2 item modified :
  returnsOrThrows (fun _ => True)
    (bind (BackstopLocal.rewriteProperty l1 k1 t1 g1 p1 item modified)
          (fun r => BackstopLocal.rewriteProperty l2 k2 t2 g2 p2 (fst r) (snd r))).
Proof.
  eapply rot_weaken; [|apply (rot_two_rewrites _ _ _ _ _ _ _ _ _ _ [k1; k2])];
    simpl; auto.
Qed.

Section Update.

Variables CONFIG BACKUP COOKIES BACKUP_COOKIES : jsstring.
Variable message : error -> jsstring.

Let updateCookies := BackstopLocal.updateCookies COOKIES message.
Let updateConfig := BackstopLocal.updateConfig CONFIG COOKIES message.

(** [updateCookies] returns a boolean; it writes the cookies file, which was
    there and writable, or nothing. *)
Lemma updateCookies_outcome urlPattern refPattern st :
  exists b out w,
    updateCookies urlPattern refPattern st =
    (Ret b, {| console := console st ++ out; files := written COOKIES w (files st) |})
    /\ (w <> None ->
        b = true /\ exists f, files st COOKIES = Some f /\ writable f = true).
Proof.
  unfold updateCookies, BackstopLocal.updateCookies.
  destruct (files st COOKIES) as [[d wr]|] eqn:Hf.
  - assert (He : existsSync COOKIES st = (Ret true, st))
      by (unfold existsSync; now rewrite Hf).
    destruct d as [| |j].
    + exists false. eexists _, None. split; [|congruence].
      erewrite tryCatch_throw.
      2:{ rewrite (bind_ret _ _ _ _ _ He). cbn [negb]. apply bind_throw.
          unfold readDocument. rewrite Hf. reflexivity. }
      reflexivity.
    + exists false. eexists _, None. split; [|congruence].
      erewrite tryCatch_throw.
      2:{ rewrite (bind_ret _ _ _ _ _ He). cbn [negb]. apply bind_throw.
          unfold readDocument. rewrite Hf. reflexivity. }
      reflexivity.
    + assert (Hr : readDocument COOKIES st = (Ret j, st))
        by (unfold readDocument; now rewrite Hf).
      assert (Hrw : returnsOrThrows (fun _ => True)
                (bind (BackstopLocal.forEachIfPresent (str "cookies")
                         (BackstopLocal.cookieStep urlPattern refPattern) j false)
                      (fun r => BackstopLocal.forEachIfPresent (str "origins")
                                  (BackstopLocal.originStep urlPattern refPattern)
                                  (fst r) (snd r)))).
      { eapply rot_bind with (p := fun _ => True).
        - apply rot_forEachIfPresent. intros. apply rot_any_step.
        - intros r _. apply rot_forEachIfPresent. intros. apply rot_any_step. }
      destruct (Hrw st) as (out & [(r & Hrun & _) | (e & Hrun)]).
      * unfold bind in Hrun.
        destruct (BackstopLocal.forEachIfPresent (str "cookies") _ j false st)
          as [[r1|c1|e1] s1] eqn:E1; try discriminate.
        destruct (snd r) eqn:Em.
        -- destruct wr.
           ++ exists true. eexists _, (Some (fst r)). split.
              ** erewrite tryCatch_ret; [reflexivity|].
                 rewrite (bind_ret _ _ _ _ _ He). cbn [negb].
                 rewrite (bind_ret _ _ _ _ _ Hr), (bind_ret _ _ _ _ _ E1),
                   (bind_ret _ _ _ _ _ Hrun), Em.
                 assert (Hw : writeDocument COOKIES (fst r) (printed st out)
                              = (Ret tt, {| console := console (printed st out);
                                            files := written COOKIES (Some (fst r)) (files st) |})).
                 { unfold writeDocument. cbn [files printed]. rewrite Hf. reflexivity. }
                 rewrite (bind_ret _ _ _ _ _ (bind_ret _ _ _ _ _ Hw)).
                 cbn [console printed]. unfold bind, console_log, print, ret.
                 cbn [console files]. rewrite <- app_assoc. reflexivity.
              ** intros _. split; [reflexivity|]. eexists. split; reflexivity.
           ++ exists false. eexists _, None. split; [|congruence].
              erewrite tryCatch_throw.
              2:{ rewrite (bind_ret _ _ _ _ _ He). cbn [negb].
                  rewrite (bind_ret _ _ _ _ _ Hr), (bind_ret _ _ _ _ _ E1),
                    (bind_ret _ _ _ _ _ Hrun), Em.
                  apply bind_throw, bind_throw.
                  unfold writeDocument. cbn [files printed]. rewrite Hf. reflexivity. }
              unfold bind, console_error, print, ret. cbn [console files printed].
              rewrite <- app_assoc. reflexivity.
        -- exists true. eexists _, None. split; [|congruence].
           erewrite tryCatch_ret; [reflexivity|].
           rewrite (bind_ret _ _ _ _ _ He). cbn [negb].
           rewrite (bind_ret _ _ _ _ _ Hr), (bind_ret _ _ _ _ _ E1),
             (bind_ret _ _ _ _ _ Hrun), Em.
           reflexivity.
      * exists false. eexists _, None. split; [|congruence].
        unfold bind in Hrun.
        destruct (BackstopLocal.forEachIfPresent (str "cookies") _ j false st)
          as [[r1|c1|e1] s1] eqn:E1; try discriminate.
        -- destruct (BackstopLocal.forEachIfPresent (str "origins") _ (fst r1) (snd r1) s1)
             as [[r2|c2|e2] s2] eqn:E2; try discriminate.
           injection Hrun as -> ->.
           erewrite tryCatch_throw.
           2:{ rewrite (bind_ret _ _ _ _ _ He). cbn [negb].
               rewrite (bind_ret _ _ _ _ _ Hr), (bind_ret _ _ _ _ _ E1).
               apply bind_throw. exact E2. }
           unfold bind, console_error, print, ret. cbn [console files printed].
           rewrite <- app_assoc. reflexivity.
        -- injection Hrun as -> ->.
           erewrite tryCatch_throw.
           2:{ rewrite (bind_ret _ _ _ _ _ He). cbn [negb].
               rewrite (bind_ret _ _ _ _ _ Hr).
               apply bind_throw. exact E1. }
           unfold bind, console_error, print, ret. cbn [console files printed].
           rewrite <- app_assoc. reflexivity.
  - exists true. eexists _, None. split; [|congruence].
    erewrite tryCatch_ret; [reflexivity|].
    assert (He : existsSync COOKIES st = (Ret false, st))
      by (unfold existsSync; now rewrite Hf).
    rewrite (bind_ret _ _ _ _ _ He). cbn [negb].
    rewrite (bind_ret _ _ _ _ _ (console_log_run _ _)). reflexivity.
Qed.

Lemma bind_bind_throw {A B C} (m : M A) (f : A -> M B) (g : B -> M C) st e st' :
  bind m f st = (Throw e, st') ->
  bind m (fun x => bind (f x) g) st = (Throw e, st').
Proof.
  unfold bind. destruct (m st) as [[a|c|e0] s]; intros H; try discriminate.
  - destruct (f a s) as [[b|c|e0] s']; try discriminate. now injection H as -> ->.
  - now injection H as -> ->.
Qed.

Lemma rot_scenarios urlPattern refPattern items :
  returnsOrThrows
    (fun r => Forall2 (updatedAt [str "url"; str "referenceUrl"]) items (fst r))
    (BackstopLocal.forEach (BackstopLocal.scenarioStep urlPattern refPattern) items false).
Proof.
  apply rot_forEach. intros item modified.
  apply rot_two_rewrites; simpl; auto.
Qed.

(** [updateConfig] returns a boolean.  It writes at most the configuration
    document, with rewritten scenarios, and the cookies file. *)
Lemma updateConfig_outcome urlPattern refPattern st :
  CONFIG <> COOKIES ->
  exists b out w1 w2,
    updateConfig urlPattern refPattern st =
    (Ret b, {| console := console st ++ out;
               files := written COOKIES w2 (written CONFIG w1 (files st)) |})
    /\ (forall j, w1 = Some j ->
          exists fields items items',
            files st CONFIG = Some {| data := Document (JObj fields); writable := true |}
            /\ lookup (str "scenarios") fields = Some (JArr items)
            /\ j = JObj (assign (str "scenarios") (JArr items') fields)
            /\ Forall2 (updatedAt [str "url"; str "referenceUrl"]) items items'
            /\ exists st1,
                 BackstopLocal.forEach (BackstopLocal.scenarioStep urlPattern refPattern)
                   items false st = (Ret (items', true), st1))
    /\ (w2 <> None -> exists f, files st COOKIES = Some f /\ writable f = true).
Proof.
  intros Hne. unfold updateConfig, BackstopLocal.updateConfig.
  destruct (files st CONFIG) as [[d wr]|] eqn:Hf.
  2:{ exists false. eexists _, None, None. split; [|split; congruence].
      erewrite tryCatch_throw;
        [|apply bind_throw; unfold readDocument; rewrite Hf; reflexivity].
      reflexivity. }
  destruct d as [| |j].
  1,2: (exists false; eexists _, None, None; split; [|split; congruence];
        erewrite tryCatch_throw;
        [|apply bind_throw; unfold readDocument; rewrite Hf; reflexivity];
        reflexivity).
  assert (Hr : readDocument CONFIG st = (Ret j, st))
    by (unfold readDocument; now rewrite Hf).
  assert (Hshape : (exists fields items, j = JObj fields
                                         /\ lookup (str "scenarios") fields = Some (JArr items))
                   \/ bind (BackstopLocal.getProperty j (str "scenarios"))
                        (fun scenarios =>
                           match scenarios with
                           | Some (JArr items) =>
                               BackstopLocal.forEach
                                 (BackstopLocal.scenarioStep urlPattern refPattern) items false
                           | _ => throw TypeError
                           end) st = (Throw TypeError, st)).
  { destruct j; try (right; reflexivity).
    destruct (lookup (str "scenarios") fields) as [v|] eqn:El.
    - destruct v; try (right; unfold bind; cbn [BackstopLocal.getProperty ret];
                       rewrite El; reflexivity).
      left. eauto.
    - right. unfold bind. cbn [BackstopLocal.getProperty ret]. rewrite El. reflexivity. }
  destruct Hshape as [(fields & items & -> & Hl) | Hthrow].
  2:{ exists false. eexists _, None, None. split; [|split; congruence].
      erewrite tryCatch_throw.
      2:{ rewrite (bind_ret _ _ _ _ _ Hr). apply bind_bind_throw. exact Hthrow. }
      reflexivity. }
  assert (Hg : BackstopLocal.getProperty (JObj fields) (str "scenarios") st
               = (Ret (Some (JArr items)), st))
    by (cbn [BackstopLocal.getProperty]; now rewrite Hl).
  destruct (rot_scenarios urlPattern refPattern items st)
    as (out & [(r & Hrun & Hall) | (e & Hrun)]).
  2:{ exists false. eexists _, None, None. split; [|split; congruence].
      erewrite tryCatch_throw.
      2:{ rewrite (bind_ret _ _ _ _ _ Hr), (bind_ret _ _ _ _ _ Hg).
          apply bind_throw. exact Hrun. }
      unfold bind, console_error, print, ret. cbn [console files printed].
      rewrite <- app_assoc. reflexivity. }
  destruct (snd r) eqn:Em.
  - destruct wr.
    + set (st1 := {| console := (console st ++ out)
                                ++ [(stdout, [BackstopLocal.tick]
                                             ++ str " Updated backstop.json with new URLs")];
                     files := written CONFIG
                                (Some (JObj (assign (str "scenarios") (JArr (fst r)) fields)))
                                (files st) |}).
      destruct (updateCookies_outcome urlPattern refPattern st1) as (b & o2 & w2 & Hc & Hw2).
      exists b. eexists _, (Some _), w2. split; [|split].
      * erewrite tryCatch_ret; [reflexivity|].
        rewrite (bind_ret _ _ _ _ _ Hr), (bind_ret _ _ _ _ _ Hg), (bind_ret _ _ _ _ _ Hrun).
        rewrite Em.
        assert (Hw : bind (writeDocument CONFIG
                             (BackstopLocal.setProperty (JObj fields) (str "scenarios")
                                (JArr (fst r))))
                          (fun _ => console_log ([BackstopLocal.tick]
                                                 ++ str " Updated backstop.json with new URLs"))
                          (printed st out) = (Ret tt, st1)).
        { unfold bind, writeDocument. cbn [files printed]. rewrite Hf. reflexivity. }
        rewrite (bind_ret _ _ _ _ _ Hw).
        fold updateCookies. rewrite (bind_ret _ _ _ _ _ Hc).
        unfold st1. cbn [console files]. rewrite <- !app_assoc.
        destruct b; reflexivity.
      * intros j0 Hj. injection Hj as <-. exists fields, items, (fst r).
        repeat split; auto. exists (printed st out). rewrite Hrun.
        destruct r as [items' m]. cbn [fst snd] in *. now subst m.
      * intros Hw. destruct (Hw2 Hw) as (_ & f & Hfc & Hwr).
        exists f. split; auto.
        unfold st1 in Hfc. cbn [files written] in Hfc.
        apply eqb_neq in Hne. rewrite (proj2 (eqb_neq COOKIES CONFIG)) in Hfc; auto.
        apply eqb_neq in Hne. congruence.
    + exists false. eexists _, None, None. split; [|split; congruence].
      erewrite tryCatch_throw.
      2:{ rewrite (bind_ret _ _ _ _ _ Hr), (bind_ret _ _ _ _ _ Hg), (bind_ret _ _ _ _ _ Hrun).
          rewrite Em. apply bind_throw, bind_throw.
          unfold writeDocument. cbn [files printed]. rewrite Hf. reflexivity. }
      unfold bind, console_error, print, ret. cbn [console files printed].
      rewrite <- app_assoc. reflexivity.
  - set (st1 := {| console := (console st ++ out)
                              ++ [(stdout, [BackstopLocal.info_sign]
                                           ++ str " No backstop.json URL replacements needed")];
                   files := files st |}).
    destruct (updateCookies_outcome urlPattern refPattern st1) as (b & o2 & w2 & Hc & Hw2).
    exists b. eexists _, None, w2. split; [|split].
    + erewrite tryCatch_ret; [reflexivity|].
      rewrite (bind_ret _ _ _ _ _ Hr), (bind_ret _ _ _ _ _ Hg), (bind_ret _ _ _ _ _ Hrun).
      rewrite Em. rewrite (bind_ret _ _ _ _ _ (console_log_run _ _)).
      fold updateCookies. change (printed (printed st out) _) with st1.
      rewrite (bind_ret _ _ _ _ _ Hc).
      unfold st1. cbn [console files written]. rewrite <- !app_assoc.
      destruct b; reflexivity.
    + congruence.
    + intros Hw. destruct (Hw2 Hw) as (_ & f & Hfc & Hwr). exists f. auto.
Qed.

End Update.

Lemma written_other path w fs p : p <> path -> written path w fs p = fs p.
Proof.
  intros Hp. destruct w; simpl; auto. apply eqb_neq in Hp. now rewrite Hp.
Qed.

Lemma written_same path j fs :
  written path (Some j) fs path
  = Some {| data := Document (reparsed j); writable := true |}.
Proof. simpl. now rewrite eqb_refl. Qed.

(** X14: [updateConfig] always returns a boolean: every failure inside
    it is caught.  It changes no file but the configuration document and the
    cookies file.  When it rewrites the configuration document, the document
    was a writable object with an array of scenarios, and what is written is
    that object with other scenarios only: as many scenarios, each one either
    unchanged or the same object with other values under [url] and
    [referenceUrl].  The file then holds what the written text parses to,
    [reparsed] of that object: in every part of the document a number that
    is not finite has become [null], and [-0] has become [0]. *)
Theorem updateConfig_rewrites_only_urls :
  forall (CONFIG COOKIES : jsstring) (message : error -> jsstring)
         (urlPattern refPattern : option jsstring) (st : State),
    CONFIG <> COOKIES ->
    exists b st',
      BackstopLocal.updateConfig CONFIG COOKIES message urlPattern refPattern st = (Ret b, st')
      /\ (forall p, p <> CONFIG -> p <> COOKIES -> files st' p = files st p)
      /\ (files st' CONFIG = files st CONFIG
          \/ exists fields items items',
               files st CONFIG = Some {| data := Document (JObj fields); writable := true |}
               /\ lookup (str "scenarios") fields = Some (JArr items)
               /\ files st' CONFIG
                  = Some {| data := Document
                                      (reparsed
                                         (JObj (assign (str "scenarios") (JArr items') fields)));
                            writable := true |}
               /\ Forall2 (updatedAt [str "url"; str "referenceUrl"]) items items').
Proof.
  intros CONFIG COOKIES message urlPattern refPattern st Hne.
  destruct (updateConfig_outcome CONFIG COOKIES message urlPattern refPattern st Hne)
    as (b & out & w1 & w2 & H & H1 & _).
  eexists _, _. split; [exact H|]. cbn [files]. split.
  - intros p Hp Hq. now rewrite !written_other.
  - rewrite written_other by assumption.
    destruct w1 as [j|]; [|now left].
    destruct (H1 j eq_refl) as (fields & items & items' & Hf & Hl & -> & Hall & _).
    right. exists fields, items, items'. repeat split; auto. apply written_same.
Qed.

Lemma updateConfig_rewrites_only_urls_witness :
  exists b st',
    BackstopLocal.updateConfig configPath cookiesPath demoMessage
      (Some (str "my-branch--")) None projectState = (Ret b, st')
    /\ (forall p, p <> configPath -> p <> cookiesPath -> files st' p = files projectState p)
    /\ (files st' configPath = files projectState configPath
        \/ exists fields items items',
             files projectState configPath
             = Some {| data := Document (JObj fields); writable := true |}
             /\ lookup (str "scenarios") fields = Some (JArr items)
             /\ files st' configPath
                = Some {| data := Document
                                    (reparsed
                                       (JObj (assign (str "scenarios") (JArr items') fields)));
                          writable := true |}
             /\ Forall2 (updatedAt [str "url"; str "referenceUrl"]) items items').
Proof.
  apply (updateConfig_rewrites_only_urls configPath cookiesPath demoMessage
           (Some (str "my-branch--")) None projectState).
  discriminate.
Defined.

(** ** Running the steps of a script *)

Lemma bind_assoc {A B C} (m : M A) (f : A -> M B) (g : B -> M C) st :
  bind (bind m f) g st = bind m (fun x => bind (f x) g) st.
Proof. unfold bind. now destruct (m st) as [[a|c|e] s]. Qed.

Lemma ret_bind {A B} (a : A) (k : A -> M B) st : bind (ret a) k st = k a st.
Proof. reflexivity. Qed.

Lemma log_bind {B} line (k : unit -> M B) st :
  bind (console_log line) k st = k tt (printed st [(stdout, line)]).
Proof. reflexivity. Qed.

Lemma error_bind {B} line (k : unit -> M B) st :
  bind (console_error line) k st = k tt (printed st [(stderr, line)]).
Proof. reflexivity. Qed.

Ltac flatten :=
  repeat (progress (rewrite ?bind_assoc, ?ret_bind, ?log_bind, ?error_bind;
                    cbn [negb]; cbv beta iota)).

Lemma maybe_log {B} (c : bool) line (k : unit -> M B) st :
  exists out, bind (if c then console_log line else ret tt) k st = k tt (printed st out).
Proof.
  destruct c.
  - exists [(stdout, line)]. reflexivity.
  - exists []. now rewrite printed_nil.
Qed.

Lemma runBackstop_outcome message backstop command st :
  exists r st',
    BackstopLocal.runBackstop message backstop command st = (r, st')
    /\ files st' = snd (backstop command (files st))
    /\ match r with
       | Ret code => fst (backstop command (files st)) = BackstopLocal.Closed code
       | Throw e => fst (backstop command (files st)) = BackstopLocal.Failed e
       | Exit _ => False
       end.
Proof.
  unfold BackstopLocal.runBackstop.
  rewrite (bind_ret _ _ _ _ _ (console_log_run _ _)).
  unfold BackstopLocal.spawnBackstop, bind at 1. cbn [files printed].
  destruct (backstop command (files st)) as [[[[|p]|]|e] left];
    eexists _, _; (split; [reflexivity|]); split; reflexivity.
Qed.

(** ** Backup and restore *)

Section Restore.

Variables CONFIG BACKUP COOKIES BACKUP_COOKIES : jsstring.
Variable message : error -> jsstring.
Variable removes : jsstring -> jsstring -> (jsstring -> option file) -> bool.
Variable backstop : jsstring -> (jsstring -> option file)
                    -> BackstopLocal.spawned * (jsstring -> option file).

Hypothesis distinct : NoDup [CONFIG; BACKUP; COOKIES; BACKUP_COOKIES].

Variable original : file.
Variable cookies : option file.

Hypothesis original_usable : usable original.
Hypothesis cookies_usable : match cookies with Some f => usable f | None => True end.

Let backupConfig := BackstopLocal.backupConfig CONFIG BACKUP COOKIES BACKUP_COOKIES message removes.
Let restoreConfig := BackstopLocal.restoreConfig CONFIG BACKUP COOKIES BACKUP_COOKIES message removes.
Let Armed := armed CONFIG BACKUP COOKIES BACKUP_COOKIES original cookies.

Lemma paths_differ :
  CONFIG <> BACKUP /\ CONFIG <> COOKIES /\ CONFIG <> BACKUP_COOKIES
  /\ BACKUP <> COOKIES /\ BACKUP <> BACKUP_COOKIES /\ COOKIES <> BACKUP_COOKIES.
Proof.
  inversion distinct as [|? ? H1 D1]; subst.
  inversion D1 as [|? ? H2 D2]; subst.
  inversion D2 as [|? ? H3 D3]; subst.
  simpl in *. repeat split; intros E; subst; tauto.
Qed.

Lemma eqb_false_of a b : a <> b -> JsString.eqb a b = false.
Proof. apply eqb_neq. Qed.

Lemma original_eta : {| data := data original; writable := true |} = original.
Proof. destruct original_usable as [_ Hw]. destruct original. simpl in *. now subst. Qed.

Lemma usable_eta f : usable f -> {| data := data f; writable := true |} = f.
Proof. intros [_ Hw]. destruct f. simpl in *. now subst. Qed.

Lemma copy_new src dest f st :
  files st src = Some f -> usable f -> files st dest = None ->
  BackstopLocal.copyFileSync removes src dest st =
  (Ret tt, {| console := console st;
              files := fun p => if JsString.eqb p dest then Some f else files st p |}).
Proof.
  intros Hs Hu Hd. unfold BackstopLocal.copyFileSync. cbv zeta. rewrite Hs, Hd.
  destruct Hu as [Hr Hw]. destruct f as [d w]. simpl in *. subst w.
  destruct d; congruence.
Qed.

Lemma copy_back src dest f st :
  files st src = Some f -> usable f -> restorable f (files st dest) ->
  BackstopLocal.copyFileSync removes src dest st =
  (Ret tt, {| console := console st;
              files := fun p => if JsString.eqb p dest then Some f else files st p |}).
Proof.
  intros Hs Hu Hd. unfold BackstopLocal.copyFileSync. cbv zeta. rewrite Hs.
  assert (Hf := usable_eta f Hu). destruct Hu as [Hr Hw].
  destruct Hd as [Hd | (j & Hd)]; rewrite Hd.
  - destruct f as [d w]. simpl in *. subst w. destruct d; congruence.
  - rewrite Hw, Hf. destruct (data f); congruence.
Qed.

Lemma backup_arms st :
  files st CONFIG = Some original ->
  files st COOKIES = cookies ->
  files st BACKUP = None ->
  files st BACKUP_COOKIES = None ->
  exists st',
    backupConfig st = (Ret true, st')
    /\ Armed (files st')
    /\ forall p, p <> BACKUP -> p <> BACKUP_COOKIES -> files st' p = files st p.
Proof.
  intros Hc Hk Hb Hbk.
  destruct paths_differ as (N1 & N2 & N3 & N4 & N5 & N6).
  unfold backupConfig, BackstopLocal.backupConfig.
  assert (H1 := copy_new CONFIG BACKUP original st Hc original_usable Hb).
  set (st1 := {| console := console st;
                 files := fun p => if JsString.eqb p BACKUP then Some original
                                   else files st p |}) in *.
  assert (Hk1 : files (printed st1 [(stdout, [BackstopLocal.tick]
                                             ++ str " Backed up backstop.json")]) COOKIES
                = cookies).
  { cbn [files printed st1]. now rewrite (eqb_false_of COOKIES BACKUP) by auto. }
  destruct cookies as [f|] eqn:Ek.
  - eexists. split; [|split].
    + erewrite tryCatch_ret; [reflexivity|].
      rewrite (bind_ret _ _ _ _ _ H1), (bind_ret _ _ _ _ _ (console_log_run _ _)).
      assert (He : existsSync COOKIES (printed st1 [(stdout, [BackstopLocal.tick]
                                                            ++ str " Backed up backstop.json")])
                   = (Ret true, printed st1 [(stdout, [BackstopLocal.tick]
                                                      ++ str " Backed up backstop.json")]))
        by (unfold existsSync; now rewrite Hk1).
      rewrite (bind_ret _ _ _ _ _ He).
      assert (Hn : files (printed st1 [(stdout, [BackstopLocal.tick]
                                               ++ str " Backed up backstop.json")])
                     BACKUP_COOKIES = None).
      { cbn [files printed st1]. now rewrite (eqb_false_of BACKUP_COOKIES BACKUP) by auto. }
      assert (H2 := copy_new COOKIES BACKUP_COOKIES f _ Hk1 cookies_usable Hn).
      rewrite (bind_ret _ _ _ _ _ (bind_ret _ _ _ _ _ H2)).
      reflexivity.
    + cbn [files printed st1]. unfold Armed, armed.
      rewrite (eqb_false_of BACKUP BACKUP_COOKIES), eqb_refl by auto.
      rewrite (eqb_false_of CONFIG BACKUP_COOKIES), (eqb_false_of CONFIG BACKUP) by auto.
      rewrite eqb_refl, (eqb_false_of COOKIES BACKUP_COOKIES),
        (eqb_false_of COOKIES BACKUP) by auto.
      split; [reflexivity|]. split; [now left|]. split; [reflexivity|now left].
    + intros p Hp Hq. cbn [files printed st1].
      now rewrite (eqb_false_of p BACKUP_COOKIES), (eqb_false_of p BACKUP) by auto.
  - eexists. split; [|split].
    + erewrite tryCatch_ret; [reflexivity|].
      rewrite (bind_ret _ _ _ _ _ H1), (bind_ret _ _ _ _ _ (console_log_run _ _)).
      assert (He : existsSync COOKIES (printed st1 [(stdout, [BackstopLocal.tick]
                                                            ++ str " Backed up backstop.json")])
                   = (Ret false, printed st1 [(stdout, [BackstopLocal.tick]
                                                       ++ str " Backed up backstop.json")]))
        by (unfold existsSync; now rewrite Hk1).
      rewrite (bind_ret _ _ _ _ _ He). reflexivity.
    + cbn [files printed st1]. unfold Armed, armed.
      rewrite eqb_refl, (eqb_false_of CONFIG BACKUP),
        (eqb_false_of BACKUP_COOKIES BACKUP), (eqb_false_of COOKIES BACKUP) by auto.
      split; [reflexivity|]. split; [now left|]. split; assumption.
    + intros p Hp Hq. cbn [files printed st1]. now rewrite (eqb_false_of p BACKUP) by auto.
Qed.

Lemma restore_restores st :
  Armed (files st) ->
  exists st',
    restoreConfig st = (Ret tt, st')
    /\ files st' CONFIG = Some original
    /\ files st' COOKIES = cookies
    /\ files st' BACKUP = None
    /\ files st' BACKUP_COOKIES = None
    /\ forall p, p <> CONFIG -> p <> BACKUP -> p <> COOKIES -> p <> BACKUP_COOKIES ->
                 files st' p = files st p.
Proof.
  intros (Hb & Hc & Hk).
  destruct paths_differ as (N1 & N2 & N3 & N4 & N5 & N6).
  unfold restoreConfig, BackstopLocal.restoreConfig.
  assert (He : existsSync BACKUP st = (Ret true, st))
    by (unfold existsSync; now rewrite Hb).
  assert (H1 := copy_back BACKUP CONFIG original st Hb original_usable Hc).
  set (st1 := {| console := console st;
                 files := fun p => if JsString.eqb p CONFIG then Some original
                                   else files st p |}) in *.
  assert (Hu : BackstopLocal.unlinkSync BACKUP st1 =
               (Ret tt, {| console := console st1;
                           files := fun p => if JsString.eqb p BACKUP then None
                                             else files st1 p |})).
  { unfold BackstopLocal.unlinkSync. cbn [files st1].
    now rewrite (eqb_false_of BACKUP CONFIG), Hb by auto. }
  set (st2 := {| console := console st1;
                 files := fun p => if JsString.eqb p BACKUP then None else files st1 p |}) in *.
  set (st3 := printed st2 [(stdout, [BackstopLocal.tick]
                                    ++ str " Restored original backstop.json")]).
  assert (Hfirst : bind (BackstopLocal.copyFileSync removes BACKUP CONFIG)
                     (fun _ => bind (BackstopLocal.unlinkSync BACKUP)
                                 (fun _ => console_log ([BackstopLocal.tick]
                                             ++ str " Restored original backstop.json"))) st
                   = (Ret tt, st3)).
  { now rewrite (bind_ret _ _ _ _ _ H1), (bind_ret _ _ _ _ _ Hu). }
  assert (F3 : forall p, files st3 p =
                         if JsString.eqb p BACKUP then None
                         else if JsString.eqb p CONFIG then Some original else files st p)
    by reflexivity.
  destruct cookies as [f|] eqn:Ek.
  - destruct Hk as [Hbk Hck].
    assert (He2 : existsSync BACKUP_COOKIES st3 = (Ret true, st3)).
    { unfold existsSync. rewrite F3.
      now rewrite (eqb_false_of BACKUP_COOKIES BACKUP), (eqb_false_of BACKUP_COOKIES CONFIG),
        Hbk by auto. }
    assert (S3 : files st3 BACKUP_COOKIES = Some f).
    { rewrite F3. now rewrite (eqb_false_of BACKUP_COOKIES BACKUP),
                    (eqb_false_of BACKUP_COOKIES CONFIG) by auto. }
    assert (T3 : restorable f (files st3 COOKIES)).
    { rewrite F3. now rewrite (eqb_false_of COOKIES BACKUP), (eqb_false_of COOKIES CONFIG)
        by auto. }
    assert (H2 := copy_back BACKUP_COOKIES COOKIES f st3 S3
                    cookies_usable T3).
    set (st4 := {| console := console st3;
                   files := fun p => if JsString.eqb p COOKIES then Some f
                                     else files st3 p |}) in *.
    assert (Hu2 : BackstopLocal.unlinkSync BACKUP_COOKIES st4 =
                  (Ret tt, {| console := console st4;
                              files := fun p => if JsString.eqb p BACKUP_COOKIES then None
                                                else files st4 p |})).
    { unfold BackstopLocal.unlinkSync. cbn [files st4].
      now rewrite (eqb_false_of BACKUP_COOKIES COOKIES), S3 by auto. }
    eexists. split; [|split; [|split; [|split; [|split]]]].
    + erewrite tryCatch_ret; [reflexivity|].
      rewrite (bind_ret _ _ _ _ _ He), (bind_ret _ _ _ _ _ Hfirst),
        (bind_ret _ _ _ _ _ He2), (bind_ret _ _ _ _ _ H2), (bind_ret _ _ _ _ _ Hu2).
      rewrite console_log_run. reflexivity.
    + cbn [files printed st4]. rewrite F3.
      now rewrite (eqb_false_of CONFIG BACKUP_COOKIES), (eqb_false_of CONFIG COOKIES),
        (eqb_false_of CONFIG BACKUP), eqb_refl by auto.
    + cbn [files printed st4].
      now rewrite (eqb_false_of COOKIES BACKUP_COOKIES), eqb_refl by auto.
    + cbn [files printed st4]. rewrite F3.
      now rewrite (eqb_false_of BACKUP BACKUP_COOKIES), (eqb_false_of BACKUP COOKIES),
        eqb_refl by auto.
    + cbn [files printed st4]. now rewrite eqb_refl.
    + intros p P1 P2 P3 P4. cbn [files printed st4]. rewrite F3.
      now rewrite (eqb_false_of p BACKUP_COOKIES), (eqb_false_of p COOKIES),
        (eqb_false_of p BACKUP), (eqb_false_of p CONFIG) by auto.
  - destruct Hk as [Hbk Hck].
    assert (He2 : existsSync BACKUP_COOKIES st3 = (Ret false, st3)).
    { unfold existsSync. rewrite F3.
      now rewrite (eqb_false_of BACKUP_COOKIES BACKUP), (eqb_false_of BACKUP_COOKIES CONFIG),
        Hbk by auto. }
    eexists. split; [|split; [|split; [|split; [|split]]]].
    + erewrite tryCatch_ret; [reflexivity|].
      rewrite (bind_ret _ _ _ _ _ He), (bind_ret _ _ _ _ _ Hfirst),
        (bind_ret _ _ _ _ _ He2). reflexivity.
    + rewrite F3. now rewrite (eqb_false_of CONFIG BACKUP), eqb_refl by auto.
    + rewrite F3. now rewrite (eqb_false_of COOKIES BACKUP), (eqb_false_of COOKIES CONFIG)
        by auto.
    + rewrite F3. now rewrite eqb_refl.
    + rewrite F3. now rewrite (eqb_false_of BACKUP_COOKIES BACKUP),
                    (eqb_false_of BACKUP_COOKIES CONFIG) by auto.
    + intros p P1 P2 P3 P4. rewrite F3.
      now rewrite (eqb_false_of p BACKUP), (eqb_false_of p CONFIG) by auto.
Qed.

Hypothesis child_keeps : forall command fs p,
  In p [CONFIG; BACKUP; COOKIES; BACKUP_COOKIES] -> snd (backstop command fs) p = fs p.

Let updateConfig := BackstopLocal.updateConfig CONFIG COOKIES message.
Let main := BackstopLocal.main CONFIG BACKUP COOKIES BACKUP_COOKIES message removes backstop.

Lemma update_keeps urlPattern refPattern st :
  Armed (files st) ->
  exists b st', updateConfig urlPattern refPattern st = (Ret b, st') /\ Armed (files st').
Proof.
  intros (Hb & Hc & Hk).
  destruct paths_differ as (N1 & N2 & N3 & N4 & N5 & N6).
  destruct (updateConfig_outcome CONFIG COOKIES message urlPattern refPattern st N2)
    as (b & out & w1 & w2 & E & H1 & H2).
  exists b. eexists. split; [exact E|]. cbn [files]. unfold Armed, armed.
  split; [|split].
  - rewrite !written_other by congruence. exact Hb.
  - rewrite written_other by congruence. destruct w1 as [j|].
    + rewrite written_same. right. eauto.
    + exact Hc.
  - destruct cookies as [f|]; destruct Hk as [Hbk Hck].
    + split; [rewrite !written_other by congruence; exact Hbk|].
      destruct w2 as [j|].
      * rewrite written_same. right. eauto.
      * cbn [written]. rewrite written_other by congruence. exact Hck.
    + destruct w2 as [j|].
      * destruct H2 as (f & Hf & _); [discriminate|]. congruence.
      * cbn [written]. split; rewrite written_other by congruence; assumption.
Qed.

Lemma child_armed command fs : Armed fs -> Armed (snd (backstop command fs)).
Proof.
  unfold Armed, armed. intros (Hb & Hc & Hk).
  rewrite !child_keeps by (simpl; auto). destruct cookies; auto.
Qed.

Lemma main_restores args st :
  files st CONFIG = Some original ->
  files st COOKIES = cookies ->
  files st BACKUP = None ->
  files st BACKUP_COOKIES = None ->
  exists code st',
    main args st = (Exit code, st')
    /\ files st' CONFIG = Some original
    /\ files st' COOKIES = cookies
    /\ files st' BACKUP = None
    /\ files st' BACKUP_COOKIES = None.
Proof.
  intros Hc Hk Hb Hbk.
  unfold main, BackstopLocal.main, BackstopLocal.parseArgs.
  assert (Hp := parseLoop_outcome (List.length args) args
                  {| BackstopLocal.command := str "test";
                     BackstopLocal.urlPattern := None;
                     BackstopLocal.refPattern := None |} st (le_n _)).
  destruct (BackstopLocal.parseLoop _ args st) as [[config|code|e] s0] eqn:Ep.
  - destruct Hp as [-> _]; [simpl; auto|].
    rewrite (bind_ret _ _ _ _ _ Ep).
    rewrite !log_bind.
    match goal with
    | |- context [bind (if ?c then console_log ?l else ret tt) ?k ?s] =>
        destruct (maybe_log c l k s) as [out1 E1]; rewrite E1; clear E1
    end.
    match goal with
    | |- context [bind (if ?c then console_log ?l else ret tt) ?k ?s] =>
        destruct (maybe_log c l k s) as [out2 E2]; rewrite E2; clear E2
    end.
    rewrite !printed_printed. cbv zeta.
    set (s := printed st _).
    destruct (truthy (BackstopLocal.urlPattern config)
              || truthy (BackstopLocal.refPattern config)); cbv iota.
    + assert (HK : forall c s', Armed (files s') ->
                exists st',
                  bind (bind (console_log ([LF] ++ BackstopLocal.arrows_circle
                                           ++ str " Cleaning up..."))
                          (fun _ => restoreConfig))
                    (fun _ => bind (console_log ([LF] ++ [BackstopLocal.sparkles]
                                                 ++ str " Done!"))
                                (fun _ => @process_exit unit (BackstopLocal.exitStatus c))) s'
                  = (Exit (BackstopLocal.exitStatus c), st')
                  /\ files st' CONFIG = Some original
                  /\ files st' COOKIES = cookies
                  /\ files st' BACKUP = None
                  /\ files st' BACKUP_COOKIES = None).
      { intros c s' A.
        destruct (restore_restores (printed s' [(stdout, [LF] ++ BackstopLocal.arrows_circle
                                                          ++ str " Cleaning up...")]) A)
          as (s'' & Er & R1 & R2 & R3 & R4 & _).
        rewrite bind_assoc, log_bind, (bind_ret _ _ _ _ _ Er), log_bind.
        eexists. split; [reflexivity|]. cbn [files printed]. auto. }
      destruct (backup_arms s Hc Hk Hb Hbk) as (s1 & E1 & A1 & _).
      destruct (update_keeps (BackstopLocal.urlPattern config)
                  (BackstopLocal.refPattern config)
                  (printed s1 [(stdout, [LF] ++ BackstopLocal.memo
                                        ++ str " Updating configuration...")]) A1)
        as (b & s3 & Eu & A3).
      unfold backupConfig in E1. unfold updateConfig in Eu.
      destruct b.
      * destruct (runBackstop_outcome message backstop (BackstopLocal.command config) s3)
          as (r & s5 & Er & Hf & Hr).
        assert (A5 : Armed (files s5)) by (rewrite Hf; apply child_armed; exact A3).
        match goal with
        | |- context [bind (BackstopLocal.tryCatch ?body ?h) ?K s] =>
            assert (Eb : body s = (r, s5))
        end.
        { flatten. rewrite (bind_ret _ _ _ _ _ E1). flatten.
          rewrite (bind_ret _ _ _ _ _ Eu). flatten. exact Er. }
        destruct r as [c|code|e]; [| contradiction |].
        -- rewrite (bind_ret _ _ _ _ _ (tryCatch_ret _ _ _ _ _ Eb)).
           destruct (HK c s5 A5) as (st' & E & R). eauto.
        -- erewrite bind_ret;
             [|erewrite tryCatch_throw; [|exact Eb]; rewrite error_bind; reflexivity].
           destruct (HK (Some 1) (printed s5 [(stderr, [BackstopLocal.ballot]
                                                       ++ str " Unexpected error: "
                                                       ++ message e)]) A5)
             as (st' & E & R). eauto.
      * destruct (restore_restores s3 A3) as (s4 & Er & R1 & R2 & R3 & R4 & _).
        unfold restoreConfig in Er.
        exists 1%Z, s4. split; [|auto].
        apply bind_exit, tryCatch_exit.
        flatten. rewrite (bind_ret _ _ _ _ _ E1). flatten.
        rewrite (bind_ret _ _ _ _ _ Eu). flatten.
        rewrite (bind_ret _ _ _ _ _ Er). reflexivity.
    + destruct (runBackstop_outcome message backstop (BackstopLocal.command config) s)
        as (r & s5 & Er & Hf & Hr).
      assert (R : files s5 CONFIG = Some original /\ files s5 COOKIES = cookies
                  /\ files s5 BACKUP = None /\ files s5 BACKUP_COOKIES = None).
      { rewrite Hf, !child_keeps by (simpl; auto). auto. }
      assert (Eb : bind (ret tt)
                     (fun _ => BackstopLocal.runBackstop message backstop
                                 (BackstopLocal.command config)) s = (r, s5)) by exact Er.
      destruct r as [c|code|e]; [| contradiction |].
      * rewrite (bind_ret _ _ _ _ _ (tryCatch_ret _ _ _ _ _ Eb)).
        flatten. eexists _, _. split; [reflexivity|exact R].
      * erewrite bind_ret;
          [|erewrite tryCatch_throw; [|exact Eb]; rewrite error_bind; reflexivity].
        flatten. eexists _, _. split; [reflexivity|exact R].
  - destruct Hp as (-> & -> & _); [simpl; auto|].
    exists 0%Z. eexists. split; [apply bind_exit; exact Ep|]. cbn [files printed]. auto.
  - exfalso. apply Hp. simpl. auto.
Qed.

End Restore.

(** X15: a run of the local runner leaves the project as it found it.
    The four paths differ, the configuration document can be read and
    written, so can the cookies file when there is one, no backup is there
    yet, and the child process leaves the four files alone.  Then for every
    command line and whatever the documents hold, [main] ends the process
    with the configuration document and the cookies file as they were at the
    start, and with no backup left. *)
Theorem main_leaves_the_project_as_it_found_it :
  forall (CONFIG BACKUP COOKIES BACKUP_COOKIES : jsstring) (message : error -> jsstring)
         (removes : jsstring -> jsstring -> (jsstring -> option file) -> bool)
         (backstop : jsstring -> (jsstring -> option file)
                     -> BackstopLocal.spawned * (jsstring -> option file))
         (args : list jsstring) (st : State) (original : file),
    NoDup [CONFIG; BACKUP; COOKIES; BACKUP_COOKIES] ->
    files st CONFIG = Some original ->
    usable original ->
    match files st COOKIES with Some f => usable f | None => True end ->
    files st BACKUP = None ->
    files st BACKUP_COOKIES = None ->
    (forall command fs p,
        In p [CONFIG; BACKUP; COOKIES; BACKUP_COOKIES] -> snd (backstop command fs) p = fs p) ->
    exists code st',
      BackstopLocal.main CONFIG BACKUP COOKIES BACKUP_COOKIES message removes backstop args st
      = (Exit code, st')
      /\ files st' CONFIG = files st CONFIG
      /\ files st' COOKIES = files st COOKIES
      /\ files st' BACKUP = None
      /\ files st' BACKUP_COOKIES = None.
Proof.
  intros CONFIG BACKUP COOKIES BACKUP_COOKIES message removes backstop args st original
         Hd Hc Hu Hk Hb Hbk Hchild.
  rewrite Hc.
  apply (main_restores CONFIG BACKUP COOKIES BACKUP_COOKIES message removes backstop Hd
           original (files st COOKIES) Hu Hk Hchild args st Hc eq_refl Hb Hbk).
Qed.

Lemma main_leaves_the_project_as_it_found_it_witness :
  exists code st',
    BackstopLocal.main configPath configBackupPath cookiesPath cookiesBackupPath
      demoMessage demoRemoves demoBackstop [str "--url"; str "my-branch--"] projectState
    = (Exit code, st')
    /\ files st' configPath = files projectState configPath
    /\ files st' cookiesPath = files projectState cookiesPath
    /\ files st' configBackupPath = None
    /\ files st' cookiesBackupPath = None.
Proof.
  apply (main_leaves_the_project_as_it_found_it
           configPath configBackupPath cookiesPath cookiesBackupPath
           demoMessage demoRemoves demoBackstop [str "--url"; str "my-branch--"] projectState
           {| data := Document stageConfig; writable := true |}).
  - repeat constructor; simpl; intuition discriminate.
  - reflexivity.
  - split; [discriminate | reflexivity].
  - exact I.
  - reflexivity.
  - reflexivity.
  - intros command fs p Hp. simpl in Hp.
    destruct Hp as [<-|[<-|[<-|[<-|[]]]]]; reflexivity.
Defined.

(** ** How a run ends *)

Lemma ne_ret {A} (a : A) : neverExits (ret a).
Proof. intros st. exists (Ret a), st. split; [reflexivity | discriminate]. Qed.

Lemma ne_throw {A} e : neverExits (@throw A e).
Proof. intros st. exists (Throw e), st. split; [reflexivity | discriminate]. Qed.

Lemma ne_print ch line : neverExits (print ch line).
Proof. intros st. eexists (Ret tt), _. split; [reflexivity | discriminate]. Qed.

Lemma ne_bind {A B} (m : M A) (k : A -> M B) :
  neverExits m -> (forall a, neverExits (k a)) -> neverExits (bind m k).
Proof.
  intros Hm Hk st. destruct (Hm st) as (r & s & E & Hr). unfold bind. rewrite E.
  destruct r as [a|code|e].
  - apply Hk.
  - now destruct (Hr code).
  - exists (Throw e), s. split; [reflexivity | discriminate].
Qed.

Lemma ne_returns {A} (m : M A) : alwaysReturns m -> neverExits m.
Proof.
  intros H st. destruct (H st) as (a & s & E). exists (Ret a), s.
  split; [exact E | discriminate].
Qed.

Lemma ne_rot {A} (post : A -> Prop) (m : M A) : returnsOrThrows post m -> neverExits m.
Proof.
  intros H st. destruct (H st) as (out & [(a & E & _) | (e & E)]).
  - exists (Ret a), (printed st out). split; [exact E | discriminate].
  - exists (Throw e), (printed st out). split; [exact E | discriminate].
Qed.

Lemma returns_tryCatch {A} (body : M A) handler :
  neverExits body -> (forall e, alwaysReturns (handler e)) ->
  alwaysReturns (BackstopLocal.tryCatch body handler).
Proof.
  intros Hb Hh st. destruct (Hb st) as (r & s & E & Hr).
  unfold BackstopLocal.tryCatch. rewrite E. destruct r as [a|code|e].
  - eauto.
  - now destruct (Hr code).
  - apply Hh.
Qed.

Lemma ne_existsSync path : neverExits (existsSync path).
Proof. intros st. eexists (Ret _), _. split; [reflexivity | discriminate]. Qed.

Lemma ne_readDocument path : neverExits (readDocument path).
Proof.
  intros st. unfold readDocument.
  destruct (files st path) as [[[| |j] w]|];
    eexists _, _; (split; [reflexivity | discriminate]).
Qed.

Lemma ne_writeDocument path j : neverExits (writeDocument path j).
Proof.
  intros st. unfold writeDocument.
  destruct (files st path) as [[d [|]]|];
    eexists _, _; (split; [reflexivity | discriminate]).
Qed.

Lemma ne_copyFileSync removes src dest :
  neverExits (BackstopLocal.copyFileSync removes src dest).
Proof.
  intros st. unfold BackstopLocal.copyFileSync. cbv zeta.
  destruct (files st src) as [[[| |j] w]|]; cbn [data];
    try (eexists _, _; (split; [reflexivity | discriminate]));
    destruct (files st dest) as [[d' [|]]|];
    eexists _, _; (split; [reflexivity | discriminate]).
Qed.

Lemma ne_unlinkSync path : neverExits (BackstopLocal.unlinkSync path).
Proof.
  intros st. unfold BackstopLocal.unlinkSync.
  destruct (files st path); eexists _, _; (split; [reflexivity | discriminate]).
Qed.

Lemma returns_log_then {A} ch line (a : A) :
  alwaysReturns (bind (print ch line) (fun _ => ret a)).
Proof. intros st. eexists _, _. reflexivity. Qed.

Ltac never_exits :=
  repeat first
    [ apply ne_ret | apply ne_throw | apply ne_print
    | apply ne_existsSync | apply ne_readDocument | apply ne_writeDocument
    | apply ne_copyFileSync | apply ne_unlinkSync
    | apply ne_bind; [|intros ?]
    | match goal with
      | |- neverExits (if ?c then _ else _) => destruct c
      | |- neverExits (match ?x with _ => _ end) => destruct x
      end ].

Section Exits.

Variables CONFIG BACKUP COOKIES BACKUP_COOKIES : jsstring.
Variable message : error -> jsstring.
Variable removes : jsstring -> jsstring -> (jsstring -> option file) -> bool.
Variable backstop : jsstring -> (jsstring -> option file)
                    -> BackstopLocal.spawned * (jsstring -> option file).

Lemma backupConfig_returns :
  alwaysReturns (BackstopLocal.backupConfig CONFIG BACKUP COOKIES BACKUP_COOKIES message removes).
Proof.
  apply returns_tryCatch; [|intros e; apply returns_log_then].
  unfold console_log. never_exits.
Qed.

Lemma restoreConfig_returns :
  alwaysReturns (BackstopLocal.restoreConfig CONFIG BACKUP COOKIES BACKUP_COOKIES message removes).
Proof.
  apply returns_tryCatch.
  - unfold console_log. never_exits.
  - intros e st. eexists _, _. reflexivity.
Qed.

Lemma updateCookies_returns urlPattern refPattern :
  alwaysReturns (BackstopLocal.updateCookies COOKIES message urlPattern refPattern).
Proof.
  apply returns_tryCatch; [|intros e; apply returns_log_then].
  unfold console_log.
  apply ne_bind; [apply ne_existsSync|]. intros found.
  destruct found; cbn [negb]; [|never_exits].
  apply ne_bind; [apply ne_readDocument|]. intros cookies.
  apply ne_bind.
  { eapply ne_rot, rot_forEachIfPresent. intros item m. apply rot_any_step. }
  intros r. apply ne_bind.
  { eapply ne_rot, rot_forEachIfPresent. intros item m. apply rot_any_step. }
  intros r'. never_exits.
Qed.

Lemma updateConfig_returns urlPattern refPattern :
  alwaysReturns (BackstopLocal.updateConfig CONFIG COOKIES message urlPattern refPattern).
Proof.
  apply returns_tryCatch; [|intros e; apply returns_log_then].
  unfold console_log.
  apply ne_bind; [apply ne_readDocument|]. intros config.
  apply ne_bind; [eapply ne_rot, rot_getProperty|]. intros scenarios.
  apply ne_bind.
  { destruct scenarios as [[]|]; try apply ne_throw. eapply ne_rot, rot_scenarios. }
  intros r. apply ne_bind; [never_exits|]. intros _.
  apply ne_bind; [apply ne_returns, updateCookies_returns|]. intros updated.
  never_exits.
Qed.

Lemma main_exits args st :
  exists code st',
    BackstopLocal.main CONFIG BACKUP COOKIES BACKUP_COOKIES message removes backstop args st
    = (Exit code, st')
    /\ ((code = 0%Z /\ In (str "--help") args)
        \/ code = 1%Z
        \/ exists command fs closed,
             In command BackstopLocal.commands
             /\ fst (backstop command fs) = BackstopLocal.Closed closed
             /\ code = BackstopLocal.exitStatus closed).
Proof.
  unfold BackstopLocal.main, BackstopLocal.parseArgs.
  assert (Hp := parseLoop_outcome (List.length args) args
                  {| BackstopLocal.command := str "test";
                     BackstopLocal.urlPattern := None;
                     BackstopLocal.refPattern := None |} st (le_n _)).
  destruct (BackstopLocal.parseLoop _ args st) as [[config|code|e] s0] eqn:Ep.
  - destruct Hp as [-> Hcmd]; [simpl; auto|].
    rewrite (bind_ret _ _ _ _ _ Ep).
    rewrite !log_bind.
    match goal with
    | |- context [bind (if ?c then console_log ?l else ret tt) ?k ?s] =>
        destruct (maybe_log c l k s) as [out1 E1]; rewrite E1; clear E1
    end.
    match goal with
    | |- context [bind (if ?c then console_log ?l else ret tt) ?k ?s] =>
        destruct (maybe_log c l k s) as [out2 E2]; rewrite E2; clear E2
    end.
    rewrite !printed_printed. cbv zeta.
    set (s := printed st _).
    assert (Hrun : forall s3 (K : option N -> M unit),
               (forall c s', exists st', K c s' = (Exit (BackstopLocal.exitStatus c), st')) ->
               forall body,
                 body s = BackstopLocal.runBackstop message backstop
                            (BackstopLocal.command config) s3 ->
                 exists code st',
                   bind (BackstopLocal.tryCatch body
                           (fun e => bind (console_error
                                             ([BackstopLocal.ballot]
                                              ++ str " Unexpected error: " ++ message e))
                                       (fun _ => ret (Some 1)))) K s
                   = (Exit code, st')
                   /\ ((code = 0%Z /\ In (str "--help") args)
                       \/ code = 1%Z
                       \/ exists command fs closed,
                            In command BackstopLocal.commands
                            /\ fst (backstop command fs) = BackstopLocal.Closed closed
                            /\ code = BackstopLocal.exitStatus closed)).
    { intros s3 K HK body Eb.
      destruct (runBackstop_outcome message backstop (BackstopLocal.command config) s3)
        as (r & s5 & Er & Hf & Hr).
      rewrite Er in Eb.
      destruct r as [c|code|e]; [| contradiction |].
      - rewrite (bind_ret _ _ _ _ _ (tryCatch_ret _ _ _ _ _ Eb)).
        destruct (HK c s5) as (st' & E). exists (BackstopLocal.exitStatus c), st'.
        split; [exact E|]. right. right. eauto 6.
      - erewrite bind_ret;
          [|erewrite tryCatch_throw; [|exact Eb]; rewrite error_bind; reflexivity].
        destruct (HK (Some 1) (printed s5 [(stderr, [BackstopLocal.ballot]
                                                    ++ str " Unexpected error: "
                                                    ++ message e)])) as (st' & E).
        exists 1%Z, st'. split; [exact E|]. auto. }
    destruct (truthy (BackstopLocal.urlPattern config)
              || truthy (BackstopLocal.refPattern config)); cbv iota.
    + destruct (backupConfig_returns s) as (saved & s1 & E1).
      destruct (updateConfig_returns (BackstopLocal.urlPattern config)
                  (BackstopLocal.refPattern config)
                  (printed s1 [(stdout, [LF] ++ BackstopLocal.memo
                                        ++ str " Updating configuration...")]))
        as (updated & s3 & Eu).
      destruct saved.
      * destruct updated.
        -- apply (Hrun s3).
           ++ intros c s'.
              destruct (restoreConfig_returns
                          (printed s' [(stdout, [LF] ++ BackstopLocal.arrows_circle
                                                ++ str " Cleaning up...")]))
                as ([] & s'' & Er).
              flatten. rewrite (bind_ret _ _ _ _ _ Er). flatten. eexists. reflexivity.
           ++ flatten. rewrite (bind_ret _ _ _ _ _ E1). flatten.
              rewrite (bind_ret _ _ _ _ _ Eu). flatten. reflexivity.
        -- destruct (restoreConfig_returns s3) as ([] & s4 & Er).
           exists 1%Z, s4. split; [|auto].
           apply bind_exit, tryCatch_exit.
           flatten. rewrite (bind_ret _ _ _ _ _ E1). flatten.
           rewrite (bind_ret _ _ _ _ _ Eu). flatten.
           rewrite (bind_ret _ _ _ _ _ Er). reflexivity.
      * exists 1%Z, s1. split; [|auto].
        apply bind_exit, tryCatch_exit.
        flatten. rewrite (bind_ret _ _ _ _ _ E1). flatten. reflexivity.
    + apply (Hrun s).
      * intros c s'. flatten. eexists. reflexivity.
      * reflexivity.
  - destruct Hp as (-> & -> & Hin); [simpl; auto|].
    exists 0%Z. eexists. split; [apply bind_exit; exact Ep|]. auto.
  - exfalso. apply Hp. simpl. auto.
Qed.

End Exits.

(** X16: every run of the local runner ends in [process.exit].  On no
    command line, file system and child process does [main] return or let an
    exception escape: every failure of a file operation, of the documents'
    shape or of the child process is caught.  The exit code is 0 after
    [--help], or 1, or the status with which a child process closed that ran
    one of the four commands. *)
Theorem main_always_exits :
  forall (CONFIG BACKUP COOKIES BACKUP_COOKIES : jsstring) (message : error -> jsstring)
         (removes : jsstring -> jsstring -> (jsstring -> option file) -> bool)
         (backstop : jsstring -> (jsstring -> option file)
                     -> BackstopLocal.spawned * (jsstring -> option file))
         (args : list jsstring) (st : State),
    exists code st',
      BackstopLocal.main CONFIG BACKUP COOKIES BACKUP_COOKIES message removes backstop args st
      = (Exit code, st')
      /\ ((code = 0%Z /\ In (str "--help") args)
          \/ code = 1%Z
          \/ exists command fs closed,
               In command [str "reference"; str "test"; str "approve"; str "report"]
               /\ fst (backstop command fs) = BackstopLocal.Closed closed
               /\ code = BackstopLocal.exitStatus closed).
Proof.
  intros. apply main_exits.
Qed.

(** X17: a run without patterns changes no file itself.  When the
    command line gives a configuration without a pattern that counts (none,
    or an empty one), [main] makes no backup and rewrites nothing: the files
    at its end are those the child process left, and the exit code is the
    status with which the child closed (0 when a signal ended it), or 1 when
    the child could not be run. *)
Theorem main_without_patterns_changes_no_file :
  forall (CONFIG BACKUP COOKIES BACKUP_COOKIES : jsstring) (message : error -> jsstring)
         (removes : jsstring -> jsstring -> (jsstring -> option file) -> bool)
         (backstop : jsstring -> (jsstring -> option file)
                     -> BackstopLocal.spawned * (jsstring -> option file))
         (args : list jsstring) (st : State) (config : BackstopLocal.Config),
    BackstopLocal.parseArgs args st = (Ret config, st) ->
    truthy (BackstopLocal.urlPattern config) = false ->
    truthy (BackstopLocal.refPattern config) = false ->
    exists st',
      BackstopLocal.main CONFIG BACKUP COOKIES BACKUP_COOKIES message removes backstop args st
      = (Exit (match fst (backstop (BackstopLocal.command config) (files st)) with
               | BackstopLocal.Closed closed => BackstopLocal.exitStatus closed
               | BackstopLocal.Failed _ => 1%Z
               end), st')
      /\ files st' = snd (backstop (BackstopLocal.command config) (files st)).
Proof.
  intros CONFIG BACKUP COOKIES BACKUP_COOKIES message removes backstop args st config Ep Hu Hr.
  unfold BackstopLocal.main.
  rewrite (bind_ret _ _ _ _ _ Ep). rewrite Hu, Hr. cbn [orb]. flatten.
  set (s := printed _ _).
  destruct (runBackstop_outcome message backstop (BackstopLocal.command config) s)
    as (r & s5 & Er & Hf & Hres).
  assert (Eb : bind (ret tt)
                 (fun _ => BackstopLocal.runBackstop message backstop
                             (BackstopLocal.command config)) s = (r, s5)) by exact Er.
  cbn [files printed s] in Hf, Hres.
  destruct r as [c|code|e]; [| contradiction |].
  - rewrite (bind_ret _ _ _ _ _ (tryCatch_ret _ _ _ _ _ Eb)). flatten.
    rewrite Hres. eexists. split; [reflexivity|exact Hf].
  - erewrite bind_ret;
      [|erewrite tryCatch_throw; [|exact Eb]; rewrite error_bind; reflexivity].
    flatten. rewrite Hres. eexists. split; [reflexivity|exact Hf].
Qed.

Lemma main_without_patterns_changes_no_file_witness :
  exists st',
    BackstopLocal.main configPath configBackupPath cookiesPath cookiesBackupPath
      demoMessage demoRemoves demoBackstop [str "--url"; []; str "reference"] projectState
    = (Exit 0, st')
    /\ files st' = snd (demoBackstop (str "reference") (files projectState)).
Proof.
  apply (main_without_patterns_changes_no_file
           configPath configBackupPath cookiesPath cookiesBackupPath
           demoMessage demoRemoves demoBackstop [str "--url"; []; str "reference"] projectState
           {| BackstopLocal.command := str "reference";
              BackstopLocal.urlPattern := Some [];
              BackstopLocal.refPattern := None |});
    reflexivity.
Defined.

(** X18: a failed backup of the cookies leaves the backup of the
    configuration behind.  With a pattern on the command line, a
    configuration document that can be copied, no backup of it yet, and a
    cookies file that cannot be read, [main] exits with code 1 right after
    [backupConfig] fails: nothing is restored and the backup of the
    configuration document stays.  The failed copy leaves an older backup of
    the cookies as it was or removes it; no other file changes. *)
Theorem failed_cookie_backup_leaves_the_config_backup :
  forall (CONFIG BACKUP COOKIES BACKUP_COOKIES : jsstring) (message : error -> jsstring)
         (removes : jsstring -> jsstring -> (jsstring -> option file) -> bool)
         (backstop : jsstring -> (jsstring -> option file)
                     -> BackstopLocal.spawned * (jsstring -> option file))
         (args : list jsstring) (st : State) (config : BackstopLocal.Config)
         (original locked : file),
    BACKUP <> BACKUP_COOKIES ->
    BackstopLocal.parseArgs args st = (Ret config, st) ->
    truthy (BackstopLocal.urlPattern config) || truthy (BackstopLocal.refPattern config)
    = true ->
    files st CONFIG = Some original ->
    usable original ->
    files st BACKUP = None ->
    files st COOKIES = Some locked ->
    data locked = Unreadable ->
    exists st',
      BackstopLocal.main CONFIG BACKUP COOKIES BACKUP_COOKIES message removes backstop args st
      = (Exit 1, st')
      /\ files st' BACKUP = Some original
      /\ (files st' BACKUP_COOKIES = files st BACKUP_COOKIES
          \/ files st' BACKUP_COOKIES = None)
      /\ forall p, p <> BACKUP -> p <> BACKUP_COOKIES -> files st' p = files st p.
Proof.
  intros CONFIG BACKUP COOKIES BACKUP_COOKIES message removes backstop args st config
         original locked Nb Ep Hpat Hc Hu Hb Hk Hl.
  assert (Nk : COOKIES <> BACKUP) by congruence.
  unfold BackstopLocal.main.
  rewrite (bind_ret _ _ _ _ _ Ep). rewrite Hpat. flatten.
  match goal with
  | |- context [bind (if ?c then console_log ?l else ret tt) ?k ?s] =>
      destruct (maybe_log c l k s) as [out1 E1]; rewrite E1; clear E1
  end.
  match goal with
  | |- context [bind (if ?c then console_log ?l else ret tt) ?k ?s] =>
      destruct (maybe_log c l k s) as [out2 E2]; rewrite E2; clear E2
  end.
  rewrite !printed_printed. set (s := printed st _).
  assert (H1 := copy_new removes CONFIG BACKUP original s Hc Hu Hb).
  set (s1 := {| console := console s;
                files := fun p => if JsString.eqb p BACKUP then Some original
                                  else files s p |}) in *.
  set (s2 := printed s1 [(stdout, [BackstopLocal.tick] ++ str " Backed up backstop.json")]).
  assert (Hk2 : files s2 COOKIES = Some locked).
  { cbn [files printed s2 s1 s]. apply eqb_neq in Nk. now rewrite Nk. }
  assert (He : existsSync COOKIES s2 = (Ret true, s2))
    by (unfold existsSync; now rewrite Hk2).
  set (s3 := if removes COOKIES BACKUP_COOKIES (files s2)
             then {| console := console s2;
                     files := fun p => if JsString.eqb p BACKUP_COOKIES then None
                                       else files s2 p |}
             else s2).
  assert (H2 : BackstopLocal.copyFileSync removes COOKIES BACKUP_COOKIES s2
               = (Throw SystemError, s3)).
  { unfold BackstopLocal.copyFileSync. cbv zeta. now rewrite Hk2, Hl. }
  assert (E : BackstopLocal.backupConfig CONFIG BACKUP COOKIES BACKUP_COOKIES message removes s
              = (Ret false,
                 printed s3 [(stderr, [BackstopLocal.ballot]
                                      ++ str " Failed to backup configuration files: "
                                      ++ message SystemError)])).
  { unfold BackstopLocal.backupConfig.
    erewrite tryCatch_throw; [reflexivity|].
    rewrite (bind_ret _ _ _ _ _ H1). flatten. fold s2.
    rewrite (bind_ret _ _ _ _ _ He). flatten.
    apply bind_throw. exact H2. }
  assert (F3 : forall p, files s3 p = files s2 p
                         \/ (p = BACKUP_COOKIES /\ files s3 p = None)).
  { intros p. unfold s3. destruct (removes COOKIES BACKUP_COOKIES (files s2)); [|now left].
    cbn [files]. destruct (JsString.eqb p BACKUP_COOKIES) eqn:Eq; [|now left].
    apply eqb_eq in Eq. now right. }
  assert (F2 : forall p, p <> BACKUP -> files s2 p = files st p).
  { intros p Hp. cbn [files printed s2 s1 s]. apply eqb_neq in Hp. now rewrite Hp. }
  eexists. split; [|split; [|split]].
  - apply bind_exit, tryCatch_exit. flatten.
    rewrite (bind_ret _ _ _ _ _ E). flatten. reflexivity.
  - cbn [files printed]. destruct (F3 BACKUP) as [-> | [Hp _]]; [|congruence].
    cbn [files printed s2 s1 s]. now rewrite eqb_refl.
  - cbn [files printed]. destruct (F3 BACKUP_COOKIES) as [-> | [_ ->]]; [|now right].
    left. apply F2. congruence.
  - intros p Hp Hq. cbn [files printed]. destruct (F3 p) as [-> | [Hp' _]]; [|congruence].
    now apply F2.
Qed.

Lemma failed_cookie_backup_leaves_the_config_backup_witness :
  exists st',
    BackstopLocal.main configPath configBackupPath cookiesPath cookiesBackupPath
      demoMessage demoRemoves demoBackstop [str "--url"; str "my-branch--"] lockedCookiesState
    = (Exit 1, st')
    /\ files st' configBackupPath = Some {| data := Document stageConfig; writable := true |}
    /\ (files st' cookiesBackupPath = files lockedCookiesState cookiesBackupPath
        \/ files st' cookiesBackupPath = None)
    /\ forall p, p <> configBackupPath -> p <> cookiesBackupPath ->
                 files st' p = files lockedCookiesState p.
Proof.
  apply (failed_cookie_backup_leaves_the_config_backup
           configPath configBackupPath cookiesPath cookiesBackupPath
           demoMessage demoRemoves demoBackstop [str "--url"; str "my-branch--"]
           lockedCookiesState
           {| BackstopLocal.command := str "test";
              BackstopLocal.urlPattern := Some (str "my-branch--");
              BackstopLocal.refPattern := None |}
           {| data := Document stageConfig; writable := true |}
           {| data := Unreadable; writable := true |});
    first [reflexivity | discriminate | split; [discriminate | reflexivity]].
Defined.

(** ** Documents with nothing to replace *)

Lemma rewriteProperty_lacks label key literal guarded pattern obj modified st r st' :
  lacks key literal obj ->
  BackstopLocal.rewriteProperty label key literal guarded pattern obj modified st
  = (Ret r, st') ->
  r = (obj, modified).
Proof.
  unfold BackstopLocal.rewriteProperty, lacks. intros Hl.
  destruct (truthy pattern); [|intros H; now injection H].
  destruct obj; cbn [BackstopLocal.getProperty]; rewrite ?ret_bind;
    cbn [truthy_value]; try (intros H; now injection H); try discriminate.
  destruct (lookup key fields) as [v|]; [|cbn [truthy_value]; intros H; now injection H].
  destruct (truthy_value (Some v)); [|intros H; now injection H].
  destruct v; destruct guarded; cbn [BackstopLocal.callIncludes]; rewrite ?ret_bind;
    try discriminate;
    try (unfold bind, throw; discriminate).
  - rewrite Hl. intros H. now injection H.
  - unfold BackstopLocal.replaceAll. rewrite replaceFrom_none by exact Hl.
    rewrite eqb_refl. intros H. now injection H.
  - destruct (existsb _ items); [discriminate|]. intros H. now injection H.
Qed.

Lemma scenarioStep_lacks urlPattern refPattern item modified st r st' :
  lacks (str "url") (str "stage--") item ->
  lacks (str "referenceUrl") (str "main--") item ->
  BackstopLocal.scenarioStep urlPattern refPattern item modified st = (Ret r, st') ->
  r = (item, modified).
Proof.
  intros Hu Hr. unfold BackstopLocal.scenarioStep, bind.
  destruct (BackstopLocal.rewriteProperty _ _ _ _ urlPattern item modified st)
    as [[r1|c1|e1] s1] eqn:E1; try discriminate.
  apply rewriteProperty_lacks in E1; [|exact Hu]. subst r1. cbn [fst snd].
  intros E2. apply rewriteProperty_lacks in E2; [exact E2 | exact Hr].
Qed.

Lemma forEach_lacks urlPattern refPattern items :
  Forall (fun item => lacks (str "url") (str "stage--") item
                      /\ lacks (str "referenceUrl") (str "main--") item) items ->
  forall modified st r st',
    BackstopLocal.forEach (BackstopLocal.scenarioStep urlPattern refPattern) items modified st
    = (Ret r, st') ->
    r = (items, modified).
Proof.
  induction 1 as [|item items [Hu Hr] Hall IH]; intros modified st r st'.
  - intros H. now injection H.
  - cbn [BackstopLocal.forEach]. unfold bind at 1.
    destruct (BackstopLocal.scenarioStep urlPattern refPattern item modified st)
      as [[r1|c1|e1] s1] eqn:E1; try discriminate.
    apply scenarioStep_lacks in E1; auto. subst r1. cbn [fst snd].
    unfold bind at 1.
    destruct (BackstopLocal.forEach _ items modified s1) as [[r2|c2|e2] s2] eqn:E2;
      try discriminate.
    apply IH in E2. subst r2. intros H. now injection H.
Qed.

(** X19: [updateConfig] leaves a configuration document alone in which
    there is nothing to replace.  When no scenario of the document holds
    [stage--] in a string under [url] or [main--] in a string under
    [referenceUrl], the configuration file is after the call what it was
    before, whatever the patterns and whatever else the document holds. *)
Theorem updateConfig_keeps_a_document_with_nothing_to_replace :
  forall (CONFIG COOKIES : jsstring) (message : error -> jsstring)
         (urlPattern refPattern : option jsstring) (st : State),
    CONFIG <> COOKIES ->
    (forall document w,
        files st CONFIG = Some {| data := Document document; writable := w |} ->
        nothingToReplace document) ->
    exists b st',
      BackstopLocal.updateConfig CONFIG COOKIES message urlPattern refPattern st = (Ret b, st')
      /\ files st' CONFIG = files st CONFIG.
Proof.
  intros CONFIG COOKIES message urlPattern refPattern st Hne Hdoc.
  destruct (updateConfig_outcome CONFIG COOKIES message urlPattern refPattern st Hne)
    as (b & out & w1 & w2 & H & H1 & _).
  eexists _, _. split; [exact H|]. cbn [files].
  rewrite written_other by assumption.
  destruct w1 as [j|]; [|reflexivity].
  destruct (H1 j eq_refl) as (fields & items & items' & Hf & Hl & _ & _ & s1 & Hrun).
  specialize (Hdoc _ _ Hf). cbn [nothingToReplace] in Hdoc. rewrite Hl in Hdoc.
  apply (forEach_lacks _ _ _ Hdoc) in Hrun. discriminate Hrun.
Qed.

Lemma updateConfig_keeps_a_document_with_nothing_to_replace_witness :
  exists b st',
    BackstopLocal.updateConfig configPath cookiesPath demoMessage
      (Some (str "my-branch--")) (Some (str "live--")) branchState = (Ret b, st')
    /\ files st' configPath = files branchState configPath.
Proof.
  apply (updateConfig_keeps_a_document_with_nothing_to_replace
           configPath cookiesPath demoMessage
           (Some (str "my-branch--")) (Some (str "live--")) branchState).
  - discriminate.
  - intros document w H. injection H as <- _.
    repeat constructor.
Defined.

(** X20: [updateCookies] on any file system.  It always returns a
    boolean and changes no file but the cookies file.  Without a cookies file
    it prints one line and returns [true].  When it changes the cookies file,
    the file was there and writable, a document is written to it, and the
    call returns [true]. *)
Theorem updateCookies_touches_only_the_cookies :
  forall (COOKIES : jsstring) (message : error -> jsstring)
         (urlPattern refPattern : option jsstring) (st : State),
    exists b st',
      BackstopLocal.updateCookies COOKIES message urlPattern refPattern st = (Ret b, st')
      /\ (forall p, p <> COOKIES -> files st' p = files st p)
      /\ (files st COOKIES = None ->
          b = true
          /\ st' = printed st [(stdout, [BackstopLocal.info_sign]
                                        ++ str " No cookies.json file found, skipping cookie updates")])
      /\ (files st' COOKIES <> files st COOKIES ->
          b = true
          /\ exists f document,
               files st COOKIES = Some f /\ writable f = true
               /\ files st' COOKIES = Some {| data := Document document; writable := true |}).
Proof.
  intros COOKIES message urlPattern refPattern st.
  destruct (files st COOKIES) as [f|] eqn:Hf.
  - destruct (updateCookies_outcome COOKIES message urlPattern refPattern st)
      as (b & out & w & H & Hw).
    eexists _, _. split; [exact H|]. cbn [files]. split; [|split].
    + intros p Hp. now apply written_other.
    + discriminate.
    + destruct w as [j|]; [|cbn [written]; congruence].
      intros _. destruct Hw as (-> & f' & Hf' & Hwr); [discriminate|].
      split; [reflexivity|]. exists f, (reparsed j). rewrite Hf in Hf'. injection Hf' as <-.
      repeat split; auto. apply written_same.
  - exists true. eexists. split; [|split; [|split]].
    + unfold BackstopLocal.updateCookies. erewrite tryCatch_ret; [reflexivity|].
      assert (He : existsSync COOKIES st = (Ret false, st))
        by (unfold existsSync; now rewrite Hf).
      rewrite (bind_ret _ _ _ _ _ He). reflexivity.
    + reflexivity.
    + intros _. split; reflexivity.
    + cbn [files printed]. congruence.
Qed.
